(** * ycmd clangd completer: the JSON-RPC engine of [clangd_completer.py]

    A shallow embedding of [ycmd/completers/clangd/clangd_completer.py]:
    the framing codec ([_Write], [_Read]), the request builder, the pending
    table with its [DeferredResponse] objects, the reader loop, the
    diagnostics slot and the conversion of LSP diagnostics.

    Conventions.
    - A Python [str] is a list of code points ([ustring]); a Python [bytes]
      is a list of 8-bit values ([bytes]).  Both are lists of [N].
    - JSON values are [json]: [None], [bool], [int], [str], [list], [dict].
      Python floats are outside the model: [json_loads] reports a float
      literal as a decode error, and no [json] value is a float.
    - A Python [dict] is an association list in insertion order
      ([dict_set] keeps the position of a key that is already present).
    - Python exceptions are values of [exn]; a call that can raise returns
      [result].  A call that can block on a stream or on a
      [threading.Event] returns [outcome], whose [Blocked] case means that
      the call cannot proceed in the given state.
    - Time is not measured: a wait with a timeout takes a boolean
      [elapsed], whether the timeout has run out when the waiter looks.
    - The standard library is modelled as Python 3 has it ([json] with its
      accelerated scanner, buffered binary pipes).
    - Calls of [print] are left out: the process's own stdout is taken to
      accept them.
    - Threads are interleaved by [step]: the callers of [_Invoke], the
      reader thread, a consumer of diagnostics and the server process take
      turns, each turn being one piece of code that the source runs under
      a lock or on data that no other thread touches. *)

From Stdlib Require Import ZArith NArith List Lia String Ascii Bool.
From Stdlib Require Import DecimalFacts DecimalPos DecimalN.
From stdpp Require Import gmap list.
Import ListNotations.

Local Open Scope N_scope.

(** ** Python strings and bytes *)

Abbreviation ustring := (list N).
Abbreviation bytes := (list N).

(** A source literal (ASCII only) as a Python string. *)
Definition u (s : string) : ustring :=
  List.map N_of_ascii (list_ascii_of_string s).

Abbreviation c_quote := 34 (only parsing).
Abbreviation c_backslash := 92 (only parsing).

Inductive exn :=
| RuntimeError (msg : string)
| ValueError (msg : string)
| KeyError (key : ustring)
| TypeError (msg : string)
| UnicodeDecodeError
| UnicodeEncodeError.

Inductive result (A : Type) :=
| Ok (a : A)
| Err (e : exn).
Arguments Ok {A} a.
Arguments Err {A} e.

Definition bind {A B} (r : result A) (k : A -> result B) : result B :=
  match r with Ok a => k a | Err e => Err e end.

Notation "'let*' x ':=' r 'in' k" := (bind r (fun x => k))
  (at level 10, x pattern, r at level 100, k at level 200).

(** *** UTF-8 ([utils.ToBytes], [utils.ToUnicode]) *)

Definition is_surrogate (c : N) : bool := (0xD800 <=? c) && (c <=? 0xDFFF).

Definition utf8_encode_char (c : N) : option bytes :=
  if c <? 0x80 then Some [c]
  else if c <? 0x800 then
    Some [N.lor 0xC0 (N.shiftr c 6); N.lor 0x80 (N.land c 0x3F)]
  else if c <? 0x10000 then
    if is_surrogate c then None
    else Some [N.lor 0xE0 (N.shiftr c 12);
               N.lor 0x80 (N.land (N.shiftr c 6) 0x3F);
               N.lor 0x80 (N.land c 0x3F)]
  else if c <? 0x110000 then
    Some [N.lor 0xF0 (N.shiftr c 18);
          N.lor 0x80 (N.land (N.shiftr c 12) 0x3F);
          N.lor 0x80 (N.land (N.shiftr c 6) 0x3F);
          N.lor 0x80 (N.land c 0x3F)]
  else None.

Fixpoint utf8_encode (s : ustring) : option bytes :=
  match s with
  | [] => Some []
  | c :: r =>
    match utf8_encode_char c, utf8_encode r with
    | Some b, Some br => Some (b ++ br)
    | _, _ => None
    end
  end.

Definition is_cont (b : N) : bool := (0x80 <=? b) && (b <=? 0xBF).
Definition cont_bits (b : N) : N := N.land b 0x3F.

(** Strict UTF-8 decoding: overlong forms, surrogates and values above
    U+10FFFF are rejected, as by [str( value, 'utf8' )]. *)
Fixpoint utf8_decode (b : bytes) : option ustring :=
  match b with
  | [] => Some []
  | b0 :: r0 =>
    if b0 <? 0x80 then option_map (cons b0) (utf8_decode r0)
    else if (0xC2 <=? b0) && (b0 <=? 0xDF) then
      match r0 with
      | b1 :: r1 =>
        if is_cont b1 then
          option_map
            (cons (N.lor (N.shiftl (N.land b0 0x1F) 6) (cont_bits b1)))
            (utf8_decode r1)
        else None
      | _ => None
      end
    else if (0xE0 <=? b0) && (b0 <=? 0xEF) then
      match r0 with
      | b1 :: b2 :: r2 =>
        let c := N.lor (N.shiftl (N.land b0 0x0F) 12)
                   (N.lor (N.shiftl (cont_bits b1) 6) (cont_bits b2)) in
        if is_cont b1 && is_cont b2 && (0x800 <=? c) && negb (is_surrogate c)
        then option_map (cons c) (utf8_decode r2)
        else None
      | _ => None
      end
    else if (0xF0 <=? b0) && (b0 <=? 0xF4) then
      match r0 with
      | b1 :: b2 :: b3 :: r3 =>
        let c := N.lor (N.shiftl (N.land b0 0x07) 18)
                   (N.lor (N.shiftl (cont_bits b1) 12)
                      (N.lor (N.shiftl (cont_bits b2) 6) (cont_bits b3))) in
        if is_cont b1 && is_cont b2 && is_cont b3
           && (0x10000 <=? c) && (c <? 0x110000)
        then option_map (cons c) (utf8_decode r3)
        else None
      | _ => None
      end
    else None
  end.

(** Modelled from the spec: [utils.ToBytes] of [ycmd/utils.py] is not among
    the sources; the wire format is "N bytes of UTF-8 JSON", so it is the
    UTF-8 encoding of a string. *)
Definition ToBytes (s : ustring) : result bytes :=
  match utf8_encode s with
  | Some b => Ok b
  | None => Err UnicodeEncodeError
  end.

(** Modelled from the spec: [utils.ToUnicode] of [ycmd/utils.py] is not
    among the sources; it is the strict UTF-8 decoding of a byte string. *)
Definition ToUnicode (b : bytes) : result ustring :=
  match utf8_decode b with
  | Some s => Ok s
  | None => Err UnicodeDecodeError
  end.

(** *** Decimal integers ([repr] of an [int], ['%d'], [int( text )]) *)

Fixpoint uint_chars (d : Decimal.uint) : ustring :=
  match d with
  | Decimal.Nil => []
  | Decimal.D0 d => 48 :: uint_chars d
  | Decimal.D1 d => 49 :: uint_chars d
  | Decimal.D2 d => 50 :: uint_chars d
  | Decimal.D3 d => 51 :: uint_chars d
  | Decimal.D4 d => 52 :: uint_chars d
  | Decimal.D5 d => 53 :: uint_chars d
  | Decimal.D6 d => 54 :: uint_chars d
  | Decimal.D7 d => 55 :: uint_chars d
  | Decimal.D8 d => 56 :: uint_chars d
  | Decimal.D9 d => 57 :: uint_chars d
  end.

Definition repr_N (n : N) : ustring := uint_chars (N.to_uint n).

Definition repr_int (z : Z) : ustring :=
  match z with
  | Zneg p => 45 :: repr_N (Npos p)
  | _ => repr_N (Z.to_N z)
  end.

Definition is_digit (c : N) : bool := (48 <=? c) && (c <=? 57).

Definition digit_cons (c : N) (d : Decimal.uint) : Decimal.uint :=
  match c - 48 with
  | 0 => Decimal.D0 d
  | 1 => Decimal.D1 d
  | 2 => Decimal.D2 d
  | 3 => Decimal.D3 d
  | 4 => Decimal.D4 d
  | 5 => Decimal.D5 d
  | 6 => Decimal.D6 d
  | 7 => Decimal.D7 d
  | 8 => Decimal.D8 d
  | _ => Decimal.D9 d
  end.

(** The longest prefix of decimal digits, and what follows it. *)
Fixpoint span_digits (s : ustring) : Decimal.uint * ustring :=
  match s with
  | c :: r =>
    if is_digit c then
      let '(d, r') := span_digits r in (digit_cons c d, r')
    else (Decimal.Nil, s)
  | [] => (Decimal.Nil, [])
  end.

(** ** JSON values and [json.dumps] *)

Local Set Warnings "-register-all".

Inductive json :=
| JNull
| JBool (b : bool)
| JInt (z : Z)
| JStr (s : ustring)
| JList (l : list json)
| JDict (d : list (ustring * json)).

(** [d[ k ] = v] on a dict: an existing key keeps its position. *)
Fixpoint dict_set {V} (k : ustring) (v : V) (d : list (ustring * V))
  : list (ustring * V) :=
  match d with
  | [] => [(k, v)]
  | (k', v') :: r =>
    if decide (k' = k) then (k, v) :: r else (k', v') :: dict_set k v r
  end.

Fixpoint dict_get {V} (k : ustring) (d : list (ustring * V)) : option V :=
  match d with
  | [] => None
  | (k', v') :: r => if decide (k' = k) then Some v' else dict_get k r
  end.

(** Lower-case hexadecimal digit of a value below 16. *)
Definition hexdigit (n : N) : N := if n <? 10 then 48 + n else 87 + n.

(** ['\\u{0:04x}'.format( n )] for [n < 0x10000]. *)
Definition u_escape (n : N) : ustring :=
  [c_backslash; 117;
   hexdigit (N.land (N.shiftr n 12) 15);
   hexdigit (N.land (N.shiftr n 8) 15);
   hexdigit (N.land (N.shiftr n 4) 15);
   hexdigit (N.land n 15)].

(** The replacement of one character by [json.encoder]'s
    [encode_basestring_ascii] ([ensure_ascii] is [True], the default that
    [_Write] leaves in place): printable ASCII other than the quote and the
    backslash is kept, everything else is escaped. *)
Definition escape_char (c : N) : ustring :=
  if c =? c_quote then [c_backslash; c_quote]
  else if c =? c_backslash then [c_backslash; c_backslash]
  else if c =? 10 then [c_backslash; 110]
  else if c =? 13 then [c_backslash; 114]
  else if c =? 9 then [c_backslash; 116]
  else if c =? 12 then [c_backslash; 102]
  else if c =? 8 then [c_backslash; 98]
  else if (32 <=? c) && (c <=? 126) then [c]
  else if c <? 0x10000 then u_escape c
  else
    let n := c - 0x10000 in
    u_escape (N.lor 0xD800 (N.land (N.shiftr n 10) 0x3FF))
    ++ u_escape (N.lor 0xDC00 (N.land n 0x3FF)).

Definition encode_basestring_ascii (s : ustring) : ustring :=
  c_quote :: flat_map escape_char s ++ [c_quote].

(** [sep.join( parts )]. *)
Fixpoint join (sep : ustring) (parts : list ustring) : ustring :=
  match parts with
  | [] => []
  | [p] => p
  | p :: r => p ++ sep ++ join sep r
  end.

(** [json.dumps( v, separators = ( ',', ':' ) )]. *)
Fixpoint json_dumps (v : json) : ustring :=
  match v with
  | JNull => u "null"
  | JBool true => u "true"
  | JBool false => u "false"
  | JInt z => repr_int z
  | JStr s => encode_basestring_ascii s
  | JList l => 91 :: join [44] (List.map json_dumps l) ++ [93]
  | JDict d =>
    123 ::
    join [44]
      (List.map (fun kv => encode_basestring_ascii (fst kv) ++ 58 :: json_dumps (snd kv)) d)
    ++ [125]
  end.

(** ** The framing codec, encoding side *)

Definition CRLF : ustring := [13; 10].

(** The bytes that [_Write] hands to [stdin.write]:
    [utils.ToBytes( 'Content-Length: %d\r\n\r\n%s' %
                    ( len( request_json ), request_json ) )]. *)
Definition request_serialized (request : json) : result bytes :=
  let request_json := json_dumps request in
  ToBytes (u "Content-Length: "
           ++ repr_int (Z.of_nat (length request_json))
           ++ CRLF ++ CRLF ++ request_json).

(** ** [json.loads]

    The scanner follows CPython's accelerated decoder ([scanstring] and
    [scan_once] of [_json.c]) in strict mode.  Every way of failing is a
    [JSONDecodeError], a [ValueError]; the functions below return [None]
    for it.  A number with a fraction or an exponent, and the constants
    [NaN], [Infinity] and [-Infinity], would be floats: they are outside
    the model and reported as a failure too. *)

Definition is_json_ws (c : N) : bool :=
  (c =? 32) || (c =? 9) || (c =? 10) || (c =? 13).

Fixpoint skip_ws (s : ustring) : ustring :=
  match s with
  | c :: r => if is_json_ws c then skip_ws r else s
  | [] => []
  end.

Definition hexval (c : N) : option N :=
  if (48 <=? c) && (c <=? 57) then Some (c - 48)
  else if (97 <=? c) && (c <=? 102) then Some (c - 87)
  else if (65 <=? c) && (c <=? 70) then Some (c - 55)
  else None.

Definition hex4 (h1 h2 h3 h4 : N) : option N :=
  match hexval h1, hexval h2, hexval h3, hexval h4 with
  | Some a, Some b, Some c, Some d =>
    Some (N.lor (N.shiftl a 12) (N.lor (N.shiftl b 8) (N.lor (N.shiftl c 4) d)))
  | _, _, _, _ => None
  end.

Definition is_high_surrogate (c : N) : bool := (0xD800 <=? c) && (c <=? 0xDBFF).
Definition is_low_surrogate (c : N) : bool := (0xDC00 <=? c) && (c <=? 0xDFFF).

Definition join_surrogates (c1 c2 : N) : N :=
  0x10000 + N.lor (N.shiftl (N.land c1 0x3FF) 10) (N.land c2 0x3FF).

(** The character named by a one-letter escape. *)
Definition unescape (e : N) : option N :=
  if e =? c_quote then Some c_quote
  else if e =? c_backslash then Some c_backslash
  else if e =? 47 then Some 47
  else if e =? 98 then Some 8
  else if e =? 102 then Some 12
  else if e =? 110 then Some 10
  else if e =? 114 then Some 13
  else if e =? 116 then Some 9
  else None.

Definition push (c : N) (r : option (ustring * ustring))
  : option (ustring * ustring) :=
  match r with
  | Some (s, rest) => Some (c :: s, rest)
  | None => None
  end.

(** [scanstring]: the input starts just after the opening quote; the result
    is the decoded string and the input after the closing quote.  A high
    surrogate escape directly followed by a low surrogate escape is one
    character. *)
Fixpoint scanstring (s : ustring) : option (ustring * ustring) :=
  match s with
  | [] => None
  | c :: r =>
    if c =? c_quote then Some ([], r)
    else if c =? c_backslash then
      match r with
      | [] => None
      | e :: r1 =>
        if e =? 117 then
          match r1 with
          | h1 :: h2 :: h3 :: h4 :: r2 =>
            match hex4 h1 h2 h3 h4 with
            | None => None
            | Some c1 =>
              if is_high_surrogate c1 then
                match r2 with
                | b :: e' :: g1 :: g2 :: g3 :: g4 :: r3 =>
                  if (b =? c_backslash) && (e' =? 117) then
                    match hex4 g1 g2 g3 g4 with
                    | None => None
                    | Some c2 =>
                      if is_low_surrogate c2
                      then push (join_surrogates c1 c2) (scanstring r3)
                      else push c1 (scanstring r2)
                    end
                  else push c1 (scanstring r2)
                | _ => push c1 (scanstring r2)
                end
              else push c1 (scanstring r2)
            end
          | _ => None
          end
        else
          match unescape e with
          | Some c' => push c' (scanstring r1)
          | None => None
          end
      end
    else if c <? 32 then None
    else push c (scanstring r)
  end.

(** Does a fraction or an exponent follow the integer part? *)
Definition starts_float (r : ustring) : bool :=
  match r with
  | c :: r1 =>
    if c =? 46 then
      match r1 with c1 :: _ => is_digit c1 | [] => false end
    else if (c =? 101) || (c =? 69) then
      match r1 with
      | c1 :: r2 =>
        if is_digit c1 then true
        else if (c1 =? 43) || (c1 =? 45) then
          match r2 with c2 :: _ => is_digit c2 | [] => false end
        else false
      | [] => false
      end
    else false
  | [] => false
  end.

Definition finish_number (neg : bool) (d : Decimal.uint) (r : ustring)
  : option (json * ustring) :=
  if starts_float r then None
  else
    let n := Z.of_N (N.of_uint d) in
    Some (JInt (if neg then (- n)%Z else n), r).

(** [_match_number]: an optional minus sign, then [0] or a digit string
    that does not start with [0]. *)
Definition match_number (s : ustring) : option (json * ustring) :=
  let '(neg, s1) :=
    match s with
    | c :: r => if c =? 45 then (true, r) else (false, s)
    | [] => (false, s)
    end in
  match s1 with
  | c :: r =>
    if c =? 48 then finish_number neg (Decimal.D0 Decimal.Nil) r
    else if is_digit c then
      let '(d, r') := span_digits r in finish_number neg (digit_cons c d) r'
    else None
  | [] => None
  end.

Fixpoint strip_prefix (p s : ustring) : option ustring :=
  match p, s with
  | [], _ => Some s
  | a :: p', b :: s' => if a =? b then strip_prefix p' s' else None
  | _ :: _, [] => None
  end.

(** The items of an array after a first non-[']'] character was seen;
    [scan] reads one value, [n] bounds the number of items. *)
Fixpoint parse_array_items (scan : ustring -> option (json * ustring))
    (n : nat) (s : ustring) : option (list json * ustring) :=
  match n with
  | O => None
  | S n' =>
    match scan s with
    | None => None
    | Some (v, r) =>
      match skip_ws r with
      | c :: r1 =>
        if c =? 93 then Some ([v], r1)
        else if c =? 44 then
          match parse_array_items scan n' (skip_ws r1) with
          | Some (vs, r2) => Some (v :: vs, r2)
          | None => None
          end
        else None
      | [] => None
      end
    end
  end.

(** The pairs of an object after a first non-['}'] character was seen. *)
Fixpoint parse_object_items (scan : ustring -> option (json * ustring))
    (n : nat) (s : ustring) : option (list (ustring * json) * ustring) :=
  match n with
  | O => None
  | S n' =>
    match s with
    | q :: r0 =>
      if q =? c_quote then
        match scanstring r0 with
        | None => None
        | Some (key, r1) =>
          match skip_ws r1 with
          | c :: r2 =>
            if c =? 58 then
              match scan (skip_ws r2) with
              | None => None
              | Some (v, r3) =>
                match skip_ws r3 with
                | c' :: r4 =>
                  if c' =? 125 then Some ([(key, v)], r4)
                  else if c' =? 44 then
                    match parse_object_items scan n' (skip_ws r4) with
                    | Some (kvs, r5) => Some ((key, v) :: kvs, r5)
                    | None => None
                    end
                  else None
                | [] => None
                end
              end
            else None
          | [] => None
          end
        end
      else None
    | [] => None
    end
  end.

(** The dict that the decoder builds from the pairs in the order read:
    a repeated key keeps its first position and its last value. *)
Definition dict_of_pairs (kvs : list (ustring * json)) : list (ustring * json) :=
  fold_left (fun d kv => dict_set (fst kv) (snd kv) d) kvs [].

(** [scan_once]; [fuel] bounds the nesting depth and the number of items
    of an array or object. *)
Fixpoint scan_once (fuel : nat) (s : ustring) : option (json * ustring) :=
  match fuel with
  | O => None
  | S fuel' =>
    match s with
    | [] => None
    | c :: r =>
      if c =? c_quote then
        match scanstring r with
        | Some (str, r') => Some (JStr str, r')
        | None => None
        end
      else if c =? 123 then
        match skip_ws r with
        | c1 :: r1 =>
          if c1 =? 125 then Some (JDict [], r1)
          else
            match parse_object_items (scan_once fuel') fuel' (c1 :: r1) with
            | Some (kvs, r2) => Some (JDict (dict_of_pairs kvs), r2)
            | None => None
            end
        | [] => None
        end
      else if c =? 91 then
        match skip_ws r with
        | c1 :: r1 =>
          if c1 =? 93 then Some (JList [], r1)
          else
            match parse_array_items (scan_once fuel') fuel' (c1 :: r1) with
            | Some (vs, r2) => Some (JList vs, r2)
            | None => None
            end
        | [] => None
        end
      else if c =? 110 then
        option_map (pair JNull) (strip_prefix (u "ull") r)
      else if c =? 116 then
        option_map (pair (JBool true)) (strip_prefix (u "rue") r)
      else if c =? 102 then
        option_map (pair (JBool false)) (strip_prefix (u "alse") r)
      else match_number s
    end
  end.

(** [s.startswith( p )]. *)
Fixpoint is_prefix (p s : ustring) : bool :=
  match p, s with
  | [], _ => true
  | a :: p', b :: s' => (a =? b) && is_prefix p' s'
  | _ :: _, [] => false
  end.

(** [json.loads( s )] on a [str]: a leading byte order mark is refused,
    white space around the one value is skipped, anything after it is
    "Extra data". *)
Definition json_loads (s : ustring) : result json :=
  if is_prefix [0xFEFF] s then Err (ValueError "Unexpected UTF-8 BOM")
  else
    match scan_once (S (length s)) (skip_ws s) with
    | Some (v, r) =>
      match skip_ws r with
      | [] => Ok v
      | _ :: _ => Err (ValueError "Extra data")
      end
    | None => Err (ValueError "Expecting value")
    end.

(** ** Pipes

    The read side of a pipe: the bytes that have arrived and were not yet
    consumed, and whether the writer has closed its end.  A read that needs
    more bytes than have arrived blocks unless the pipe is closed. *)

Record stream := { buf : bytes; eof : bool }.

Inductive outcome (S A : Type) :=
| Blocked
| Raised (e : exn) (s : S)
| Returned (a : A) (s : S).
Arguments Blocked {S A}.
Arguments Raised {S A} e s.
Arguments Returned {S A} a s.

(** The first line of [b] with its newline, and the rest. *)
Fixpoint split_line (b : bytes) : option (bytes * bytes) :=
  match b with
  | [] => None
  | c :: r =>
    if c =? 10 then Some ([c], r)
    else
      match split_line r with
      | Some (line, rest) => Some (c :: line, rest)
      | None => None
      end
  end.

(** [stdout.readline()]. *)
Definition readline (s : stream) : outcome stream bytes :=
  match split_line (buf s) with
  | Some (line, rest) => Returned line {| buf := rest; eof := eof s |}
  | None =>
    if eof s then Returned (buf s) {| buf := []; eof := true |}
    else Blocked
  end.

(** [stdout.read( n )] of a buffered reader: exactly [n] bytes, fewer only
    at the end of the stream; [-1] reads to the end of the stream. *)
Definition read (n : Z) (s : stream) : outcome stream bytes :=
  if (n <? -1)%Z then
    Raised (ValueError "read length must be non-negative or -1") s
  else if (n =? -1)%Z then
    if eof s then Returned (buf s) {| buf := []; eof := true |}
    else Blocked
  else
    let k := Z.to_nat n in
    if (k <=? length (buf s))%nat then
      Returned (firstn k (buf s)) {| buf := skipn k (buf s); eof := eof s |}
    else if eof s then Returned (buf s) {| buf := []; eof := true |}
    else Blocked.

(** ** [strip], [split] and [int] *)

(** The bytes that [bytes.strip()] removes. *)
Definition is_bytes_space (c : N) : bool :=
  (c =? 32) || ((9 <=? c) && (c <=? 13)).

(** The characters that [str.strip()] removes ([str.isspace]). *)
Definition is_str_space (c : N) : bool :=
  (c =? 32) || ((9 <=? c) && (c <=? 13)) || ((28 <=? c) && (c <=? 31))
  || (c =? 0x85) || (c =? 0xA0) || (c =? 0x1680)
  || ((0x2000 <=? c) && (c <=? 0x200A))
  || (c =? 0x2028) || (c =? 0x2029) || (c =? 0x202F) || (c =? 0x205F)
  || (c =? 0x3000).

Fixpoint lstrip (sp : N -> bool) (s : list N) : list N :=
  match s with
  | c :: r => if sp c then lstrip sp r else s
  | [] => []
  end.

Definition strip (sp : N -> bool) (s : list N) : list N :=
  rev (lstrip sp (rev (lstrip sp s))).

(** [t.split( ':', 1 )] when it has two parts. *)
Fixpoint split_colon (t : ustring) : option (ustring * ustring) :=
  match t with
  | [] => None
  | c :: r =>
    if c =? 58 then Some ([], r)
    else
      match split_colon r with
      | Some (k, v) => Some (c :: k, v)
      | None => None
      end
  end.

(** [int( t )] for a stripped text: an optional sign and ASCII decimal
    digits.  (Digit separators and non-ASCII digits, which some Python
    versions accept, are reported as [ValueError].) *)
Definition py_int (t : ustring) : result Z :=
  let '(neg, t1) :=
    match t with
    | c :: r =>
      if c =? 45 then (true, r) else if c =? 43 then (false, r) else (false, t)
    | [] => (false, t)
    end in
  match t1, span_digits t1 with
  | _ :: _, (d, []) =>
    let n := Z.of_N (N.of_uint d) in
    Ok (if neg then (- n)%Z else n)
  | _, _ => Err (ValueError "invalid literal for int() with base 10")
  end.

(** ** The framing codec, decoding side *)

(** The header loop of [_Read]: each round reads one line; an empty
    stripped line ends the block.  Every round that goes on has consumed at
    least one byte, so [fuel] above the buffer's length is never used up
    ([read_headers_fuel]). *)
Fixpoint read_headers (fuel : nat) (headers : list (ustring * ustring))
    (s : stream) : outcome stream (list (ustring * ustring)) :=
  match fuel with
  | O => Blocked
  | S fuel' =>
    match readline s with
    | Blocked => Blocked
    | Raised e s1 => Raised e s1
    | Returned line s1 =>
      match strip is_bytes_space line with
      | [] => Returned headers s1
      | headerline =>
        match ToUnicode headerline with
        | Err e => Raised e s1
        | Ok t =>
          match split_colon t with
          | None => Raised (ValueError "not enough values to unpack") s1
          | Some (key, value) =>
            read_headers fuel'
              (dict_set (strip is_str_space key) (strip is_str_space value)
                 headers) s1
          end
        end
      end
    end
  end.

Definition _Read (s : stream) : outcome stream json :=
  match read_headers (S (length (buf s))) [] s with
  | Blocked => Blocked
  | Raised e s1 => Raised e s1
  | Returned headers s1 =>
    match dict_get (u "Content-Length") headers with
    | None => Raised (RuntimeError "Missing 'Content-Length' header") s1
    | Some value =>
      match py_int value with
      | Err e => Raised e s1
      | Ok contentlength =>
        match read contentlength s1 with
        | Blocked => Blocked
        | Raised e s2 => Raised e s2
        | Returned content s2 =>
          match (let* t := ToUnicode content in json_loads t) with
          | Ok message => Returned message s2
          | Err e => Raised e s2
          end
        end
      end
    end
  end.

(** ** Python containers: subscripts, [in], hashing *)

(** [v[ k ]] with a string subscript. *)
Definition getitem (v : json) (k : ustring) : result json :=
  match v with
  | JDict d =>
    match dict_get k d with
    | Some x => Ok x
    | None => Err (KeyError k)
    end
  | JList _ => Err (TypeError "list indices must be integers")
  | JStr _ => Err (TypeError "string indices must be integers")
  | _ => Err (TypeError "object is not subscriptable")
  end.

Fixpoint is_infix (p s : ustring) : bool :=
  is_prefix p s || match s with _ :: r => is_infix p r | [] => false end.

Definition is_str (k : ustring) (v : json) : bool :=
  match v with
  | JStr s => bool_decide (s = k)
  | _ => false
  end.

(** [k in v] for a string [k]: a key of a dict, an element of a list, a
    substring of a string. *)
Definition py_in (k : ustring) (v : json) : result bool :=
  match v with
  | JDict d =>
    Ok (match dict_get k d with Some _ => true | None => false end)
  | JList l => Ok (existsb (is_str k) l)
  | JStr s => Ok (is_infix k s)
  | _ => Err (TypeError "argument is not iterable")
  end.

(** What [for x in v] iterates over. *)
Definition py_iter (v : json) : result (list json) :=
  match v with
  | JList l => Ok l
  | JDict d => Ok (List.map (fun kv => JStr (fst kv)) d)
  | JStr s => Ok (List.map (fun c => JStr [c]) s)
  | _ => Err (TypeError "object is not iterable")
  end.

(** Keys of a Python dict, up to [==]: [True] and [False] are the integers
    1 and 0; lists and dicts are not hashable. *)
Inductive pykey :=
| KNone
| KInt (z : Z)
| KStr (s : ustring).

#[global] Instance pykey_eq_dec : EqDecision pykey.
Proof. solve_decision. Defined.

#[global] Instance pykey_countable : Countable pykey.
Proof.
  refine (inj_countable'
    (fun k => match k with
              | KNone => inl tt
              | KInt z => inr (inl z)
              | KStr s => inr (inr s)
              end)
    (fun x => match x with
              | inl _ => KNone
              | inr (inl z) => KInt z
              | inr (inr s) => KStr s
              end) _).
  intros []; reflexivity.
Defined.

Definition hash_key (v : json) : result pykey :=
  match v with
  | JNull => Ok KNone
  | JBool b => Ok (KInt (if b then 1 else 0))
  | JInt z => Ok (KInt z)
  | JStr s => Ok (KStr s)
  | JList _ => Err (TypeError "unhashable type: 'list'")
  | JDict _ => Err (TypeError "unhashable type: 'dict'")
  end.

(** ** [threading.Event] and [DeferredResponse] *)

(** [event.wait( timeout )]: returns at once when the flag is set; with a
    timeout it also returns, with [False], once the timeout has run out
    ([elapsed]); otherwise the caller stays blocked ([None]). *)
Definition Event_wait (flag : bool) (timeout : option Z) (elapsed : bool)
  : option bool :=
  if flag then Some true
  else
    match timeout with
    | Some _ => if elapsed then Some false else None
    | None => None
    end.

Definition SERVER_NOT_RUNNING_MESSAGE : string := "clangd is not running".
Definition RESPONSE_TIMEOUT_SECONDS : Z := 10.

Record DeferredResponse := {
  _event : bool;
  _message : json;
  _timeout : Z
}.

(** [DeferredResponse.__init__]. *)
Definition DeferredResponse_init : DeferredResponse :=
  {| _event := false; _message := JNull; _timeout := RESPONSE_TIMEOUT_SECONDS |}.

(** [DeferredResponse.resolve]. *)
Definition resolve (message : json) (d : DeferredResponse) : DeferredResponse :=
  {| _event := true; _message := message; _timeout := _timeout d |}.

(** [DeferredResponse.result]. *)
Definition DeferredResponse_result (d : DeferredResponse) (elapsed : bool)
  : outcome unit json :=
  match Event_wait (_event d) (Some (_timeout d)) elapsed with
  | None => Blocked
  | Some _ =>
    if negb (_event d) then Raised (RuntimeError "Response Timeout") tt
    else Returned (_message d) tt
  end.

(** ** The completer object *)

Record ClangdCompleter := {
  (** [self._server.stdin]: the bytes written to the server so far. *)
  _server_stdin : bytes;
  (** [self._server.stdout]. *)
  _server_stdout : stream;
  _server_is_running : bool;
  (** The next value of [itertools.count()]. *)
  _sequenceid : Z;
  (** The pending table; a value is the address of a [DeferredResponse]
      in [heap]. *)
  _pending : gmap pykey nat;
  _diagnostics : json;
  _has_diagnostics : bool;
  (** The [DeferredResponse] objects created so far. *)
  heap : list DeferredResponse;
  (** The records of [_logger.exception]. *)
  _logger : list (string * exn)
}.

Definition set_stdin (b : bytes) (c : ClangdCompleter) : ClangdCompleter :=
  {| _server_stdin := b; _server_stdout := _server_stdout c;
     _server_is_running := _server_is_running c; _sequenceid := _sequenceid c;
     _pending := _pending c; _diagnostics := _diagnostics c;
     _has_diagnostics := _has_diagnostics c; heap := heap c;
     _logger := _logger c |}.

Definition set_stdout (o : stream) (c : ClangdCompleter) : ClangdCompleter :=
  {| _server_stdin := _server_stdin c; _server_stdout := o;
     _server_is_running := _server_is_running c; _sequenceid := _sequenceid c;
     _pending := _pending c; _diagnostics := _diagnostics c;
     _has_diagnostics := _has_diagnostics c; heap := heap c;
     _logger := _logger c |}.

Definition set_running (b : bool) (c : ClangdCompleter) : ClangdCompleter :=
  {| _server_stdin := _server_stdin c; _server_stdout := _server_stdout c;
     _server_is_running := b; _sequenceid := _sequenceid c;
     _pending := _pending c; _diagnostics := _diagnostics c;
     _has_diagnostics := _has_diagnostics c; heap := heap c;
     _logger := _logger c |}.

Definition set_sequenceid (n : Z) (c : ClangdCompleter) : ClangdCompleter :=
  {| _server_stdin := _server_stdin c; _server_stdout := _server_stdout c;
     _server_is_running := _server_is_running c; _sequenceid := n;
     _pending := _pending c; _diagnostics := _diagnostics c;
     _has_diagnostics := _has_diagnostics c; heap := heap c;
     _logger := _logger c |}.

Definition set_pending (p : gmap pykey nat) (h : list DeferredResponse)
    (c : ClangdCompleter) : ClangdCompleter :=
  {| _server_stdin := _server_stdin c; _server_stdout := _server_stdout c;
     _server_is_running := _server_is_running c; _sequenceid := _sequenceid c;
     _pending := p; _diagnostics := _diagnostics c;
     _has_diagnostics := _has_diagnostics c; heap := h;
     _logger := _logger c |}.

Definition set_diagnostics (d : json) (has : bool) (c : ClangdCompleter)
  : ClangdCompleter :=
  {| _server_stdin := _server_stdin c; _server_stdout := _server_stdout c;
     _server_is_running := _server_is_running c; _sequenceid := _sequenceid c;
     _pending := _pending c; _diagnostics := d;
     _has_diagnostics := has; heap := heap c;
     _logger := _logger c |}.

Definition log_exception (msg : string) (e : exn) (c : ClangdCompleter)
  : ClangdCompleter :=
  {| _server_stdin := _server_stdin c; _server_stdout := _server_stdout c;
     _server_is_running := _server_is_running c; _sequenceid := _sequenceid c;
     _pending := _pending c; _diagnostics := _diagnostics c;
     _has_diagnostics := _has_diagnostics c; heap := heap c;
     _logger := _logger c ++ [(msg, e)] |}.

(** [_BuildRequest]; [params] is [JNull] for Python's [None]. *)
Definition _BuildRequest (method params : json) (use_sequenceid : bool)
    (self : ClangdCompleter) : json * ClangdCompleter :=
  let request := dict_set (u "jsonrpc") (JStr (u "2.0")) [] in
  let '(request, self) :=
    if use_sequenceid
    then (dict_set (u "id") (JInt (_sequenceid self)) request,
          set_sequenceid (_sequenceid self + 1)%Z self)
    else (request, self) in
  let request := dict_set (u "method") method request in
  let request :=
    match params with
    | JNull => request
    | _ => dict_set (u "params") params request
    end in
  (JDict request, self).

(** [_Write]: the frame is appended to what the server's stdin received.
    Limit: the server is taken to read its stdin; the [OSError] that
    [write] or [flush] raises on a pipe whose reader is gone is not
    modelled, so [_Write] fails only when the text cannot be encoded. *)
Definition _Write (request : json) (self : ClangdCompleter)
  : result ClangdCompleter :=
  let* request_serialized := request_serialized request in
  Ok (set_stdin (_server_stdin self ++ request_serialized) self).

(** [_Notify]. *)
Definition _Notify (method params : json) (self : ClangdCompleter)
  : result ClangdCompleter :=
  let '(request, self) := _BuildRequest method params false self in
  _Write request self.

(** [_SendRequest] up to the end of its [with] block: the new
    [DeferredResponse] is stored in the heap and, under the lock, in the
    pending table.  The result is its address. *)
Definition _SendRequest_register (request : json) (self : ClangdCompleter)
  : result (nat * ClangdCompleter) :=
  let deferred := length (heap self) in
  let heap' := heap self ++ [DeferredResponse_init] in
  match (let* id := getitem request (u "id") in hash_key id) with
  | Err e => Err e
  | Ok sequenceid =>
    Ok (deferred, set_pending (<[sequenceid := deferred]> (_pending self)) heap' self)
  end.

(** [_SendRequest]'s last statement, [return deferred.result()]. *)
Definition _SendRequest_result (deferred : nat) (self : ClangdCompleter)
    (elapsed : bool) : outcome unit json :=
  match heap self !! deferred with
  | Some d => DeferredResponse_result d elapsed
  | None => Blocked
  end.

(** [_SendRequest] from its first statement to the point where it waits
    for the response. *)
Definition _SendRequest_send (request : json) (self : ClangdCompleter)
  : result (nat * ClangdCompleter) :=
  let* (deferred, self) := _SendRequest_register request self in
  let* self := _Write request self in
  Ok (deferred, self).

(** [_Invoke] to the point where it waits for the response. *)
Definition _Invoke_send (method params : json) (self : ClangdCompleter)
  : result (nat * ClangdCompleter) :=
  let '(request, self) := _BuildRequest method params true self in
  _SendRequest_send request self.

(** [_StartServer] up to its [_Invoke]: a new process with fresh pipes,
    and the gate is set. *)
Definition _StartServer_spawn (self : ClangdCompleter) : ClangdCompleter :=
  set_running true
    (set_stdout {| buf := []; eof := false |} (set_stdin [] self)).

(** The object when [__init__] reaches the [_Invoke] of [_StartServer]. *)
Definition init : ClangdCompleter :=
  _StartServer_spawn
    {| _server_stdin := []; _server_stdout := {| buf := []; eof := true |};
       _server_is_running := false; _sequenceid := 0;
       _pending := ∅; _diagnostics := JNull; _has_diagnostics := false;
       heap := []; _logger := [] |}.

(** ** The reader loop *)

Inductive loop_outcome :=
| LoopBlocked
| LoopContinue (self : ClangdCompleter)
| LoopDied (e : exn) (self : ClangdCompleter).

Definition PUBLISH_DIAGNOSTICS : ustring := u "textDocument/publishDiagnostics".

(** What the loop does with a decoded message. *)
Definition dispatch (message : json) (self : ClangdCompleter) : loop_outcome :=
  match py_in (u "id") message with
  | Err e => LoopDied e self
  | Ok true =>
    match (let* sequenceid := getitem message (u "id") in hash_key sequenceid) with
    | Err e => LoopDied e self
    | Ok sequenceid =>
      match _pending self !! sequenceid with
      | Some deferred =>
        LoopContinue
          (set_pending (delete sequenceid (_pending self))
             (alter (resolve message) deferred (heap self)) self)
      | None => LoopContinue self
      end
    end
  | Ok false =>
    match getitem message (u "method") with
    | Err e => LoopDied e self
    | Ok method =>
      if is_str PUBLISH_DIAGNOSTICS method
      then LoopContinue (set_diagnostics message true self)
      else LoopContinue self
    end
  end.

(** One round of the [while True] of [_ReaderLoop].  [LoopBlocked]: the
    round waits, for the gate or for bytes.  [LoopDied]: an exception left
    the loop and ended the thread. *)
Definition _ReaderLoop_body (self : ClangdCompleter) : loop_outcome :=
  if negb (_server_is_running self) then LoopBlocked
  else
    match _Read (_server_stdout self) with
    | Blocked => LoopBlocked
    | Raised e out =>
      LoopContinue
        (set_running false
           (log_exception SERVER_NOT_RUNNING_MESSAGE e (set_stdout out self)))
    | Returned message out => dispatch message (set_stdout out self)
    end.

(** ** Requests of the editor, completions and diagnostics *)

(** The entries of [request_data] that the completer reads. *)
Record request_data := {
  filepath : ustring;
  line_value : ustring;
  line_num : Z;
  start_codepoint : Z
}.

(** Modelled from the spec: [responses.BuildCompletionData] of
    [ycmd/responses.py] is not among the sources; the record holds the two
    arguments that [_LSPCompletionItemToCompletionData] passes, the display
    label and the kind tag of a completion item. *)
Record CompletionData := {
  insertion_text : json;
  kind : json
}.

(** Modelled from the spec: [responses.Location], [responses.Range] and
    [responses.Diagnostic] of [ycmd/responses.py] are not among the sources;
    the records hold the arguments that [_LspToYcmdDiagnostic] passes, in
    their order: a position is a line, a byte offset and a file, a range is
    two positions, and a diagnostic has its ranges, its position, its
    extent, its message and its kind. *)
Record Location := {
  line_number_ : json;
  column_number_ : Z;
  filename_ : ustring
}.

Record Range := {
  start_ : Location;
  end_ : Location
}.

Record Diagnostic := {
  ranges_ : list Range;
  location_ : Location;
  location_extent_ : Range;
  text_ : json;
  kind_ : ustring
}.

Fixpoint mapM {A B} (f : A -> result B) (l : list A) : result (list B) :=
  match l with
  | [] => Ok []
  | a :: r =>
    let* b := f a in
    let* bs := mapM f r in
    Ok (b :: bs)
  end.

(** [data.get( k, None )] on a dict. *)
Definition dict_get_default (v : json) (k : ustring) : result json :=
  match v with
  | JDict d => Ok (match dict_get k d with Some x => x | None => JNull end)
  | _ => Err (TypeError "object has no attribute 'get'")
  end.

Definition _LSPCompletionItemToCompletionData (data : json)
  : result CompletionData :=
  let* label := getitem data (u "label") in
  let* kind := dict_get_default data (u "kind") in
  Ok {| insertion_text := label; kind := kind |}.

(** The request that [ComputeCandidatesInner] passes to [_Invoke]. *)
Definition completion_params (rd : request_data) : json :=
  JDict [(u "textDocument", JDict [(u "uri", JStr (filepath rd))]);
         (u "position",
          JDict [(u "line", JInt (line_num rd - 1));
                 (u "character", JInt (start_codepoint rd))])].

(** [ComputeCandidatesInner] from the return of [_Invoke] on: [res] is
    what [_Invoke] returned. *)
Definition ComputeCandidatesInner_return (res : json)
  : result (list CompletionData) :=
  let* items := getitem res (u "result") in
  let* items := py_iter items in
  mapM _LSPCompletionItemToCompletionData items.

(** [GetDiagnosticsForCurrentFile] from the wait on [_has_diagnostics] to
    the end of the [with] block: the document that was in the slot, and
    the object with the slot emptied.  The wait has no timeout; [elapsed]
    is whether any given time has run out. *)
Definition take_diagnostics (self : ClangdCompleter) (elapsed : bool)
  : outcome ClangdCompleter json :=
  match Event_wait (_has_diagnostics self) None elapsed with
  | None => Blocked
  | Some _ =>
    let diagnostics := _diagnostics self in
    Returned diagnostics (set_diagnostics JNull false self)
  end.

Section Diagnostics.

(** [utils.CodepointOffsetToByteOffset( line_value, codepoint_offset )] of
    [ycmd/utils.py], which is not among the sources. *)
Variable CodepointOffsetToByteOffset : ustring -> json -> result Z.

Definition _LspToYcmdDiagnostic (filepath line_value : ustring)
    (lsp_diagnostic : json) : result Diagnostic :=
  let* range := getitem lsp_diagnostic (u "range") in
  let* lsp_range_start := getitem range (u "start") in
  let* range := getitem lsp_diagnostic (u "range") in
  let* lsp_range_end := getitem range (u "end") in
  let* character := getitem lsp_range_start (u "character") in
  let* start_offset := CodepointOffsetToByteOffset line_value character in
  let* character := getitem lsp_range_end (u "character") in
  let* end_offset := CodepointOffsetToByteOffset line_value character in
  let* line := getitem lsp_range_start (u "line") in
  let location_start :=
    {| line_number_ := line; column_number_ := start_offset;
       filename_ := filepath |} in
  let* line := getitem lsp_range_end (u "line") in
  let location_end :=
    {| line_number_ := line; column_number_ := end_offset;
       filename_ := filepath |} in
  let location_extent := {| start_ := location_start; end_ := location_end |} in
  let* message := getitem lsp_diagnostic (u "message") in
  Ok {| ranges_ := [location_extent]; location_ := location_start;
        location_extent_ := location_extent; text_ := message;
        kind_ := u "ERROR" |}.

(** The list comprehension at the end of [GetDiagnosticsForCurrentFile]. *)
Definition convert_diagnostics (rd : request_data) (diagnostics : json)
  : result (list Diagnostic) :=
  let* params := getitem diagnostics (u "params") in
  let* ds := getitem params (u "diagnostics") in
  let* ds := py_iter ds in
  mapM (_LspToYcmdDiagnostic (filepath rd) (line_value rd)) ds.

(** [GetDiagnosticsForCurrentFile]. *)
Definition GetDiagnosticsForCurrentFile (rd : request_data)
    (self : ClangdCompleter) (elapsed : bool)
  : outcome ClangdCompleter (list Diagnostic) :=
  match take_diagnostics self elapsed with
  | Blocked => Blocked
  | Raised e self => Raised e self
  | Returned diagnostics self =>
    match convert_diagnostics rd diagnostics with
    | Ok res => Returned res self
    | Err e => Raised e self
    end
  end.

End Diagnostics.

(** ** The system: callers, the reader thread and the server

    Several threads run [_Invoke]; each is at one of the points where it
    can be interleaved with the others.  The reader thread runs
    [_ReaderLoop]; the server process writes to the completer's read pipe
    and may close it.  A round of the reader loop is one step: only the
    reader consumes the pipe, and it changes the shared object only at the
    end of the round, under the locks.

    Limits.  A round of the reader reads from the stdout of the current
    server.  In the code a reader that is blocked inside a read when
    [_StartServer] runs again stays on the pipe of the previous server
    until that read returns; [step] hands it the new pipe at once.  The
    model is exact for runs in which the server is started once
    ([started_once] below), and after a restart for a reader that waits at
    the gate. *)

Inductive caller :=
| CBuilt (request : json)
| CRegistered (request : json) (deferred : nat)
| CWaiting (deferred : nat)
| CReturned (r : json)
| CRaised (e : exn).

Record system := {
  completer : ClangdCompleter;
  callers : list caller;
  (** [None] while the reader thread lives, else what ended it. *)
  reader_died : option exn
}.

Inductive label :=
| LInvoke (method params : json)
| LRegister (i : nat)
| LWrite (i : nat)
| LResult (i : nat) (elapsed : bool)
| LNotify (method params : json)
| LReader
| LTake (elapsed : bool)
| LServerWrite (b : bytes)
| LServerClose
| LStartServer.

Definition set_caller (i : nat) (c : caller) (self : ClangdCompleter)
    (σ : system) : system :=
  {| completer := self; callers := <[i := c]> (callers σ);
     reader_died := reader_died σ |}.

Definition set_completer (self : ClangdCompleter) (σ : system) : system :=
  {| completer := self; callers := callers σ; reader_died := reader_died σ |}.

(** One step of the system; [None] when the step cannot be taken in [σ]. *)
Definition step (l : label) (σ : system) : option system :=
  let self := completer σ in
  match l with
  | LInvoke method params =>
    let '(request, self) := _BuildRequest method params true self in
    Some {| completer := self; callers := callers σ ++ [CBuilt request];
            reader_died := reader_died σ |}
  | LRegister i =>
    match callers σ !! i with
    | Some (CBuilt request) =>
      match _SendRequest_register request self with
      | Ok (deferred, self) => Some (set_caller i (CRegistered request deferred) self σ)
      | Err e => Some (set_caller i (CRaised e) self σ)
      end
    | _ => None
    end
  | LWrite i =>
    match callers σ !! i with
    | Some (CRegistered request deferred) =>
      match _Write request self with
      | Ok self => Some (set_caller i (CWaiting deferred) self σ)
      | Err e => Some (set_caller i (CRaised e) self σ)
      end
    | _ => None
    end
  | LResult i elapsed =>
    match callers σ !! i with
    | Some (CWaiting deferred) =>
      match _SendRequest_result deferred self elapsed with
      | Blocked => None
      | Raised e _ => Some (set_caller i (CRaised e) self σ)
      | Returned r _ => Some (set_caller i (CReturned r) self σ)
      end
    | _ => None
    end
  | LNotify method params =>
    match _Notify method params self with
    | Ok self => Some (set_completer self σ)
    | Err _ => Some σ
    end
  | LReader =>
    match reader_died σ with
    | Some _ => None
    | None =>
      match _ReaderLoop_body self with
      | LoopBlocked => None
      | LoopContinue self => Some (set_completer self σ)
      | LoopDied e self =>
        Some {| completer := self; callers := callers σ;
                reader_died := Some e |}
      end
    end
  | LTake elapsed =>
    match take_diagnostics self elapsed with
    | Blocked => None
    | Raised _ self => Some (set_completer self σ)
    | Returned _ self => Some (set_completer self σ)
    end
  | LServerWrite b =>
    let out := _server_stdout self in
    if eof out then None
    else Some (set_completer
                 (set_stdout {| buf := buf out ++ b; eof := false |} self) σ)
  | LServerClose =>
    let out := _server_stdout self in
    Some (set_completer (set_stdout {| buf := buf out; eof := true |} self) σ)
  | LStartServer => Some (set_completer (_StartServer_spawn self) σ)
  end.

Fixpoint run (ls : list label) (σ : system) : option system :=
  match ls with
  | [] => Some σ
  | l :: ls' =>
    match step l σ with
    | Some σ' => run ls' σ'
    | None => None
    end
  end.

Definition init_system : system :=
  {| completer := init; callers := []; reader_died := None |}.

(** The message that a reader step decodes, if it decodes one. *)
Definition decoded_by (l : label) (σ : system) : option json :=
  match l, reader_died σ with
  | LReader, None =>
    if negb (_server_is_running (completer σ)) then None
    else
      match _Read (_server_stdout (completer σ)) with
      | Returned message _ => Some message
      | _ => None
      end
  | _, _ => None
  end.

(** The key under which the reader loop looks up a decoded message that
    has an ['id']. *)
Definition reply_id (message : json) : option pykey :=
  match py_in (u "id") message with
  | Ok true =>
    match (let* id := getitem message (u "id") in hash_key id) with
    | Ok sequenceid => Some sequenceid
    | Err _ => None
    end
  | _ => None
  end.

(** The id and the deferred that the dispatch of [message] resolves. *)
Definition resolves (message : json) (self : ClangdCompleter)
  : option (pykey * nat) :=
  match reply_id message with
  | Some sequenceid =>
    match _pending self !! sequenceid with
    | Some deferred => Some (sequenceid, deferred)
    | None => None
    end
  | None => None
  end.

(** The bytes of the frame that carries [m]; the server frames its
    messages as the client does. *)
Definition frame_of (m : json) : bytes :=
  match request_serialized m with
  | Ok b => b
  | Err _ => []
  end.

(** Is [message] a notification that the reader loop puts into the
    diagnostics slot? *)
Definition is_publish (message : json) : bool :=
  match py_in (u "id") message, getitem message (u "method") with
  | Ok false, Ok method => is_str PUBLISH_DIAGNOSTICS method
  | _, _ => false
  end.

(** What a step resolves. *)
Definition resolved_by (l : label) (σ : system) : list (pykey * nat) :=
  match decoded_by l σ with
  | Some message =>
    match resolves message (completer σ) with
    | Some kd => [kd]
    | None => []
    end
  | None => []
  end.

(** The resolutions along a run, in order. *)
Fixpoint resolved_trace (ls : list label) (σ : system) : list (pykey * nat) :=
  match ls with
  | [] => []
  | l :: ls' =>
    match step l σ with
    | Some σ' => resolved_by l σ ++ resolved_trace ls' σ'
    | None => []
    end
  end.

(** A step that neither takes the diagnostics nor publishes new ones. *)
Definition slot_quiet (l : label) (σ : system) : bool :=
  match l with
  | LTake _ => false
  | _ =>
    match decoded_by l σ with
    | Some message => negb (is_publish message)
    | None => true
    end
  end.

Fixpoint run_quiet (ls : list label) (σ : system) : bool :=
  match ls with
  | [] => true
  | l :: ls' =>
    match step l σ with
    | Some σ' => slot_quiet l σ && run_quiet ls' σ'
    | None => false
    end
  end.

(** ** The rest of the module: enabling, editor events, handshake *)

Inductive log_level := WARNING | INFO.

(** [ShouldEnableClangdCompleter], as a function of what it reads:
    [ycm_core.HasClangSupport()] and the module constant [PATH_TO_CLANGD]
    ([None] or the path found).  The result comes with the records
    written to [_logger]. *)
Definition ShouldEnableClangdCompleter (HasClangSupport : bool)
    (PATH_TO_CLANGD : option string) : bool * list (log_level * string) :=
  if HasClangSupport then (false, [])
  else
    match PATH_TO_CLANGD with
    | None | Some EmptyString =>
      (false,
       [(WARNING, "Not using clangd: unable to find clangd binary"%string)])
    | Some path =>
      (true, [(INFO, String.append "Using clangd from "%string path)])
    end.

(** The module constant [CLANG_FILETYPES], a set; its elements are listed
    here in the order of the source. *)
Definition CLANG_FILETYPES : list ustring :=
  [u "c"; u "cpp"; u "objc"; u "objcpp"].

(** [SupportedFiletypes]. *)
Definition SupportedFiletypes (self : ClangdCompleter) : list ustring :=
  CLANG_FILETYPES.

(** The [params] that [OnBufferVisit] and [OnFileReadyToParse] pass to
    [_Notify]. *)
Definition didOpen_params (filename contents : json) : json :=
  JDict [(u "textDocument",
          JDict [(u "uri", filename); (u "languageId", JStr (u "cpp"));
                 (u "version", JInt 1); (u "text", contents)])].

(** [OnBufferVisit]; [file_data] is [request_data[ 'file_data' ]]. *)
Definition OnBufferVisit (rd : request_data) (file_data : json)
    (self : ClangdCompleter) : result ClangdCompleter :=
  let filename := filepath rd in
  let* entry := getitem file_data filename in
  let* contents := getitem entry (u "contents") in
  _Notify (JStr (u "textDocument/didOpen"))
    (didOpen_params (JStr filename) contents) self.

(** [OnFileReadyToParse] up to its [return] statement: the notification is
    written, as in [OnBufferVisit].  The [return] statement then calls
    [GetDiagnosticsForCurrentFile], whose wait on [_has_diagnostics] lets
    the other threads run: it works on the object as it is when the wait
    ends, not on the result of this function. *)
Definition OnFileReadyToParse_notify (rd : request_data) (file_data : json)
    (self : ClangdCompleter) : result ClangdCompleter :=
  let filename := filepath rd in
  let* entry := getitem file_data filename in
  let* contents := getitem entry (u "contents") in
  _Notify (JStr (u "textDocument/didOpen"))
    (didOpen_params (JStr filename) contents) self.

(** [ComputeCandidatesInner] to the point where its [_Invoke] waits. *)
Definition ComputeCandidatesInner_send (rd : request_data)
    (self : ClangdCompleter) : result (nat * ClangdCompleter) :=
  _Invoke_send (JStr (u "textDocument/completion")) (completion_params rd) self.

(** [_StartServer] to the point where its [_Invoke] waits.  (A failure of
    [subprocess.Popen] is not modelled.) *)
Definition _StartServer_send (capabilities : json) (self : ClangdCompleter)
  : result (nat * ClangdCompleter) :=
  _Invoke_send (JStr (u "initialize"))
    (JDict [(u "capabilities", capabilities)]) (_StartServer_spawn self).

(** * Vocabulary of the properties

    Predicates, measures and sample inputs that the statements below use. *)

(** Text or bytes below 128: such a string and its UTF-8 encoding are the
    same list. *)
Definition is_ascii (s : list N) : Prop := Forall (fun c => c < 128) s.

(** The input after a number does not go on with a digit. *)
Definition no_digit_ahead (rest : ustring) : Prop :=
  match rest with
  | c :: _ => is_digit c = false
  | [] => True
  end.

(** A Unicode scalar value: a code point that is not a surrogate. *)
Definition is_scalar (c : N) : bool := (c <? 0x110000) && negb (is_surrogate c).

(** A string of Unicode scalar values. *)
Definition valid_str (s : ustring) : bool := forallb is_scalar s.

(** The values for which the round trip is claimed: strings and keys are
    sequences of Unicode scalar values, and a dict has each key once (as
    every Python dict does). *)
Fixpoint valid_json (v : json) : bool :=
  match v with
  | JStr s => valid_str s
  | JList l => forallb valid_json l
  | JDict d =>
    bool_decide (NoDup (List.map fst d))
    && forallb (fun kv => valid_str (fst kv) && valid_json (snd kv)) d
  | _ => true
  end.

(** A message is a mapping. *)
Definition valid_message (m : json) : bool :=
  match m with
  | JDict _ => valid_json m
  | _ => false
  end.

(** Fuel that [scan_once] needs for the text of [v]. *)
Fixpoint need (v : json) : nat :=
  match v with
  | JList l => S (Nat.max (length l) (list_max (List.map need l)))
  | JDict d =>
    S (Nat.max (length d) (list_max (List.map (fun kv => need (snd kv)) d)))
  | _ => 1
  end.

(** What may follow a value inside the text of a value. *)
Definition delim (rest : ustring) : Prop :=
  match rest with
  | [] => True
  | c :: _ => c = 44 \/ c = 93 \/ c = 125
  end.

(** The input starts with the first character of a value's text: ASCII,
    not white space and not a closing bracket. *)
Definition starts_value (s : ustring) : Prop :=
  exists c r, s = c :: r /\ is_json_ws c = false /\ c <> 93 /\ c <> 125
              /\ c < 128.

(** The text of one [key:value] pair. *)
Definition dumps_item (kv : ustring * json) : ustring :=
  encode_basestring_ascii (fst kv) ++ 58 :: json_dumps (snd kv).

(** The input starts with a character that [strip] keeps. *)
Definition starts_solid (sp : N -> bool) (s : list N) : Prop :=
  exists c r, s = c :: r /\ sp c = false.

(** The header line of a frame whose body has [n] bytes. *)
Definition header_line (n : nat) : ustring :=
  u "Content-Length: " ++ repr_int (Z.of_nat n).

(** A message with an accented letter, a character outside the basic
    plane, a control character and nested containers. *)
Definition sample_message : json :=
  JDict [(u "jsonrpc", JStr (u "2.0")); (u "id", JInt 7);
         (u "method", JStr (u "textDocument/didOpen"));
         (u "params",
          JDict [(u "text", JStr [233; 0x1F600; 10; 34]);
                 (u "items", JList [JNull; JBool true; JInt (-12); JList []])])].

(** The state that a run reaches, for runs that can be taken. *)
Definition after (ls : list label) (σ : system) : system :=
  match run ls σ with
  | Some σ' => σ'
  | None => σ
  end.

(** A server output that is not a frame: a header block that lacks
    [Content-Length]. *)
Definition malformed_output : bytes :=
  u "Foo: bar" ++ CRLF ++ CRLF ++ u "{}".

(** The server has sent it. *)
Definition malformed_system : system :=
  after [LServerWrite malformed_output] init_system.

(** A caller that has sent the handshake and waits for the reply. *)
Definition invoke_labels : list label :=
  [LInvoke (JStr (u "initialize")) (JDict [(u "capabilities", JDict [])]);
   LRegister 0; LWrite 0].

Definition waiting_system : system := after invoke_labels init_system.

(** The reply to the handshake, and an error reply to it. *)
Definition late_reply : json :=
  JDict [(u "jsonrpc", JStr (u "2.0")); (u "id", JInt 0);
         (u "result", JDict [(u "capabilities", JDict [])])].

Definition error_reply : json :=
  JDict [(u "jsonrpc", JStr (u "2.0")); (u "id", JInt 0);
         (u "error",
          JDict [(u "code", JInt (-32601));
                 (u "message", JStr (u "method not found"))])].

(** A converter for the examples: the byte offset of a code point offset
    in a line of ASCII text. *)
Definition ascii_offset (line : ustring) (offset : json) : result Z :=
  match offset with
  | JInt z => Ok z
  | _ => Err (TypeError "an integer is required")
  end.

(** The request of the completion test: line 7, column 5 of [test.cpp]. *)
Definition sample_request_data : request_data :=
  {| filepath := u "test.cpp"; line_value := u "int x"; line_num := 7;
     start_codepoint := 4 |}.

(** An LSP diagnostic with a [severity], and a notification that
    publishes some. *)
Definition lsp_diagnostic (severity : Z) (text : string) : json :=
  JDict [(u "range",
          JDict [(u "start", JDict [(u "line", JInt 0); (u "character", JInt 1)]);
                 (u "end", JDict [(u "line", JInt 0); (u "character", JInt 3)])]);
         (u "severity", JInt severity);
         (u "message", JStr (u text))].

Definition publish_message (ds : list json) : json :=
  JDict [(u "jsonrpc", JStr (u "2.0"));
         (u "method", JStr PUBLISH_DIAGNOSTICS);
         (u "params",
          JDict [(u "uri", JStr (u "test.cpp")); (u "diagnostics", JList ds)])].

Definition first_publish : json := publish_message [lsp_diagnostic 1 "first"].
Definition second_publish : json :=
  publish_message [lsp_diagnostic 2 "unused variable"; lsp_diagnostic 3 "note"].

(** The server has sent two diagnostics notifications. *)
Definition published_system : system :=
  after [LServerWrite (frame_of first_publish ++ frame_of second_publish)]
    init_system.

(** Two objects with the same pending table, heap and counter. *)
Definition core_eq (a b : ClangdCompleter) : Prop :=
  _pending a = _pending b /\ heap a = heap b /\ _sequenceid a = _sequenceid b.

(** The invariant of the pending table; [R] lists the resolutions so far.
    - Every pending id was issued by the sequence counter and its deferred
      is not resolved yet, and no deferred is pending under two ids.
    - A caller that has built its request and not yet registered it holds
      an id that is neither pending nor resolved, and that no other such
      caller holds.
    - A resolved id is not pending, its deferred is resolved and is not in
      the table, and no id and no deferred was resolved twice. *)
Record pending_inv (σ : system) (R : list (pykey * nat)) : Prop := {
  inv_pending : forall k d,
    _pending (completer σ) !! k = Some d ->
    (exists z, k = KInt z /\ (z < _sequenceid (completer σ))%Z)
    /\ exists dr, heap (completer σ) !! d = Some dr /\ _event dr = false;
  inv_inj : forall k1 k2 d,
    _pending (completer σ) !! k1 = Some d ->
    _pending (completer σ) !! k2 = Some d -> k1 = k2;
  inv_built : forall i request,
    callers σ !! i = Some (CBuilt request) ->
    exists z, getitem request (u "id") = Ok (JInt z)
              /\ (z < _sequenceid (completer σ))%Z
              /\ _pending (completer σ) !! KInt z = None
              /\ ~ In (KInt z) (List.map fst R);
  inv_built_distinct : forall i j ri rj z,
    callers σ !! i = Some (CBuilt ri) -> callers σ !! j = Some (CBuilt rj) ->
    getitem ri (u "id") = Ok (JInt z) -> getitem rj (u "id") = Ok (JInt z) ->
    i = j;
  inv_resolved : forall k d,
    In (k, d) R ->
    _pending (completer σ) !! k = None
    /\ (forall k', _pending (completer σ) !! k' <> Some d)
    /\ (exists dr, heap (completer σ) !! d = Some dr /\ _event dr = true)
    /\ exists z, k = KInt z /\ (z < _sequenceid (completer σ))%Z;
  inv_nodup_ids : NoDup (List.map fst R);
  inv_nodup_waiters : NoDup (List.map snd R)
}.

(** Two callers, registered in the opposite order; the replies arrive for
    id 1, then for id 0, then once more for id 1. *)
Definition two_invokes : list label :=
  [LInvoke (JStr (u "initialize")) (JDict [(u "capabilities", JDict [])]);
   LInvoke (JStr (u "textDocument/completion"))
     (completion_params sample_request_data);
   LRegister 1; LRegister 0; LWrite 0; LWrite 1;
   LServerWrite
     (frame_of (JDict [(u "id", JInt 1); (u "result", JList [])])
      ++ frame_of late_reply
      ++ frame_of (JDict [(u "id", JInt 1); (u "result", JNull)]));
   LReader; LReader; LReader; LResult 0 false; LResult 1 false].

(** A scanner that returns a strictly shorter input. *)
Definition consumes (scan : ustring -> option (json * ustring)) : Prop :=
  forall t v r, scan t = Some (v, r) -> (length r < length t)%nat.

(** Does the reader thread survive the dispatch of the decoded message
    [m]?  It does when [m] is a dict with a hashable ['id'], or with no
    ['id'] and a ['method']. *)
Definition survivable (m : json) : bool :=
  match m with
  | JDict d =>
    match dict_get (u "id") d with
    | Some (JList _) | Some (JDict _) => false
    | Some _ => true
    | None =>
      match dict_get (u "method") d with
      | Some _ => true
      | None => false
      end
    end
  | _ => false
  end.

(** The deferred [d] is the waiter of id [k]: it is pending under [k] and
    unresolved, or it has left the table resolved with a reply for [k]. *)
Definition owns (self : ClangdCompleter) (k : pykey) (d : nat) : Prop :=
  (_pending self !! k = Some d
   /\ exists dr, heap self !! d = Some dr /\ _event dr = false)
  \/ (_pending self !! k = None
      /\ exists m dr, heap self !! d = Some (resolve m dr)
                      /\ reply_id m = Some k).

(** What holds of the [i]-th caller of [_Invoke], at each of its points. *)
Definition caller_ok (self : ClangdCompleter) (i : nat) (c : caller) : Prop :=
  let k := KInt (Z.of_nat i) in
  match c with
  | CBuilt rq => getitem rq (u "id") = Ok (JInt (Z.of_nat i))
  | CRegistered rq d =>
    getitem rq (u "id") = Ok (JInt (Z.of_nat i)) /\ owns self k d
  | CWaiting d => owns self k d
  | CReturned m => reply_id m = Some k
  | CRaised _ => True
  end.

Record callers_inv (σ : system) : Prop := {
  ci_sequenceid :
    _sequenceid (completer σ) = Z.of_nat (length (callers σ));
  ci_callers : forall i c,
    callers σ !! i = Some c -> caller_ok (completer σ) i c
}.

(** The number of [_Invoke] calls that a run starts. *)
Fixpoint invokes (ls : list label) : nat :=
  match ls with
  | [] => 0%nat
  | LInvoke _ _ :: ls' => S (invokes ls')
  | _ :: ls' => invokes ls'
  end.

(** The number that a string of decimal digits denotes, read as
    positional notation from the left. *)
Definition decimal_value (ds : list N) : N :=
  List.fold_left (fun acc c => 10 * acc + (c - 48)) ds 0.

(** [self'] is [self] after [frame] was written to the server's stdin:
    the bytes are appended there and nothing else has changed. *)
Definition wrote (frame : bytes) (self self' : ClangdCompleter) : Prop :=
  _server_stdin self' = _server_stdin self ++ frame
  /\ _server_stdout self' = _server_stdout self
  /\ _server_is_running self' = _server_is_running self
  /\ _sequenceid self' = _sequenceid self
  /\ _pending self' = _pending self
  /\ _diagnostics self' = _diagnostics self
  /\ _has_diagnostics self' = _has_diagnostics self
  /\ heap self' = heap self
  /\ _logger self' = _logger self.

(** Two objects that differ at most in the running flag. *)
Definition same_but_gate (s1 s2 : ClangdCompleter) : Prop :=
  _server_stdin s1 = _server_stdin s2
  /\ _server_stdout s1 = _server_stdout s2
  /\ _sequenceid s1 = _sequenceid s2
  /\ _pending s1 = _pending s2
  /\ _diagnostics s1 = _diagnostics s2
  /\ _has_diagnostics s1 = _has_diagnostics s2
  /\ heap s1 = heap s2
  /\ _logger s1 = _logger s2.

(** A run in which the server is not started again: the reader thread
    reads from the pipe of the one server there is. *)
Definition is_restart (l : label) : bool :=
  match l with
  | LStartServer => true
  | _ => false
  end.

Definition started_once (ls : list label) : bool :=
  forallb (fun l => negb (is_restart l)) ls.

(** Sample runs, states and messages of the further properties. *)

(** Two calls started, neither registered yet. *)
Definition two_built : list label :=
  [LInvoke (JStr (u "initialize")) (JDict [(u "capabilities", JDict [])]);
   LNotify (JStr (u "textDocument/didOpen")) JNull;
   LStartServer;
   LInvoke (JStr (u "textDocument/completion"))
     (completion_params sample_request_data)].

(** The reply to caller 1 has arrived; later the same id is answered
    again and other requests come and go. *)
Definition first_reply_read : list label :=
  firstn 8 two_invokes.

(** The server has sent a JSON array where a message is expected. *)
Definition array_sent : system :=
  after [LServerWrite (frame_of (JList []))] init_system.

(** A reply with two completion items; the second has no kind. *)
Definition completion_reply : json :=
  JDict [(u "jsonrpc", JStr (u "2.0")); (u "id", JInt 1);
         (u "result",
          JList [JDict [(u "label", JStr (u "push_back")); (u "kind", JInt 2)];
                 JDict [(u "label", JStr (u "pop_back"))]])].

(** Two items; the second has a ['detail'] but no ['label']. *)
Definition unlabelled_items : list (list (ustring * json)) :=
  [[(u "label", JStr (u "push_back"))]; [(u "detail", JStr (u "void"))]].

(** The slot holds a document for another file, with a diagnostic on LSP
    line 41. *)
Definition foreign_document : json :=
  JDict [(u "jsonrpc", JStr (u "2.0"));
         (u "method", JStr PUBLISH_DIAGNOSTICS);
         (u "params",
          JDict [(u "uri", JStr (u "other.h"));
                 (u "diagnostics",
                  JList [JDict [(u "range",
                                 JDict [(u "start",
                                         JDict [(u "line", JInt 41);
                                                (u "character", JInt 2)]);
                                        (u "end",
                                         JDict [(u "line", JInt 42);
                                                (u "character", JInt 0)])]);
                                (u "message", JStr (u "expected ';'"))]])])].

(** The [file_data] of a request for a C file. *)
Definition sample_file_entry : json :=
  JDict [(u "contents", JStr (u "int x")); (u "filetypes", JList [JStr (u "c")])].

Definition sample_file_data : json := JDict [(u "test.cpp", sample_file_entry)].

(** A request of the server to the client; its id is the server's own. *)
Definition server_request : json :=
  JDict [(u "jsonrpc", JStr (u "2.0")); (u "id", JInt 7);
         (u "method", JStr (u "workspace/configuration"))].

(** * Properties *)

(** ** The codec on small inputs *)

Example json_dumps_compact :
  json_dumps (JList [JInt 1; JNull; JBool true; JInt (-20); JList []])
  = u "[1,null,true,-20,[]]".
Proof. reflexivity. Qed.

(** A character outside ASCII is written as an escape: six ASCII
    characters for one of the basic plane, twelve for one above it. *)
Example json_dumps_escapes :
  json_dumps (JStr [233]) = c_quote :: u "\u00e9" ++ [c_quote]
  /\ json_dumps (JStr [0x1F600]) = c_quote :: u "\ud83d\ude00" ++ [c_quote].
Proof. split; reflexivity. Qed.

Example json_loads_whitespace_and_repeated_key :
  json_loads (u " { " ++ encode_basestring_ascii (u "a") ++ u " : [1, 2 ,3 ] , "
              ++ encode_basestring_ascii (u "a") ++ u ":-0 } ")
  = Ok (JDict [(u "a", JInt 0)]).
Proof. vm_compute. reflexivity. Qed.

Example json_loads_extra_data :
  json_loads (u "[1] 2") = Err (ValueError "Extra data").
Proof. vm_compute. reflexivity. Qed.

(** Why the round trip asks for Unicode scalar values: two surrogate code
    points that form a pair are read back as one character. *)
Example json_loads_joins_surrogates :
  json_loads (json_dumps (JStr [0xD83D; 0xDE00])) = Ok (JStr [0x1F600]).
Proof. vm_compute. reflexivity. Qed.

Example request_serialized_notification :
  request_serialized (fst (_BuildRequest (JStr (u "x")) JNull false init))
  = Ok (u "Content-Length: 30" ++ CRLF ++ CRLF
        ++ json_dumps (JDict [(u "jsonrpc", JStr (u "2.0"));
                              (u "method", JStr (u "x"))])).
Proof. vm_compute. reflexivity. Qed.

Example _Read_missing_content_length :
  _Read {| buf := malformed_output; eof := false |}
  = Raised (RuntimeError "Missing 'Content-Length' header")
      {| buf := u "{}"; eof := false |}.
Proof. vm_compute. reflexivity. Qed.

Example _Read_closed_stream :
  _Read {| buf := []; eof := true |}
  = Raised (RuntimeError "Missing 'Content-Length' header")
      {| buf := []; eof := true |}.
Proof. reflexivity. Qed.

Example _Read_waits_for_the_body :
  _Read {| buf := u "Content-Length: 2" ++ CRLF ++ CRLF ++ u "{"; eof := false |}
  = Blocked.
Proof. vm_compute. reflexivity. Qed.

(** ** Induction on JSON values *)

Section JsonInd.
Variable P : json -> Prop.
Hypothesis Hnull : P JNull.
Hypothesis Hbool : forall b, P (JBool b).
Hypothesis Hint : forall z, P (JInt z).
Hypothesis Hstr : forall s, P (JStr s).
Hypothesis Hlist : forall l, Forall P l -> P (JList l).
Hypothesis Hdict : forall d, Forall (fun kv => P (snd kv)) d -> P (JDict d).

Fixpoint json_induction (v : json) : P v :=
  match v with
  | JNull => Hnull
  | JBool b => Hbool b
  | JInt z => Hint z
  | JStr s => Hstr s
  | JList l =>
    Hlist l
      ((fix go (l : list json) : Forall P l :=
          match l with
          | [] => @List.Forall_nil _ P
          | x :: r => @List.Forall_cons _ P x r (json_induction x) (go r)
          end) l)
  | JDict d =>
    Hdict d
      ((fix go (d : list (ustring * json)) : Forall (fun kv => P (snd kv)) d :=
          match d with
          | [] => @List.Forall_nil _ _
          | kv :: r => @List.Forall_cons _ _ kv r (json_induction (snd kv)) (go r)
          end) d)
  end.
End JsonInd.

(** ** The encoder writes ASCII only *)

Lemma is_ascii_app s t : is_ascii s -> is_ascii t -> is_ascii (s ++ t).
Proof. apply Forall_app_2. Qed.

Lemma utf8_encode_ascii s : is_ascii s -> utf8_encode s = Some s.
Proof.
  induction 1 as [|c r Hc _ IH]; [reflexivity|].
  cbn [utf8_encode]. unfold utf8_encode_char.
  apply N.ltb_lt in Hc. rewrite Hc, IH. reflexivity.
Qed.

Lemma ToBytes_ascii s : is_ascii s -> ToBytes s = Ok s.
Proof. intros H. unfold ToBytes. now rewrite utf8_encode_ascii. Qed.

Lemma uint_chars_ascii d : is_ascii (uint_chars d).
Proof. induction d; cbn; constructor; (lia || assumption). Qed.

Lemma repr_int_ascii z : is_ascii (repr_int z).
Proof.
  unfold repr_int, repr_N. destruct z; try apply uint_chars_ascii.
  constructor; [lia | apply uint_chars_ascii].
Qed.

Lemma hexdigit_ascii n : n < 16 -> hexdigit n < 128.
Proof. unfold hexdigit. destruct (n <? 10); lia. Qed.

Lemma land_15_lt n : N.land n 15 < 16.
Proof.
  change 15 with (N.ones 4). rewrite N.land_ones. apply N.mod_lt. discriminate.
Qed.

Lemma u_escape_ascii n : is_ascii (u_escape n).
Proof.
  unfold u_escape.
  repeat (constructor; [first [lia | apply hexdigit_ascii, land_15_lt]|]).
  constructor.
Qed.

Lemma escape_char_ascii c : is_ascii (escape_char c).
Proof.
  unfold escape_char.
  repeat match goal with
  | |- context [if ?b then _ else _] => destruct b eqn:?
  end;
  try (repeat constructor; lia);
  try apply u_escape_ascii.
  - constructor; [|constructor].
    apply andb_true_iff in Heqb6 as [_ H]. apply N.leb_le in H. lia.
  - apply is_ascii_app; apply u_escape_ascii.
Qed.

Lemma encode_basestring_ascii_ascii s : is_ascii (encode_basestring_ascii s).
Proof.
  unfold encode_basestring_ascii. constructor; [lia|].
  apply is_ascii_app; [|repeat constructor; lia].
  induction s as [|c r IH]; cbn; [constructor|].
  apply is_ascii_app; [apply escape_char_ascii | exact IH].
Qed.

Lemma join_ascii sep parts :
  is_ascii sep -> Forall is_ascii parts -> is_ascii (join sep parts).
Proof.
  intros Hsep. induction 1 as [|p r Hp Hr IH]; [constructor|].
  cbn [join]. destruct r as [|q r']; [exact Hp|].
  apply is_ascii_app; [exact Hp|]. apply is_ascii_app; [exact Hsep | exact IH].
Qed.

Lemma json_dumps_ascii v : is_ascii (json_dumps v).
Proof.
  induction v as [| [] | z | s | l IH | d IH] using json_induction;
    cbn [json_dumps].
  - repeat constructor; lia.
  - vm_compute. repeat constructor.
  - vm_compute. repeat constructor.
  - apply repr_int_ascii.
  - apply encode_basestring_ascii_ascii.
  - constructor; [lia|]. apply is_ascii_app; [|repeat constructor; lia].
    apply join_ascii; [repeat constructor; lia|].
    apply Forall_map. exact IH.
  - constructor; [lia|]. apply is_ascii_app; [|repeat constructor; lia].
    apply join_ascii; [repeat constructor; lia|].
    apply Forall_map. eapply Forall_impl; [exact IH|].
    intros [k v] Hv. cbn [fst snd] in *. apply is_ascii_app.
    + apply encode_basestring_ascii_ascii.
    + constructor; [lia | exact Hv].
Qed.

(** ** Decimal numbers are read back *)

Lemma span_digits_uint_chars d rest :
  no_digit_ahead rest -> span_digits (uint_chars d ++ rest) = (d, rest).
Proof.
  intros Hrest. induction d; cbn [uint_chars app];
    try (cbn [span_digits]; change (is_digit _) with true; cbn iota;
         rewrite IHd; reflexivity).
  destruct rest as [|c r]; [reflexivity|].
  cbn in *. now rewrite Hrest.
Qed.

Lemma span_digits_uint_chars_nil d : span_digits (uint_chars d) = (d, []).
Proof.
  pose proof (span_digits_uint_chars d [] I) as H.
  now rewrite List.app_nil_r in H.
Qed.

Lemma pos_to_uint_head p :
  exists c d, Pos.to_uint p = digit_cons c d /\ is_digit c = true /\ c <> 48
              /\ uint_chars (Pos.to_uint p) = c :: uint_chars d.
Proof.
  assert (Hnorm : Decimal.unorm (Pos.to_uint p) = Pos.to_uint p).
  { rewrite <- (DecimalPos.Unsigned.to_of (Pos.to_uint p)).
    now rewrite DecimalPos.Unsigned.of_to. }
  pose proof (DecimalPos.Unsigned.to_uint_nonnil p) as Hnil.
  pose proof (DecimalPos.Unsigned.to_uint_nonzero p) as Hzero.
  revert Hnorm Hnil Hzero.
  destruct (Pos.to_uint p) as [|d|d|d|d|d|d|d|d|d|d];
    intros Hnorm Hnil Hzero; try congruence.
  - exfalso. unfold Decimal.unorm in Hnorm. cbn [Decimal.nzhead] in Hnorm.
    destruct (Decimal.nzhead d) eqn:En; try congruence.
    exact (DecimalFacts.nzhead_nonzero _ _ En).
  - exists 49, d. repeat split; discriminate.
  - exists 50, d. repeat split; discriminate.
  - exists 51, d. repeat split; discriminate.
  - exists 52, d. repeat split; discriminate.
  - exists 53, d. repeat split; discriminate.
  - exists 54, d. repeat split; discriminate.
  - exists 55, d. repeat split; discriminate.
  - exists 56, d. repeat split; discriminate.
  - exists 57, d. repeat split; discriminate.
Qed.

Lemma digit_not_sign c : is_digit c = true -> (c =? 45) = false /\ (c =? 43) = false.
Proof.
  unfold is_digit. intros H. apply andb_true_iff in H as [H1 H2].
  apply N.leb_le in H1. split; apply N.eqb_neq; lia.
Qed.

Lemma match_number_repr_int z rest :
  no_digit_ahead rest -> starts_float rest = false ->
  match_number (repr_int z ++ rest) = Some (JInt z, rest).
Proof.
  intros Hd Hf. destruct z as [|p|p].
  - cbn. unfold finish_number. now rewrite Hf.
  - unfold repr_int, repr_N. cbn [Z.to_N N.to_uint].
    destruct (pos_to_uint_head p) as (c & d & E & Hc & Hc0 & Hs).
    rewrite Hs. cbn [app]. unfold match_number.
    destruct (digit_not_sign c Hc) as [-> _].
    apply N.eqb_neq in Hc0. rewrite Hc0, Hc.
    rewrite span_digits_uint_chars by assumption.
    unfold finish_number. rewrite Hf, <- E.
    change (N.of_uint (Pos.to_uint p)) with (Pos.of_uint (Pos.to_uint p)).
    rewrite DecimalPos.Unsigned.of_to. reflexivity.
  - unfold repr_int, repr_N. cbn [N.to_uint].
    destruct (pos_to_uint_head p) as (c & d & E & Hc & Hc0 & Hs).
    rewrite Hs. cbn [app]. unfold match_number. cbn [N.eqb Pos.eqb].
    apply N.eqb_neq in Hc0. rewrite Hc0, Hc.
    rewrite span_digits_uint_chars by assumption.
    unfold finish_number. rewrite Hf, <- E.
    change (N.of_uint (Pos.to_uint p)) with (Pos.of_uint (Pos.to_uint p)).
    rewrite DecimalPos.Unsigned.of_to. reflexivity.
Qed.

Lemma py_int_repr_nat (n : nat) : py_int (repr_int (Z.of_nat n)) = Ok (Z.of_nat n).
Proof.
  destruct (Z.of_nat n) as [|p|p] eqn:E; [reflexivity| |lia].
  unfold repr_int, repr_N. cbn [Z.to_N N.to_uint].
  destruct (pos_to_uint_head p) as (c & d & Ed & Hc & Hc0 & Hs).
  rewrite Hs. unfold py_int.
  destruct (digit_not_sign c Hc) as [-> ->].
  rewrite <- Hs, span_digits_uint_chars_nil.
  change (N.of_uint (Pos.to_uint p)) with (Pos.of_uint (Pos.to_uint p)).
  rewrite DecimalPos.Unsigned.of_to. reflexivity.
Qed.

(** ** Hexadecimal escapes are read back *)

Lemma hexval_hexdigit k : k < 16 -> hexval (hexdigit k) = Some k.
Proof.
  intros Hk. unfold hexdigit, hexval.
  destruct (N.ltb_spec k 10) as [H|H].
  - replace ((48 <=? 48 + k) && (48 + k <=? 57)) with true.
    + f_equal. lia.
    + symmetry. apply andb_true_iff. split; apply N.leb_le; lia.
  - replace ((48 <=? 87 + k) && (87 + k <=? 57)) with false.
    + replace ((97 <=? 87 + k) && (87 + k <=? 102)) with true.
      * f_equal. lia.
      * symmetry. apply andb_true_iff. split; apply N.leb_le; lia.
    + symmetry. apply andb_false_iff. right. apply N.leb_gt. lia.
Qed.

Lemma split_low a k :
  N.lor (N.shiftl (N.shiftr a k) k) (N.land a (N.ones k)) = a.
Proof. rewrite <- N.ldiff_ones_r. apply N.lor_ldiff_and. Qed.

Lemma land_ones_small a k : a < 2 ^ k -> N.land a (N.ones k) = a.
Proof. intros H. rewrite N.land_ones. now apply N.mod_small. Qed.

Lemma shiftr_small a j k : a < 2 ^ (j + k) -> N.shiftr a j < 2 ^ k.
Proof.
  intros H. rewrite N.shiftr_div_pow2.
  apply N.Div0.div_lt_upper_bound. now rewrite <- N.pow_add_r.
Qed.

Lemma nibbles n :
  n < 0x10000 ->
  N.lor (N.shiftl (N.land (N.shiftr n 12) 15) 12)
    (N.lor (N.shiftl (N.land (N.shiftr n 8) 15) 8)
       (N.lor (N.shiftl (N.land (N.shiftr n 4) 15) 4) (N.land n 15))) = n.
Proof.
  intros Hn. change 15 with (N.ones 4).
  rewrite (land_ones_small (N.shiftr n 12)) by (apply shiftr_small; exact Hn).
  pose proof (split_low n 4) as H0.
  pose proof (split_low (N.shiftr n 4) 4) as H4.
  pose proof (split_low (N.shiftr n 8) 4) as H8.
  rewrite !N.shiftr_shiftr in H4, H8.
  change (4 + 4) with 8 in H4, H8. change (8 + 4) with 12 in H8.
  remember (N.land (N.shiftr n 8) (N.ones 4)) as B.
  remember (N.land (N.shiftr n 4) (N.ones 4)) as C.
  remember (N.land n (N.ones 4)) as D.
  rewrite <- H8 in H4. rewrite <- H4 in H0.
  rewrite !N.shiftl_lor, !N.shiftl_shiftl in H0.
  change (4 + 4) with 8 in H0. change (8 + 4) with 12 in H0.
  now rewrite <- !N.lor_assoc in H0.
Qed.

Lemma hex4_u_escape n rest :
  n < 0x10000 ->
  exists h1 h2 h3 h4,
    u_escape n ++ rest = c_backslash :: 117 :: h1 :: h2 :: h3 :: h4 :: rest
    /\ hex4 h1 h2 h3 h4 = Some n.
Proof.
  intros Hn. unfold u_escape. do 4 eexists. split; [reflexivity|].
  unfold hex4. rewrite !hexval_hexdigit by apply land_15_lt.
  f_equal. now apply nibbles.
Qed.

Lemma lor_disjoint_add a b : N.land a b = 0 -> N.lor a b = a + b.
Proof.
  intros H. rewrite <- N.lxor_lor by exact H.
  symmetry. now apply N.add_nocarry_lxor.
Qed.

Lemma surrogate_tag t x :
  N.land t 0x3FF = 0 ->
  N.lor t (N.land x 0x3FF) = t + N.land x 0x3FF
  /\ N.land (N.lor t (N.land x 0x3FF)) 0x3FF = N.land x 0x3FF
  /\ N.land x 0x3FF < 0x400.
Proof.
  intros Ht. split; [|split].
  - apply lor_disjoint_add.
    rewrite (N.land_comm x), N.land_assoc, Ht. apply N.land_0_l.
  - rewrite N.land_lor_distr_l, Ht, N.lor_0_l.
    now rewrite <- N.land_assoc, N.land_diag.
  - change 0x3FF with (N.ones 10). rewrite N.land_ones.
    apply N.mod_lt. discriminate.
Qed.

Lemma surrogate_pair c :
  0x10000 <= c -> c < 0x110000 ->
  let n := c - 0x10000 in
  let c1 := N.lor 0xD800 (N.land (N.shiftr n 10) 0x3FF) in
  let c2 := N.lor 0xDC00 (N.land n 0x3FF) in
  c1 < 0x10000 /\ c2 < 0x10000
  /\ is_high_surrogate c1 = true /\ is_low_surrogate c2 = true
  /\ join_surrogates c1 c2 = c.
Proof.
  intros Hlo Hhi n c1 c2.
  destruct (surrogate_tag 0xD800 (N.shiftr n 10) eq_refl) as (E1 & L1 & B1).
  destruct (surrogate_tag 0xDC00 n eq_refl) as (E2 & L2 & B2).
  fold c1 in E1, L1. fold c2 in E2, L2.
  assert (Hn : n < 2 ^ (10 + 10)) by (subst n; cbn; lia).
  assert (Hs : N.land (N.shiftr n 10) 0x3FF = N.shiftr n 10).
  { change 0x3FF with (N.ones 10). apply land_ones_small.
    now apply shiftr_small. }
  repeat split.
  - lia.
  - lia.
  - unfold is_high_surrogate. apply andb_true_iff.
    split; apply N.leb_le; lia.
  - unfold is_low_surrogate. apply andb_true_iff.
    split; apply N.leb_le; lia.
  - unfold join_surrogates. rewrite L1, L2, Hs.
    change 0x3FF with (N.ones 10). rewrite split_low. subst n. lia.
Qed.

(** ** Strings are read back *)

Lemma scanstring_u h1 h2 h3 h4 r2 :
  scanstring (c_backslash :: 117 :: h1 :: h2 :: h3 :: h4 :: r2) =
  match hex4 h1 h2 h3 h4 with
  | None => None
  | Some c1 =>
    if is_high_surrogate c1 then
      match r2 with
      | b :: e' :: g1 :: g2 :: g3 :: g4 :: r3 =>
        if (b =? c_backslash) && (e' =? 117) then
          match hex4 g1 g2 g3 g4 with
          | None => None
          | Some c2 =>
            if is_low_surrogate c2
            then push (join_surrogates c1 c2) (scanstring r3)
            else push c1 (scanstring r2)
          end
        else push c1 (scanstring r2)
      | _ => push c1 (scanstring r2)
      end
    else push c1 (scanstring r2)
  end.
Proof. reflexivity. Qed.

Lemma high_is_surrogate c : is_high_surrogate c = true -> is_surrogate c = true.
Proof.
  unfold is_high_surrogate, is_surrogate. intros H.
  apply andb_true_iff in H as [H1 H2]. apply N.leb_le in H1, H2.
  apply andb_true_iff. split; apply N.leb_le; lia.
Qed.

Lemma scanstring_escape_char c t :
  is_scalar c = true ->
  scanstring (escape_char c ++ t) = push c (scanstring t).
Proof.
  intros Hc. unfold is_scalar in Hc. apply andb_true_iff in Hc as [Hlt Hns].
  apply N.ltb_lt in Hlt. apply negb_true_iff in Hns.
  unfold escape_char.
  destruct (N.eqb_spec c c_quote) as [->|Hq]; [reflexivity|].
  destruct (N.eqb_spec c c_backslash) as [->|Hb]; [reflexivity|].
  destruct (N.eqb_spec c 10) as [->|H10]; [reflexivity|].
  destruct (N.eqb_spec c 13) as [->|H13]; [reflexivity|].
  destruct (N.eqb_spec c 9) as [->|H9]; [reflexivity|].
  destruct (N.eqb_spec c 12) as [->|H12]; [reflexivity|].
  destruct (N.eqb_spec c 8) as [->|H8]; [reflexivity|].
  destruct ((32 <=? c) && (c <=? 126)) eqn:Hp.
  - apply andb_true_iff in Hp as [Hp _]. apply N.leb_le in Hp.
    cbn [app scanstring].
    apply N.eqb_neq in Hq, Hb. rewrite Hq, Hb.
    replace (c <? 32) with false by (symmetry; apply N.ltb_ge; lia).
    reflexivity.
  - destruct (N.ltb_spec c 0x10000) as [Hs|Hs].
    + destruct (hex4_u_escape c t Hs) as (h1 & h2 & h3 & h4 & -> & Hh).
      rewrite scanstring_u, Hh.
      destruct (is_high_surrogate c) eqn:Hhigh; [|reflexivity].
      apply high_is_surrogate in Hhigh. congruence.
    + destruct (surrogate_pair c Hs Hlt) as (B1 & B2 & S1 & S2 & J).
      cbn zeta in *.
      set (c1 := N.lor 0xD800 _) in *. set (c2 := N.lor 0xDC00 _) in *.
      rewrite <- app_assoc.
      destruct (hex4_u_escape c1 (u_escape c2 ++ t) B1)
        as (h1 & h2 & h3 & h4 & -> & Hh1).
      destruct (hex4_u_escape c2 t B2) as (g1 & g2 & g3 & g4 & -> & Hh2).
      rewrite scanstring_u, Hh1, S1.
      cbn [N.eqb Pos.eqb andb]. rewrite Hh2, S2, J. reflexivity.
Qed.

Lemma scanstring_escape s rest :
  valid_str s = true ->
  scanstring (flat_map escape_char s ++ c_quote :: rest) = Some (s, rest).
Proof.
  induction s as [|c r IH]; intros Hs; [reflexivity|].
  cbn [valid_str forallb] in Hs. apply andb_true_iff in Hs as [Hc Hr].
  cbn [flat_map]. rewrite <- app_assoc, scanstring_escape_char by exact Hc.
  rewrite IH by exact Hr. reflexivity.
Qed.

Lemma scanstring_encode s rest :
  valid_str s = true ->
  exists body, encode_basestring_ascii s ++ rest = c_quote :: body
               /\ scanstring body = Some (s, rest).
Proof.
  intros Hs. exists (flat_map escape_char s ++ c_quote :: rest). split.
  - unfold encode_basestring_ascii. cbn [app]. now rewrite <- app_assoc.
  - now apply scanstring_escape.
Qed.

(** ** Values are read back *)

Lemma delim_no_digit rest : delim rest -> no_digit_ahead rest.
Proof. destruct rest as [|c r]; [easy|]. intros [->|[->| ->]]; reflexivity. Qed.

Lemma delim_no_float rest : delim rest -> starts_float rest = false.
Proof. destruct rest as [|c r]; [easy|]. intros [->|[->| ->]]; reflexivity. Qed.

Lemma skip_ws_starts s : starts_value s -> skip_ws s = s.
Proof. intros (c & r & -> & Hc & _). cbn. now rewrite Hc. Qed.

Lemma digit_starts c r : is_digit c = true -> starts_value (c :: r).
Proof.
  intros H. exists c, r. unfold is_digit in H.
  apply andb_true_iff in H as [H1 H2]. apply N.leb_le in H1, H2.
  split; [reflexivity|]. unfold is_json_ws.
  repeat split; try lia.
  repeat (apply orb_false_iff; split); apply N.eqb_neq; lia.
Qed.

Lemma const_starts c r :
  is_json_ws c = false -> c <> 93 -> c <> 125 -> c < 128 -> starts_value (c :: r).
Proof. intros. exists c, r. auto. Qed.

Lemma dumps_starts v t : starts_value (json_dumps v ++ t).
Proof.
  destruct v as [| [] | z | s | l | d]; cbn [json_dumps];
    try (apply const_starts; [reflexivity|discriminate|discriminate|reflexivity]).
  destruct z as [|p|p]; unfold repr_int, repr_N; cbn [Z.to_N N.to_uint].
  - apply const_starts; [reflexivity|discriminate|discriminate|reflexivity].
  - destruct (pos_to_uint_head p) as (c & d & _ & Hc & _ & ->).
    now apply digit_starts.
  - apply const_starts; [reflexivity|discriminate|discriminate|reflexivity].
Qed.

Lemma join_cons2 sep p q r : join sep (p :: q :: r) = p ++ sep ++ join sep (q :: r).
Proof. reflexivity. Qed.

Lemma scan_once_number f c r :
  is_digit c = true \/ c = 45 ->
  scan_once (S f) (c :: r) = match_number (c :: r).
Proof.
  intros H. cbn [scan_once].
  assert (E : (c =? c_quote) = false /\ (c =? 123) = false /\ (c =? 91) = false
              /\ (c =? 110) = false /\ (c =? 116) = false /\ (c =? 102) = false).
  { destruct H as [H| ->]; [|now repeat split].
    unfold is_digit in H. apply andb_true_iff in H as [H1 H2].
    apply N.leb_le in H1, H2. repeat split; apply N.eqb_neq; lia. }
  destruct E as (-> & -> & -> & -> & -> & ->). reflexivity.
Qed.

Lemma scan_once_int f z rest :
  delim rest -> scan_once (S f) (repr_int z ++ rest) = Some (JInt z, rest).
Proof.
  intros Hd.
  rewrite <- (match_number_repr_int z rest)
    by auto using delim_no_digit, delim_no_float.
  destruct z as [|p|p]; unfold repr_int, repr_N; cbn [Z.to_N N.to_uint].
  - apply scan_once_number. now left.
  - destruct (pos_to_uint_head p) as (c & d & _ & Hc & _ & ->).
    apply scan_once_number. now left.
  - apply scan_once_number. now right.
Qed.

Lemma parse_array_items_dumps scan (l : list json) :
  (forall x rest, In x l -> delim rest ->
                  scan (json_dumps x ++ rest) = Some (x, rest)) ->
  forall n rest,
    l <> [] -> (length l <= n)%nat ->
    parse_array_items scan n
      (join [44] (List.map json_dumps l) ++ 93 :: rest) = Some (l, rest).
Proof.
  induction l as [|x l IH]; intros Hscan n rest Hne Hn; [congruence|].
  destruct n as [|n]; [cbn in Hn; lia|]. cbn [length] in Hn.
  destruct l as [|y l].
  - cbn [List.map join parse_array_items].
    rewrite Hscan; [|now left|now right; left]. reflexivity.
  - cbn [List.map]. rewrite join_cons2, <- !app_assoc.
    cbn [parse_array_items app].
    rewrite Hscan; [|now left|now left].
    cbn [skip_ws is_json_ws N.eqb Pos.eqb orb].
    change (json_dumps y :: List.map json_dumps l)
      with (List.map json_dumps (y :: l)).
    assert (Hst : starts_value (join [44] (List.map json_dumps (y :: l)) ++ 93 :: rest)).
    { destruct l as [|y' l']; cbn [List.map].
      - apply dumps_starts.
      - rewrite join_cons2, <- app_assoc. apply dumps_starts. }
    rewrite (skip_ws_starts _ Hst).
    rewrite IH; [reflexivity| |discriminate|lia].
    intros x' rest' Hin. apply Hscan. now right.
Qed.

Lemma json_dumps_dict d :
  json_dumps (JDict d) = 123 :: join [44] (List.map dumps_item d) ++ [125].
Proof. reflexivity. Qed.

Lemma item_starts kv t : starts_value (dumps_item kv ++ t).
Proof.
  unfold dumps_item, encode_basestring_ascii. cbn [app].
  apply const_starts; [reflexivity|discriminate|discriminate|reflexivity].
Qed.

Lemma join_starts {A} (f : A -> ustring) (d : list A) t :
  (forall kv t, starts_value (f kv ++ t)) -> d <> [] ->
  starts_value (join [44] (List.map f d) ++ t).
Proof.
  intros Hf Hd. destruct d as [|kv [|kv' d]]; [congruence| |]; cbn [List.map].
  - apply Hf.
  - rewrite join_cons2, <- app_assoc. apply Hf.
Qed.

Lemma parse_object_items_step scan n body k v r1 rest1 :
  scanstring body = Some (k, 58 :: r1) -> starts_value r1 ->
  scan r1 = Some (v, rest1) ->
  parse_object_items scan (S n) (c_quote :: body) =
  match skip_ws rest1 with
  | c' :: r4 =>
    if c' =? 125 then Some ([(k, v)], r4)
    else if c' =? 44 then
      match parse_object_items scan n (skip_ws r4) with
      | Some (kvs, r5) => Some ((k, v) :: kvs, r5)
      | None => None
      end
    else None
  | [] => None
  end.
Proof.
  intros Hs Hst Hv. cbn [parse_object_items N.eqb Pos.eqb]. rewrite Hs.
  cbn [skip_ws is_json_ws N.eqb Pos.eqb orb].
  now rewrite (skip_ws_starts _ Hst), Hv.
Qed.

Lemma parse_object_items_dumps scan (d : list (ustring * json)) :
  (forall kv rest, In kv d -> delim rest ->
     scan (json_dumps (snd kv) ++ rest) = Some (snd kv, rest)) ->
  Forall (fun kv => valid_str (fst kv) = true) d ->
  forall n rest,
    d <> [] -> (length d <= n)%nat ->
    parse_object_items scan n
      (join [44] (List.map dumps_item d) ++ 125 :: rest) = Some (d, rest).
Proof.
  induction d as [|[k v] d IH]; intros Hscan Hk n rest Hne Hn; [congruence|].
  destruct n as [|n]; [cbn in Hn; lia|]. cbn [length] in Hn.
  apply Forall_cons in Hk as [Hk Hks]. cbn [fst] in Hk.
  destruct d as [|kv' d].
  - cbn [List.map join]. unfold dumps_item at 1. cbn [fst snd].
    rewrite <- app_assoc. cbn [app].
    destruct (scanstring_encode k (58 :: json_dumps v ++ 125 :: rest) Hk)
      as (body & -> & Hs).
    rewrite (parse_object_items_step scan n body k v _ _ Hs
               (dumps_starts v _)
               (Hscan (k, v) (125 :: rest) (or_introl eq_refl)
                  (or_intror (or_intror eq_refl)))).
    reflexivity.
  - cbn [List.map]. rewrite join_cons2, <- !app_assoc.
    unfold dumps_item at 1. cbn [fst snd]. rewrite <- app_assoc. cbn [app].
    destruct (scanstring_encode k
                (58 :: json_dumps v ++
                   44 :: join [44] (dumps_item kv' :: List.map dumps_item d)
                   ++ 125 :: rest) Hk)
      as (body & -> & Hs).
    rewrite (parse_object_items_step scan n body k v _ _ Hs
               (dumps_starts v _)
               (Hscan (k, v) (44 :: _) (or_introl eq_refl)
                  (or_introl eq_refl))).
    cbn [skip_ws is_json_ws N.eqb Pos.eqb orb].
    change (dumps_item kv' :: List.map dumps_item d)
      with (List.map dumps_item (kv' :: d)).
    rewrite skip_ws_starts
      by (apply join_starts; [apply item_starts | discriminate]).
    rewrite IH; [reflexivity| |exact Hks|discriminate|lia].
    intros kv rest' Hin. apply Hscan. now right.
Qed.

Lemma dict_set_fresh (k : ustring) (v : json) (acc : list (ustring * json)) :
  ~ In k (List.map fst acc) -> dict_set k v acc = acc ++ [(k, v)].
Proof.
  induction acc as [|[k' v'] acc IH]; intros Hk; [reflexivity|].
  cbn [dict_set]. cbn [List.map fst In] in Hk.
  destruct (decide (k' = k)) as [->|_]; [tauto|].
  rewrite IH by tauto. reflexivity.
Qed.

Lemma dict_of_pairs_nodup_acc (kvs : list (ustring * json)) :
  forall acc : list (ustring * json),
  NoDup (List.map fst (acc ++ kvs)) ->
  fold_left (fun d kv => dict_set (fst kv) (snd kv) d) kvs acc = acc ++ kvs.
Proof.
  induction kvs as [|[k v] kvs IH]; intros acc Hnd; cbn [fold_left].
  - now rewrite List.app_nil_r.
  - cbn [fst snd]. rewrite dict_set_fresh.
    + rewrite IH; rewrite <- app_assoc; [reflexivity|exact Hnd].
    + rewrite List.map_app in Hnd. cbn [List.map fst] in Hnd.
      apply NoDup_app in Hnd as (_ & Hd & _).
      intros Hin. apply (Hd k); [now apply list_elem_of_In|left].
Qed.

Lemma dict_of_pairs_nodup d : NoDup (List.map fst d) -> dict_of_pairs d = d.
Proof. intros H. unfold dict_of_pairs. now rewrite dict_of_pairs_nodup_acc. Qed.

Lemma scan_once_list f r :
  starts_value r ->
  scan_once (S f) (91 :: r) =
  match parse_array_items (scan_once f) f r with
  | Some (vs, r2) => Some (JList vs, r2)
  | None => None
  end.
Proof.
  intros (c & r' & -> & Hws & H93 & _). cbn [scan_once N.eqb Pos.eqb skip_ws].
  apply N.eqb_neq in H93. now rewrite Hws, H93.
Qed.

Lemma scan_once_dict f r :
  starts_value r ->
  scan_once (S f) (123 :: r) =
  match parse_object_items (scan_once f) f r with
  | Some (kvs, r2) => Some (JDict (dict_of_pairs kvs), r2)
  | None => None
  end.
Proof.
  intros (c & r' & -> & Hws & _ & H125 & _).
  cbn [scan_once N.eqb Pos.eqb skip_ws].
  apply N.eqb_neq in H125. now rewrite Hws, H125.
Qed.

Lemma list_max_bound (l : list nat) n x :
  (list_max l <= n)%nat -> In x l -> (x <= n)%nat.
Proof.
  intros H Hin. apply list_max_le in H.
  rewrite List.Forall_forall in H. now apply H.
Qed.

Lemma scan_once_dumps v :
  valid_json v = true ->
  forall fuel rest, (need v <= fuel)%nat -> delim rest ->
    scan_once fuel (json_dumps v ++ rest) = Some (v, rest).
Proof.
  induction v as [| b | z | s | l IH | d IH] using json_induction;
    intros Hv fuel rest Hf Hd;
    (destruct fuel as [|f]; [cbn in Hf; lia|]).
  - reflexivity.
  - destruct b; reflexivity.
  - now apply scan_once_int.
  - destruct (scanstring_encode s rest Hv) as (body & E & Hs).
    cbn [json_dumps]. rewrite E. cbn [scan_once N.eqb Pos.eqb].
    now rewrite Hs.
  - cbn [json_dumps app]. rewrite <- app_assoc. cbn [app].
    destruct l as [|x l]; [reflexivity|].
    rewrite scan_once_list
      by (apply join_starts; [apply dumps_starts | discriminate]).
    cbn [need] in Hf. cbn [valid_json] in Hv.
    rewrite parse_array_items_dumps; [reflexivity| |discriminate|lia].
    intros y rest' Hin Hd'.
    rewrite List.Forall_forall in IH. apply IH; [exact Hin| | |exact Hd'].
    + rewrite forallb_forall in Hv. now apply Hv.
    + assert (need y <= list_max (List.map need (x :: l)))%nat; [|lia].
      apply (list_max_bound _ _ _ (Nat.le_refl _)). now apply in_map.
  - rewrite json_dumps_dict. cbn [app]. rewrite <- app_assoc. cbn [app].
    cbn [valid_json] in Hv. apply andb_true_iff in Hv as [Hnd Hv].
    apply bool_decide_eq_true in Hnd.
    destruct d as [|kv d]; [reflexivity|].
    rewrite scan_once_dict
      by (apply join_starts; [apply item_starts | discriminate]).
    cbn [need] in Hf. rewrite forallb_forall in Hv.
    rewrite parse_object_items_dumps.
    + now rewrite dict_of_pairs_nodup.
    + intros kv' rest' Hin Hd'.
      rewrite List.Forall_forall in IH. apply IH; [exact Hin| | |exact Hd'].
      * apply Hv in Hin. now apply andb_true_iff in Hin as [_ ?].
      * assert (need (snd kv') <=
                list_max (List.map (fun kv => need (snd kv)) (kv :: d)))%nat;
          [|lia].
        apply (list_max_bound _ _ _ (Nat.le_refl _)).
        now apply (in_map (fun kv => need (snd kv))).
    + apply List.Forall_forall. intros kv' Hin.
      apply Hv in Hin. now apply andb_true_iff in Hin as [? _].
    + discriminate.
    + lia.
Qed.

Lemma join_length_part sep (parts : list ustring) p :
  In p parts -> (length p <= length (join sep parts))%nat.
Proof.
  induction parts as [|q [|q' parts] IH]; intros Hin; [easy| |].
  - destruct Hin as [->|[]]. reflexivity.
  - rewrite join_cons2, !length_app. destruct Hin as [->|Hin]; [lia|].
    specialize (IH Hin). lia.
Qed.

Lemma join_length_count sep (parts : list ustring) :
  Forall (fun p => (1 <= length p)%nat) parts ->
  (length parts <= length (join sep parts))%nat.
Proof.
  induction 1 as [|q parts Hq Hparts IH]; [reflexivity|].
  destruct parts as [|q' parts]; [cbn [join length]; lia|].
  rewrite join_cons2, !length_app. cbn [length] in *. lia.
Qed.

Lemma dumps_nonempty v : (1 <= length (json_dumps v))%nat.
Proof.
  destruct (dumps_starts v []) as (c & r & E & _).
  rewrite List.app_nil_r in E. rewrite E. cbn. lia.
Qed.

Lemma list_max_le_bound (l : list nat) n :
  (forall x, In x l -> (x <= n)%nat) -> (list_max l <= n)%nat.
Proof. intros H. apply list_max_le, List.Forall_forall, H. Qed.

Lemma need_le_length v : (need v <= length (json_dumps v))%nat.
Proof.
  induction v as [| b | z | s | l IH | d IH] using json_induction;
    try apply (dumps_nonempty JNull); try apply (dumps_nonempty (JBool b));
    try apply (dumps_nonempty (JInt z)); try apply (dumps_nonempty (JStr s)).
  - cbn [need json_dumps length]. rewrite length_app. cbn [length].
    assert (length l <= length (join [44%N] (List.map json_dumps l)))%nat.
    { rewrite <- (length_map json_dumps l) at 1. apply join_length_count.
      apply Forall_map, List.Forall_forall. intros; apply dumps_nonempty. }
    assert (list_max (List.map need l)
            <= length (join [44%N] (List.map json_dumps l)))%nat; [|lia].
    apply list_max_le_bound. intros n Hn.
    apply in_map_iff in Hn as (x & <- & Hx).
    rewrite List.Forall_forall in IH. etransitivity; [apply IH, Hx|].
    apply join_length_part. now apply in_map.
  - rewrite json_dumps_dict. cbn [need length]. rewrite length_app.
    cbn [length].
    assert (length d <= length (join [44%N] (List.map dumps_item d)))%nat.
    { rewrite <- (length_map dumps_item d) at 1. apply join_length_count.
      apply Forall_map, List.Forall_forall. intros kv _.
      unfold dumps_item. rewrite length_app. cbn [length]. lia. }
    assert (list_max (List.map (fun kv => need (snd kv)) d)
            <= length (join [44%N] (List.map dumps_item d)))%nat; [|lia].
    apply list_max_le_bound. intros n Hn.
    apply in_map_iff in Hn as (kv & <- & Hkv).
    rewrite List.Forall_forall in IH. etransitivity; [apply IH, Hkv|].
    etransitivity; [|apply join_length_part, (in_map dumps_item), Hkv].
    unfold dumps_item. rewrite length_app. cbn [length]. lia.
Qed.

Lemma json_loads_dumps v : valid_json v = true -> json_loads (json_dumps v) = Ok v.
Proof.
  intros Hv. unfold json_loads.
  pose proof (dumps_starts v []) as Hst. rewrite List.app_nil_r in Hst.
  rewrite (skip_ws_starts _ Hst).
  destruct Hst as (c & r & E & _ & _ & _ & Hc).
  replace (is_prefix [0xFEFF] (json_dumps v)) with false.
  - pose proof (scan_once_dumps v Hv (S (length (json_dumps v))) [] ) as H.
    rewrite List.app_nil_r in H. rewrite H; [reflexivity| |exact I].
    pose proof (need_le_length v). lia.
  - rewrite E. cbn [is_prefix].
    replace (0xFEFF =? c) with false; [reflexivity|].
    symmetry. apply N.eqb_neq. lia.
Qed.

(** ** Frames are read back *)

Lemma utf8_decode_ascii s : is_ascii s -> utf8_decode s = Some s.
Proof.
  induction 1 as [|c r Hc _ IH]; [reflexivity|].
  cbn [utf8_decode]. apply N.ltb_lt in Hc. now rewrite Hc, IH.
Qed.

Lemma ToUnicode_ascii s : is_ascii s -> ToUnicode s = Ok s.
Proof. intros H. unfold ToUnicode. now rewrite utf8_decode_ascii. Qed.

Lemma split_line_app line rest :
  Forall (fun c => c <> 10) line ->
  split_line (line ++ 10 :: rest) = Some (line ++ [10], rest).
Proof.
  induction 1 as [|c r Hc _ IH]; [reflexivity|].
  cbn [app split_line]. apply N.eqb_neq in Hc. now rewrite Hc, IH.
Qed.

Lemma lstrip_head sp c r : sp c = false -> lstrip sp (c :: r) = c :: r.
Proof. intros H. cbn. now rewrite H. Qed.

Lemma lstrip_spaces sp ws t :
  Forall (fun c => sp c = true) ws -> lstrip sp (ws ++ t) = lstrip sp t.
Proof. induction 1 as [|c r Hc _ IH]; [reflexivity|]. cbn. now rewrite Hc. Qed.

Lemma strip_trailing sp a ws :
  starts_solid sp a -> starts_solid sp (rev a) ->
  Forall (fun c => sp c = true) ws ->
  strip sp (a ++ ws) = a.
Proof.
  intros (c & r & -> & Hc) (c' & r' & E & Hc') Hws. unfold strip.
  cbn [app]. rewrite lstrip_head by exact Hc.
  change (c :: r ++ ws) with ((c :: r) ++ ws).
  rewrite rev_app_distr, lstrip_spaces by now apply Forall_rev.
  rewrite E, lstrip_head by exact Hc'. rewrite <- E. apply rev_involutive.
Qed.

Lemma uint_chars_digits d : Forall (fun c => is_digit c = true) (uint_chars d).
Proof. induction d; cbn [uint_chars]; constructor; auto. Qed.

Lemma repr_nat_digits n :
  Forall (fun c => is_digit c = true) (repr_int (Z.of_nat n))
  /\ repr_int (Z.of_nat n) <> [].
Proof.
  destruct (Z.of_nat n) as [|p|p] eqn:E; [| |lia].
  - split; [repeat constructor | discriminate].
  - unfold repr_int, repr_N. cbn [Z.to_N N.to_uint].
    split; [apply uint_chars_digits|].
    destruct (pos_to_uint_head p) as (c & d & _ & _ & _ & ->). discriminate.
Qed.

Lemma digits_rev_head (l : list N) :
  Forall (fun c => is_digit c = true) l -> l <> [] ->
  exists c r, rev l = c :: r /\ is_digit c = true.
Proof.
  intros Hl Hne. destruct (rev l) as [|c r] eqn:E.
  - exfalso. apply Hne. rewrite <- (rev_involutive l), E. reflexivity.
  - exists c, r. split; [reflexivity|].
    rewrite List.Forall_forall in Hl. apply Hl, in_rev. rewrite E. now left.
Qed.

Lemma digit_facts c :
  is_digit c = true ->
  is_bytes_space c = false /\ is_str_space c = false /\ c <> 10 /\ c < 128.
Proof.
  unfold is_digit. intros H. apply andb_true_iff in H as [H1 H2].
  apply N.leb_le in H1, H2.
  repeat split; try lia; unfold is_bytes_space, is_str_space;
    repeat (apply orb_false_iff; split);
    try (apply N.eqb_neq; lia);
    apply andb_false_iff;
    first [left; apply N.leb_gt; lia | right; apply N.leb_gt; lia].
Qed.

Lemma header_line_ascii n : is_ascii (header_line n).
Proof.
  apply is_ascii_app; [|apply repr_int_ascii].
  vm_compute. repeat constructor.
Qed.

Lemma header_line_no_lf n : Forall (fun c => c <> 10) (header_line n ++ [13]).
Proof.
  unfold header_line. rewrite <- app_assoc.
  apply Forall_app_2; [repeat (constructor; [discriminate|]); constructor|].
  apply Forall_app_2; [|repeat constructor; discriminate].
  eapply Forall_impl; [apply repr_nat_digits|].
  intros c Hc. now apply digit_facts in Hc.
Qed.

Lemma header_line_strip n :
  strip is_bytes_space (header_line n ++ [13; 10]) = header_line n.
Proof.
  apply strip_trailing.
  - do 2 eexists. split; reflexivity.
  - unfold header_line. rewrite rev_app_distr.
    destruct (repr_nat_digits n) as [Hd Hne].
    destruct (digits_rev_head _ Hd Hne) as (c & r & -> & Hc).
    exists c, (r ++ rev (u "Content-Length: ")). split; [reflexivity|].
    now apply digit_facts in Hc.
  - repeat constructor.
Qed.

Lemma header_value_strip n :
  strip is_str_space (32 :: repr_int (Z.of_nat n)) = repr_int (Z.of_nat n).
Proof.
  destruct (repr_nat_digits n) as [Hd Hne].
  unfold strip. cbn [lstrip]. change (is_str_space 32) with true. cbn iota.
  destruct (repr_int (Z.of_nat n)) as [|c r] eqn:E; [congruence|].
  apply Forall_cons in Hd as [Hc Hr].
  rewrite lstrip_head by now apply digit_facts in Hc.
  destruct (digits_rev_head (c :: r)) as (c' & r' & E' & Hc');
    [now constructor|discriminate|].
  rewrite E', lstrip_head by now apply digit_facts in Hc'.
  rewrite <- E'. apply rev_involutive.
Qed.

Lemma header_line_split n :
  split_colon (header_line n)
  = Some (u "Content-Length", 32 :: repr_int (Z.of_nat n)).
Proof. reflexivity. Qed.

Lemma header_key_strip :
  strip is_str_space (u "Content-Length") = u "Content-Length".
Proof. reflexivity. Qed.

Lemma read_headers_frame fuel n t e :
  read_headers (S (S fuel)) []
    {| buf := header_line n ++ CRLF ++ CRLF ++ t; eof := e |} =
  Returned [(u "Content-Length", repr_int (Z.of_nat n))] {| buf := t; eof := e |}.
Proof.
  cbn [read_headers]. unfold readline. cbn [buf eof].
  change (header_line n ++ CRLF ++ CRLF ++ t)
    with (header_line n ++ [13] ++ 10 :: CRLF ++ t).
  rewrite app_assoc, split_line_app by apply header_line_no_lf.
  rewrite <- app_assoc. change ([13] ++ [10]) with [13; 10].
  rewrite header_line_strip.
  assert (Hc : exists tl, header_line n = 67 :: tl) by (eexists; reflexivity).
  destruct Hc as [tl Hc]. rewrite Hc. cbn iota. rewrite <- Hc.
  rewrite (ToUnicode_ascii _ (header_line_ascii n)).
  rewrite header_line_split, header_key_strip, header_value_strip.
  reflexivity.
Qed.

Lemma request_serialized_eq request :
  request_serialized request =
  Ok (header_line (length (json_dumps request)) ++ CRLF ++ CRLF
      ++ json_dumps request).
Proof.
  unfold request_serialized, header_line. rewrite <- app_assoc.
  apply ToBytes_ascii.
  apply is_ascii_app; [vm_compute; repeat constructor|].
  apply is_ascii_app; [apply repr_int_ascii|].
  apply is_ascii_app; [repeat constructor; lia|].
  apply is_ascii_app; [repeat constructor; lia|].
  apply json_dumps_ascii.
Qed.

Lemma dict_get_head {V} (k : ustring) (v : V) r : dict_get k ((k, v) :: r) = Some v.
Proof. cbn. destruct (decide (k = k)); congruence. Qed.

Lemma read_exact (body rest : bytes) e :
  read (Z.of_nat (length body)) {| buf := body ++ rest; eof := e |}
  = Returned body {| buf := rest; eof := e |}.
Proof.
  unfold read. cbn [buf eof].
  replace (Z.of_nat (length body) <? -1)%Z with false
    by (symmetry; apply Z.ltb_ge; lia).
  replace (Z.of_nat (length body) =? -1)%Z with false
    by (symmetry; apply Z.eqb_neq; lia).
  rewrite Nat2Z.id.
  replace (length body <=? length (body ++ rest))%nat with true
    by (symmetry; apply Nat.leb_le; rewrite length_app; lia).
  rewrite firstn_app, Nat.sub_diag, firstn_all. cbn [firstn].
  rewrite List.app_nil_r, skipn_app, Nat.sub_diag, skipn_all. reflexivity.
Qed.

Lemma _Read_frame m rest e :
  valid_json m = true ->
  _Read {| buf := (header_line (length (json_dumps m)) ++ CRLF ++ CRLF
                   ++ json_dumps m) ++ rest;
           eof := e |}
  = Returned m {| buf := rest; eof := e |}.
Proof.
  intros Hm. unfold _Read. cbn [buf]. rewrite <- !app_assoc.
  destruct (length (header_line (length (json_dumps m)) ++ CRLF ++ CRLF
                    ++ json_dumps m ++ rest)) as [|fuel] eqn:E.
  { apply (f_equal (fun n => n =? 0)%nat) in E. discriminate E. }
  rewrite read_headers_frame, dict_get_head, py_int_repr_nat, read_exact.
  rewrite (ToUnicode_ascii _ (json_dumps_ascii m)). cbn [bind].
  now rewrite json_loads_dumps.
Qed.

(** ** The fuel of the decoders is never used up *)

Lemma split_line_length b line rest :
  split_line b = Some (line, rest) -> (length rest < length b)%nat.
Proof.
  revert line rest. induction b as [|c r IH]; intros line rest; [discriminate|].
  cbn [split_line length]. destruct (c =? 10).
  - intros [= <- <-]. lia.
  - destruct (split_line r) as [[l' r']|]; [|discriminate].
    intros [= <- <-]. specialize (IH _ _ eq_refl). lia.
Qed.

(** [read_headers] gives the same result for every fuel above the length
    of the buffer, so the fuel that [_Read] passes is enough. *)
Lemma read_headers_fuel f : forall s h f',
  (length (buf s) < f)%nat -> (f <= f')%nat ->
  read_headers f' h s = read_headers f h s.
Proof.
  induction f as [|n IH]; intros s h f' Hlen Hf; [lia|].
  destruct f' as [|n']; [lia|]. cbn [read_headers].
  unfold readline.
  destruct (split_line (buf s)) as [[line rest]|] eqn:E.
  - apply split_line_length in E.
    destruct (strip is_bytes_space line); [reflexivity|].
    destruct (ToUnicode _); [|reflexivity].
    destruct (split_colon _) as [[key value]|]; [|reflexivity].
    apply IH; cbn [buf]; lia.
  - destruct (eof s); [|reflexivity].
    destruct (buf s) as [|c r] eqn:Eb; [reflexivity|].
    destruct (strip is_bytes_space (c :: r)); [reflexivity|].
    destruct (ToUnicode _); [|reflexivity].
    destruct (split_colon _) as [[key value]|]; [|reflexivity].
    apply IH; cbn [buf length] in *; lia.
Qed.

Lemma skip_ws_length s : (length (skip_ws s) <= length s)%nat.
Proof.
  induction s as [|c r IH]; [reflexivity|]. cbn [skip_ws].
  destruct (is_json_ws c); cbn [length]; lia.
Qed.

Lemma push_length c o s rest (n : nat) :
  (forall s' r', o = Some (s', r') -> (length r' < n)%nat) ->
  push c o = Some (s, rest) -> (length rest < n)%nat.
Proof.
  intros H. unfold push. destruct o as [[s' r']|]; [|discriminate].
  intros [= <- <-]. now apply (H s').
Qed.

Lemma scanstring_length s : forall str rest,
  scanstring s = Some (str, rest) -> (length rest < length s)%nat.
Proof.
  induction s as [s IH] using (well_founded_induction
    (Wf_nat.well_founded_ltof _ (@length N))).
  unfold Wf_nat.ltof in IH. intros str rest.
  destruct s as [|c r]; [discriminate|]. cbn [scanstring length].
  destruct (c =? c_quote); [intros [= <- <-]; lia|].
  destruct (c =? c_backslash).
  - destruct r as [|e r1]; [discriminate|]. cbn [length].
    destruct (e =? 117).
    + destruct r1 as [|h1 [|h2 [|h3 [|h4 r2]]]]; try discriminate.
      cbn [length]. destruct (hex4 h1 h2 h3 h4) as [c1|]; [|discriminate].
      assert (Hr2 : forall c' s' r', push c' (scanstring r2) = Some (s', r') ->
                                     (length r' < S (length r2))%nat).
      { intros c' s' r'. apply push_length. intros s0 r0 H0.
        apply IH in H0; cbn [length]; lia. }
      destruct (is_high_surrogate c1).
      * destruct r2 as [|b [|e' [|g1 [|g2 [|g3 [|g4 r3]]]]]];
          try (intros H; apply Hr2 in H; cbn [length] in *; lia).
        destruct ((b =? c_backslash) && (e' =? 117));
          [|intros H; apply Hr2 in H; cbn [length] in *; lia].
        destruct (hex4 g1 g2 g3 g4) as [c2|]; [|discriminate].
        destruct (is_low_surrogate c2);
          [|intros H; apply Hr2 in H; cbn [length] in *; lia].
        intros H. eapply push_length in H;
          [cbn [length]; apply Nat.lt_lt_succ_r, H|].
        intros s0 r0 H0. apply IH in H0; cbn [length] in *; lia.
      * intros H. apply Hr2 in H. lia.
    + destruct (unescape e); [|discriminate].
      intros H. eapply push_length in H; [apply Nat.lt_lt_succ_r, H|].
      intros s0 r0 H0. apply IH in H0; cbn [length]; lia.
  - destruct (c <? 32); [discriminate|].
    intros H. eapply push_length in H; [exact H|].
    intros s0 r0 H0. apply IH in H0; cbn [length]; lia.
Qed.

Lemma span_digits_length s : forall d r,
  span_digits s = (d, r) -> (length r <= length s)%nat.
Proof.
  induction s as [|c s IH]; intros d r; cbn [span_digits].
  - intros [= <- <-]. reflexivity.
  - destruct (is_digit c).
    + destruct (span_digits s) as [d' r']. intros [= <- <-].
      specialize (IH _ _ eq_refl). cbn [length]. lia.
    + intros [= <- <-]. reflexivity.
Qed.

Lemma match_number_length s v r :
  match_number s = Some (v, r) -> (length r < length s)%nat.
Proof.
  unfold match_number.
  assert (Hfin : forall neg d t (n : nat),
             finish_number neg d t = Some (v, r) ->
             (length t < n)%nat -> (length r < n)%nat).
  { intros neg d t n. unfold finish_number.
    destruct (starts_float t); [discriminate|]. now intros [= <- <-]. }
  assert (Hnum : forall neg t (n : nat),
             match t with
             | c :: r0 =>
               if c =? 48 then finish_number neg (Decimal.D0 Decimal.Nil) r0
               else if is_digit c then
                 let '(d, r') := span_digits r0 in
                 finish_number neg (digit_cons c d) r'
               else None
             | [] => None
             end = Some (v, r) ->
             (length t <= n)%nat -> (length r < n)%nat).
  { intros neg t n. destruct t as [|c r0]; [discriminate|]. cbn [length].
    destruct (c =? 48).
    - intros H Hn. apply (Hfin _ _ _ n) in H; lia.
    - destruct (is_digit c); [|discriminate].
      destruct (span_digits r0) as [d r'] eqn:E.
      apply span_digits_length in E.
      intros H Hn. apply (Hfin _ _ _ n) in H; lia. }
  destruct s as [|c r0]; [discriminate|].
  destruct (c =? 45).
  - intros H. apply (Hnum true r0 (length r0)) in H; cbn [length]; lia.
  - intros H. apply (Hnum false (c :: r0) (length (c :: r0))) in H; lia.
Qed.

Lemma strip_prefix_length p : forall s r,
  strip_prefix p s = Some r -> (length r <= length s)%nat.
Proof.
  induction p as [|a p IH]; intros s r; cbn [strip_prefix].
  - destruct s; intros [= <-]; reflexivity.
  - destruct s as [|b s]; [discriminate|].
    destruct (a =? b); [|discriminate].
    intros H. apply IH in H. cbn [length]. lia.
Qed.

Lemma parse_array_items_length scan n : forall s vs r,
  consumes scan ->
  parse_array_items scan n s = Some (vs, r) -> (length r < length s)%nat.
Proof.
  induction n as [|n IH]; intros s vs r Hscan; [discriminate|].
  cbn [parse_array_items].
  destruct (scan s) as [[v r0]|] eqn:E; [|discriminate].
  apply Hscan in E. pose proof (skip_ws_length r0) as Hw.
  destruct (skip_ws r0) as [|c r1]; [discriminate|]. cbn [length] in Hw.
  destruct (c =? 93); [intros [= <- <-]; lia|].
  destruct (c =? 44); [|discriminate].
  destruct (parse_array_items scan n (skip_ws r1)) as [[vs' r2]|] eqn:E2;
    [|discriminate].
  intros [= <- <-]. apply IH in E2; [|exact Hscan].
  pose proof (skip_ws_length r1). lia.
Qed.

Lemma parse_object_items_length scan n : forall s kvs r,
  consumes scan ->
  parse_object_items scan n s = Some (kvs, r) -> (length r < length s)%nat.
Proof.
  induction n as [|n IH]; intros s kvs r Hscan; [discriminate|].
  cbn [parse_object_items].
  destruct s as [|q r0]; [discriminate|]. cbn [length].
  destruct (q =? c_quote); [|discriminate].
  destruct (scanstring r0) as [[key r1]|] eqn:Es; [|discriminate].
  apply scanstring_length in Es. pose proof (skip_ws_length r1) as Hw1.
  destruct (skip_ws r1) as [|c r2]; [discriminate|]. cbn [length] in Hw1.
  destruct (c =? 58); [|discriminate].
  pose proof (skip_ws_length r2) as Hw2.
  destruct (scan (skip_ws r2)) as [[v r3]|] eqn:E; [|discriminate].
  apply Hscan in E. pose proof (skip_ws_length r3) as Hw3.
  destruct (skip_ws r3) as [|c' r4]; [discriminate|]. cbn [length] in Hw3.
  destruct (c' =? 125); [intros [= <- <-]; lia|].
  destruct (c' =? 44); [|discriminate].
  destruct (parse_object_items scan n (skip_ws r4)) as [[kvs' r5]|] eqn:E2;
    [|discriminate].
  intros [= <- <-]. apply IH in E2; [|exact Hscan].
  pose proof (skip_ws_length r4). lia.
Qed.

Lemma scan_once_consumes f : consumes (scan_once f).
Proof.
  induction f as [|f IH]; intros s v r; [discriminate|].
  cbn [scan_once]. destruct s as [|c r0]; [discriminate|]. cbn [length].
  destruct (c =? c_quote).
  { destruct (scanstring r0) as [[str r']|] eqn:E; [|discriminate].
    apply scanstring_length in E. intros [= <- <-]. lia. }
  destruct (c =? 123).
  { pose proof (skip_ws_length r0) as Hw.
    destruct (skip_ws r0) as [|c1 r1]; [discriminate|]. cbn [length] in Hw.
    destruct (c1 =? 125); [intros [= <- <-]; lia|].
    destruct (parse_object_items _ _ _) as [[kvs r2]|] eqn:E; [|discriminate].
    apply parse_object_items_length in E; [|exact IH].
    intros [= <- <-]. cbn [length] in E. lia. }
  destruct (c =? 91).
  { pose proof (skip_ws_length r0) as Hw.
    destruct (skip_ws r0) as [|c1 r1]; [discriminate|]. cbn [length] in Hw.
    destruct (c1 =? 93); [intros [= <- <-]; lia|].
    destruct (parse_array_items _ _ _) as [[vs r2]|] eqn:E; [|discriminate].
    apply parse_array_items_length in E; [|exact IH].
    intros [= <- <-]. cbn [length] in E. lia. }
  assert (Hlit : forall p (x : json),
             option_map (pair x) (strip_prefix p r0) = Some (v, r) ->
             (length r < S (length r0))%nat).
  { intros p x. destruct (strip_prefix p r0) as [r'|] eqn:E; [|discriminate].
    apply strip_prefix_length in E. intros [= <- <-]. lia. }
  destruct (c =? 110); [apply Hlit|].
  destruct (c =? 116); [apply Hlit|].
  destruct (c =? 102); [apply Hlit|].
  intros H. apply match_number_length in H. exact H.
Qed.

Lemma parse_array_items_fuel scan scan' n : forall n' s,
  consumes scan ->
  (forall t, (length t <= length s)%nat -> scan' t = scan t) ->
  (length s < n)%nat -> (n <= n')%nat ->
  parse_array_items scan' n' s = parse_array_items scan n s.
Proof.
  induction n as [|n IH]; intros n' s Hc Heq Hlen Hn; [lia|].
  destruct n' as [|n']; [lia|]. cbn [parse_array_items].
  rewrite Heq by reflexivity.
  destruct (scan s) as [[v r]|] eqn:E; [|reflexivity].
  apply Hc in E. pose proof (skip_ws_length r) as Hw.
  destruct (skip_ws r) as [|c r1]; [reflexivity|]. cbn [length] in Hw.
  destruct (c =? 93); [reflexivity|].
  destruct (c =? 44); [|reflexivity].
  pose proof (skip_ws_length r1) as Hw1.
  rewrite (IH n' (skip_ws r1)); [reflexivity|exact Hc| |lia|lia].
  intros t Ht. apply Heq. lia.
Qed.

Lemma parse_object_items_fuel scan scan' n : forall n' s,
  consumes scan ->
  (forall t, (length t <= length s)%nat -> scan' t = scan t) ->
  (length s < n)%nat -> (n <= n')%nat ->
  parse_object_items scan' n' s = parse_object_items scan n s.
Proof.
  induction n as [|n IH]; intros n' s Hc Heq Hlen Hn; [lia|].
  destruct n' as [|n']; [lia|]. cbn [parse_object_items].
  destruct s as [|q r0]; [reflexivity|]. cbn [length] in *.
  destruct (q =? c_quote); [|reflexivity].
  destruct (scanstring r0) as [[key r1]|] eqn:Es; [|reflexivity].
  apply scanstring_length in Es. pose proof (skip_ws_length r1) as Hw1.
  destruct (skip_ws r1) as [|c r2]; [reflexivity|]. cbn [length] in Hw1.
  destruct (c =? 58); [|reflexivity].
  pose proof (skip_ws_length r2) as Hw2.
  rewrite Heq by lia.
  destruct (scan (skip_ws r2)) as [[v r3]|] eqn:E; [|reflexivity].
  apply Hc in E. pose proof (skip_ws_length r3) as Hw3.
  destruct (skip_ws r3) as [|c' r4]; [reflexivity|]. cbn [length] in Hw3.
  destruct (c' =? 125); [reflexivity|].
  destruct (c' =? 44); [|reflexivity].
  pose proof (skip_ws_length r4) as Hw4.
  rewrite (IH n' (skip_ws r4)); [reflexivity|exact Hc| |lia|lia].
  intros t Ht. apply Heq. lia.
Qed.

(** [scan_once] gives the same result for every fuel above the length of
    its input. *)
Lemma scan_once_fuel f : forall f' s,
  (length s < f)%nat -> (f <= f')%nat -> scan_once f' s = scan_once f s.
Proof.
  induction f as [|f IH]; intros f' s Hlen Hf; [lia|].
  destruct f' as [|f']; [lia|]. cbn [scan_once].
  destruct s as [|c r0]; [reflexivity|]. cbn [length] in Hlen.
  destruct (c =? c_quote); [reflexivity|].
  destruct (c =? 123).
  { pose proof (skip_ws_length r0) as Hw.
    destruct (skip_ws r0) as [|c1 r1]; [reflexivity|].
    destruct (c1 =? 125); [reflexivity|].
    rewrite (parse_object_items_fuel (scan_once f) (scan_once f') f f');
      [reflexivity|apply scan_once_consumes| |lia|lia].
    intros t Ht. apply IH; lia. }
  destruct (c =? 91); [|reflexivity].
  pose proof (skip_ws_length r0) as Hw.
  destruct (skip_ws r0) as [|c1 r1]; [reflexivity|].
  destruct (c1 =? 93); [reflexivity|].
  rewrite (parse_array_items_fuel (scan_once f) (scan_once f') f f');
    [reflexivity|apply scan_once_consumes| |lia|lia].
  intros t Ht. apply IH; lia.
Qed.

(** So the fuel that [json_loads] passes is enough for every text. *)
Lemma json_loads_fuel s f :
  (S (length s) <= f)%nat ->
  scan_once f (skip_ws s) = scan_once (S (length s)) (skip_ws s).
Proof.
  intros Hf. apply scan_once_fuel; [|exact Hf].
  pose proof (skip_ws_length s). lia.
Qed.

(** ** Claims about the framing codec *)

Lemma decimal_value_acc d : forall acc,
  List.fold_left (fun acc c => 10 * acc + (c - 48)) (uint_chars d) (Npos acc)
  = Npos (Pos.of_uint_acc d acc).
Proof.
  induction d; intros acc; cbn [uint_chars List.fold_left Pos.of_uint_acc];
    [reflexivity|..]; rewrite <- IHd; f_equal; lia.
Qed.

Lemma decimal_value_uint d : decimal_value (uint_chars d) = Pos.of_uint d.
Proof.
  unfold decimal_value.
  induction d; cbn [uint_chars List.fold_left Pos.of_uint];
    [reflexivity|exact IHd|..]; apply decimal_value_acc.
Qed.

Lemma decimal_value_repr_nat n :
  decimal_value (repr_int (Z.of_nat n)) = N.of_nat n.
Proof.
  assert (E : repr_int (Z.of_nat n) = repr_N (N.of_nat n)).
  { unfold repr_int. destruct (Z.of_nat n) eqn:Ez; try lia;
      f_equal; lia. }
  rewrite E. unfold repr_N. rewrite decimal_value_uint.
  apply DecimalN.Unsigned.of_to.
Qed.

Lemma repr_nat_no_leading_zero n :
  repr_int (Z.of_nat n) = [48]
  \/ exists c r, repr_int (Z.of_nat n) = c :: r /\ c <> 48.
Proof.
  destruct (Z.of_nat n) as [|p|p] eqn:E; [now left| |lia].
  right. unfold repr_int, repr_N. cbn [Z.to_N N.to_uint].
  destruct (pos_to_uint_head p) as (c & d & _ & _ & Hc & ->).
  now exists c, (uint_chars d).
Qed.

(** C3.  For every request, [_Write] appends to the server's stdin the
    text [Content-Length: ], a decimal number, [\r\n\r\n] and the body,
    where the body is the UTF-8 encoding of the compact JSON text.  The
    number is written in decimal digits without a leading zero, and its
    value is the number of bytes of the body.  (The code counts the
    characters of the JSON text; the text is ASCII, so both counts are the
    same.) *)
Theorem C3_content_length_is_utf8_byte_count (request : json)
    (self : ClangdCompleter) :
  exists (body digits : bytes) (self' : ClangdCompleter),
    ToBytes (json_dumps request) = Ok body
    /\ _Write request self = Ok self'
    /\ _server_stdin self'
       = _server_stdin self
         ++ u "Content-Length: " ++ digits ++ [13; 10; 13; 10] ++ body
    /\ Forall (fun c => is_digit c = true) digits
    /\ (digits = [48] \/ exists c r, digits = c :: r /\ c <> 48)
    /\ decimal_value digits = N.of_nat (length body)
    /\ length body = length (json_dumps request).
Proof.
  exists (json_dumps request), (repr_int (Z.of_nat (length (json_dumps request)))).
  eexists. split; [apply ToBytes_ascii, json_dumps_ascii|].
  split.
  { unfold _Write. rewrite request_serialized_eq. reflexivity. }
  split.
  { cbn [set_stdin _server_stdin]. unfold header_line, CRLF.
    now rewrite <- !app_assoc. }
  split; [apply repr_nat_digits|].
  split; [apply repr_nat_no_leading_zero|].
  split; [apply decimal_value_repr_nat|reflexivity].
Qed.

(** Two requests and the bytes that [_Write] sends for them: a body of
    thirteen bytes, and a body whose text has characters outside ASCII
    (written as escapes). *)
Lemma C3_content_length_is_utf8_byte_count_witness :
  (exists (body digits : bytes) (self' : ClangdCompleter),
     ToBytes (json_dumps (JList [JInt 1; JInt 2; JInt 3; JInt 4; JInt 5; JInt 6]))
     = Ok body
     /\ _Write (JList [JInt 1; JInt 2; JInt 3; JInt 4; JInt 5; JInt 6]) init
        = Ok self'
     /\ _server_stdin self'
        = _server_stdin init
          ++ u "Content-Length: " ++ digits ++ [13; 10; 13; 10] ++ body
     /\ Forall (fun c => is_digit c = true) digits
     /\ (digits = [48] \/ exists c r, digits = c :: r /\ c <> 48)
     /\ decimal_value digits = N.of_nat (length body)
     /\ length body
        = length (json_dumps (JList [JInt 1; JInt 2; JInt 3; JInt 4; JInt 5;
                                     JInt 6])))
  /\ (exists self',
        _Write (JList [JInt 1; JInt 2; JInt 3; JInt 4; JInt 5; JInt 6]) init
        = Ok self'
        /\ _server_stdin self'
           = u "Content-Length: 13" ++ [13; 10; 13; 10] ++ u "[1,2,3,4,5,6]")
  /\ (exists self',
        _Write (JList [JStr [233; 0x1F600]]) init = Ok self'
        /\ _server_stdin self'
           = u "Content-Length: 22" ++ [13; 10; 13; 10]
             ++ [91; c_quote] ++ u "\u00e9\ud83d\ude00" ++ [c_quote; 93]).
Proof.
  split.
  { exact (C3_content_length_is_utf8_byte_count
             (JList [JInt 1; JInt 2; JInt 3; JInt 4; JInt 5; JInt 6]) init). }
  split; eexists; (split; [reflexivity|vm_compute; reflexivity]).
Defined.

(** X22.  The framing codec round trip, for messages without
    floating-point numbers.  For every message [m] that is a dict with
    distinct string keys, all of whose strings are sequences of Unicode
    scalar values (also outside ASCII), [_Write] appends one frame to the
    server's stdin and changes nothing else, and [_Read] on that frame
    returns [m] and leaves on the stream what followed the frame. *)
Theorem X22_float_free_round_trip (m : json) (self : ClangdCompleter)
    (rest : bytes) (e : bool) :
  valid_message m = true ->
  exists (frame : bytes) (self' : ClangdCompleter),
    _Write m self = Ok self'
    /\ wrote frame self self'
    /\ frame <> []
    /\ _Read {| buf := frame ++ rest; eof := e |}
       = Returned m {| buf := rest; eof := e |}.
Proof.
  intros Hm.
  assert (Hv : valid_json m = true) by (destruct m; try discriminate; exact Hm).
  do 2 eexists. split.
  { unfold _Write. rewrite request_serialized_eq. reflexivity. }
  split; [repeat split|]. split; [discriminate|].
  now apply _Read_frame.
Qed.

Lemma X22_float_free_round_trip_witness :
  valid_message sample_message = true
  /\ exists (frame : bytes) (self' : ClangdCompleter),
    _Write sample_message init = Ok self'
    /\ wrote frame init self'
    /\ frame <> []
    /\ _Read {| buf := frame ++ [1; 2; 3]; eof := false |}
       = Returned sample_message {| buf := [1; 2; 3]; eof := false |}.
Proof.
  assert (H : valid_message sample_message = true) by (vm_compute; reflexivity).
  split; [exact H|].
  exact (X22_float_free_round_trip sample_message init [1; 2; 3] false H).
Defined.

(** ** The reader loop and the gate *)

Lemma _ReaderLoop_body_stopped self :
  _server_is_running self = false -> _ReaderLoop_body self = LoopBlocked.
Proof. intros H. unfold _ReaderLoop_body. now rewrite H. Qed.

Lemma step_reader_stopped σ :
  _server_is_running (completer σ) = false -> step LReader σ = None.
Proof.
  intros H. cbn [step]. rewrite (_ReaderLoop_body_stopped _ H).
  now destruct (reader_died σ).
Qed.

Lemma _BuildRequest_running method params b self :
  _server_is_running (snd (_BuildRequest method params b self))
  = _server_is_running self.
Proof. unfold _BuildRequest. destruct b, params; reflexivity. Qed.

Lemma _Write_running request self self' :
  _Write request self = Ok self' ->
  _server_is_running self' = _server_is_running self.
Proof.
  unfold _Write. destruct (request_serialized request); cbn [bind]; [|easy].
  now intros [= <-].
Qed.

(** Only [_StartServer] sets the gate: while it is clear, every other step
    leaves it clear and leaves the reader thread as it is. *)
Lemma step_keeps_stopped l σ σ' :
  l <> LStartServer ->
  _server_is_running (completer σ) = false ->
  step l σ = Some σ' ->
  _server_is_running (completer σ') = false /\ reader_died σ' = reader_died σ.
Proof.
  intros Hl Hr. destruct l; cbn [step]; try congruence.
  - pose proof (_BuildRequest_running method params true (completer σ)) as E.
    destruct (_BuildRequest method params true (completer σ)) as [rq self'].
    intros [= <-]. cbn in *. split; congruence.
  - destruct (callers σ !! i) as [[rq| | | |]|]; try discriminate.
    unfold _SendRequest_register.
    destruct (bind _ _); intros [= <-]; cbn; auto.
  - destruct (callers σ !! i) as [[|rq d| | |]|]; try discriminate.
    destruct (_Write rq (completer σ)) eqn:E; intros [= <-]; cbn; auto.
    apply _Write_running in E. split; congruence.
  - destruct (callers σ !! i) as [[| |d| |]|]; try discriminate.
    destruct (_SendRequest_result d (completer σ) elapsed);
      try discriminate; intros [= <-]; cbn; auto.
  - unfold _Notify.
    pose proof (_BuildRequest_running method params false (completer σ)) as E.
    destruct (_BuildRequest method params false (completer σ)) as [rq self'].
    cbn [snd] in E.
    destruct (_Write rq self') eqn:W; intros [= <-]; cbn; auto.
    apply _Write_running in W. split; congruence.
  - rewrite (_ReaderLoop_body_stopped _ Hr). now destruct (reader_died σ).
  - unfold take_diagnostics.
    destruct (Event_wait _ _ _); [|discriminate]. intros [= <-]; cbn; auto.
  - destruct (eof _); [discriminate|]. intros [= <-]; cbn; auto.
  - intros [= <-]; cbn; auto.
Qed.

Lemma run_keeps_stopped ls : forall σ σ',
  ~ In LStartServer ls ->
  _server_is_running (completer σ) = false ->
  run ls σ = Some σ' ->
  _server_is_running (completer σ') = false /\ reader_died σ' = reader_died σ.
Proof.
  induction ls as [|l ls IH]; intros σ σ' Hls Hr; cbn [run].
  - intros [= <-]. auto.
  - destruct (step l σ) as [σ1|] eqn:E; [|discriminate]. intros Hrun.
    destruct (step_keeps_stopped l σ σ1) as [Hr1 Hd1]; auto.
    { intros ->. apply Hls. now left. }
    destruct (IH σ1 σ') as [Hr' Hd']; auto.
    { intros Hin. apply Hls. now right. }
    split; congruence.
Qed.

Lemma decoded_after_restart σ m :
  reader_died σ = None -> valid_json m = true ->
  exists frame σ3,
    request_serialized m = Ok frame
    /\ run [LStartServer; LServerWrite frame] σ = Some σ3
    /\ decoded_by LReader σ3 = Some m.
Proof.
  intros Hd Hm. do 2 eexists. split; [apply request_serialized_eq|].
  split; [reflexivity|].
  unfold decoded_by.
  cbn [reader_died set_completer completer _server_is_running
       _StartServer_spawn set_running set_stdout set_stdin _server_stdout
       negb app buf eof].
  rewrite Hd.
  pose proof (_Read_frame m [] false Hm) as HR.
  rewrite List.app_nil_r in HR. now rewrite HR.
Qed.

(** C8.  A round of the reader loop in which [_Read] raises (stream
    closed, malformed framing, process gone) does not end the worker: the
    failure is logged, the running flag is cleared, and the loop goes to its
    next round.  There it is blocked, and stays blocked whatever else
    happens, until [_StartServer] sets the flag again; after that it reads
    the next message that the new server sends. *)
Theorem C8_reader_survives_decode_failure (σ : system) (e : exn) (out : stream) :
  reader_died σ = None ->
  _server_is_running (completer σ) = true ->
  _Read (_server_stdout (completer σ)) = Raised e out ->
  exists σ',
    step LReader σ = Some σ'
    /\ reader_died σ' = None
    /\ _server_is_running (completer σ') = false
    /\ _logger (completer σ')
       = _logger (completer σ) ++ [(SERVER_NOT_RUNNING_MESSAGE, e)]
    /\ (forall ls σ'',
          ~ In LStartServer ls -> run ls σ' = Some σ'' ->
          step LReader σ'' = None /\ reader_died σ'' = None
          /\ forall m, valid_message m = true ->
               exists frame σ3,
                 request_serialized m = Ok frame
                 /\ run [LStartServer; LServerWrite frame] σ'' = Some σ3
                 /\ decoded_by LReader σ3 = Some m).
Proof.
  intros Halive Hrun Hread.
  eexists. split.
  { cbn [step]. rewrite Halive. unfold _ReaderLoop_body.
    rewrite Hrun, Hread. cbn [negb]. reflexivity. }
  cbn. repeat split; auto.
  - apply step_reader_stopped.
    eapply run_keeps_stopped; [eassumption| |eassumption]. reflexivity.
  - transitivity (reader_died σ); [|exact Halive].
    change (reader_died σ) with
      (reader_died
         (set_completer
            (set_running false
               (log_exception SERVER_NOT_RUNNING_MESSAGE e
                  (set_stdout out (completer σ)))) σ)).
    eapply run_keeps_stopped; [eassumption| |eassumption]. reflexivity.
  - intros m Hm.
    apply decoded_after_restart; [|destruct m; try discriminate; exact Hm].
    transitivity (reader_died σ); [|exact Halive].
    change (reader_died σ) with
      (reader_died
         (set_completer
            (set_running false
               (log_exception SERVER_NOT_RUNNING_MESSAGE e
                  (set_stdout out (completer σ)))) σ)).
    eapply run_keeps_stopped; [eassumption| |eassumption]. reflexivity.
Qed.

Lemma C8_reader_survives_decode_failure_witness :
  reader_died malformed_system = None
  /\ _server_is_running (completer malformed_system) = true
  /\ _Read (_server_stdout (completer malformed_system))
     = Raised (RuntimeError "Missing 'Content-Length' header")
         {| buf := u "{}"; eof := false |}
  /\ exists σ',
    step LReader malformed_system = Some σ'
    /\ reader_died σ' = None
    /\ _server_is_running (completer σ') = false
    /\ _logger (completer σ')
       = _logger (completer malformed_system)
         ++ [(SERVER_NOT_RUNNING_MESSAGE,
              RuntimeError "Missing 'Content-Length' header")]
    /\ (forall ls σ'',
          ~ In LStartServer ls -> run ls σ' = Some σ'' ->
          step LReader σ'' = None /\ reader_died σ'' = None
          /\ forall m, valid_message m = true ->
               exists frame σ3,
                 request_serialized m = Ok frame
                 /\ run [LStartServer; LServerWrite frame] σ'' = Some σ3
                 /\ decoded_by LReader σ3 = Some m).
Proof.
  split; [reflexivity|]. split; [reflexivity|]. split; [reflexivity|].
  apply (C8_reader_survives_decode_failure malformed_system
           (RuntimeError "Missing 'Content-Length' header")
           {| buf := u "{}"; eof := false |}); reflexivity.
Defined.

(** ** Replies and waiters *)

Lemma dispatch_resolves message self k d :
  resolves message self = Some (k, d) ->
  dispatch message self =
  LoopContinue
    (set_pending (delete k (_pending self))
       (alter (resolve message) d (heap self)) self).
Proof.
  unfold resolves, reply_id, dispatch.
  destruct (py_in (u "id") message) as [[]|]; try discriminate.
  destruct (bind _ _) as [k'|]; try discriminate.
  destruct (_pending self !! k') as [d'|]; try discriminate.
  now intros [= -> ->].
Qed.

Lemma resolves_lookup message self k d :
  reply_id message = Some k -> _pending self !! k = Some d ->
  resolves message self = Some (k, d).
Proof. intros Hk Hd. unfold resolves. now rewrite Hk, Hd. Qed.

Lemma result_resolved d self message dr elapsed :
  heap self !! d = Some (resolve message dr) ->
  _SendRequest_result d self elapsed = Returned message tt.
Proof. intros H. unfold _SendRequest_result. now rewrite H. Qed.

Lemma result_unresolved d self dr :
  heap self !! d = Some dr -> _event dr = false ->
  _SendRequest_result d self true = Raised (RuntimeError "Response Timeout") tt
  /\ _SendRequest_result d self false = Blocked.
Proof.
  intros H E. unfold _SendRequest_result, DeferredResponse_result, Event_wait.
  now rewrite H, E.
Qed.

(** C1, as the code has it.  When the deadline of an [_Invoke] passes with
    no reply, the call fails with [RuntimeError( 'Response Timeout' )] and
    nothing else changes: the caller's entry stays in the pending table.  A
    reply for that id that arrives later is delivered to the abandoned
    deferred, and only then is the entry removed. *)
Theorem C1_timeout_leaves_pending_entry (σ : system) (i d : nat)
    (dr : DeferredResponse) (k : pykey) :
  callers σ !! i = Some (CWaiting d) ->
  heap (completer σ) !! d = Some dr ->
  _event dr = false ->
  _pending (completer σ) !! k = Some d ->
  exists σ',
    step (LResult i true) σ = Some σ'
    /\ callers σ' !! i = Some (CRaised (RuntimeError "Response Timeout"))
    /\ completer σ' = completer σ
    /\ _pending (completer σ') !! k = Some d
    /\ forall message,
         reply_id message = Some k ->
         exists self',
           dispatch message (completer σ') = LoopContinue self'
           /\ heap self' !! d = Some (resolve message dr)
           /\ (exists dr', heap self' !! d = Some dr'
                           /\ _event dr' = true /\ _message dr' = message)
           /\ _pending self' !! k = None.
Proof.
  intros Hi Hd He Hk.
  destruct (result_unresolved d (completer σ) dr Hd He) as [Ht _].
  eexists. split; [cbn [step]; rewrite Hi, Ht; reflexivity|].
  cbn [set_caller callers completer]. repeat split; auto.
  - apply list_lookup_insert_eq. now apply lookup_lt_Some in Hi.
  - intros message Hm. eexists. split.
    + apply dispatch_resolves, resolves_lookup; eassumption.
    + assert (Hh : alter (resolve message) d (heap (completer σ)) !! d
                   = Some (resolve message dr))
        by (rewrite list_lookup_alter_eq, Hd; reflexivity).
      cbn. split; [exact Hh|]. split; [|apply lookup_delete_eq].
      exists (resolve message dr). split; [exact Hh|]. split; reflexivity.
Qed.

(** C1 fails on the code: after the timeout the entry for id 0 is still in
    the pending table, and the reply that arrives afterwards is delivered
    to the deferred of the caller that gave up. *)
Lemma C1_counterexample :
  exists σ σ',
    run (invoke_labels ++ [LResult 0 true]) init_system = Some σ
    /\ callers σ !! 0%nat = Some (CRaised (RuntimeError "Response Timeout"))
    /\ _pending (completer σ) !! KInt 0 = Some 0%nat
    /\ _pending (completer σ) !! KInt 0 <> None
    /\ run [LServerWrite (frame_of late_reply); LReader] σ = Some σ'
    /\ heap (completer σ') !! 0%nat
       = Some (resolve late_reply DeferredResponse_init).
Proof.
  do 2 eexists.
  split; [vm_compute; reflexivity|].
  split; [vm_compute; reflexivity|].
  split; [vm_compute; reflexivity|].
  split; [vm_compute; discriminate|].
  split; vm_compute; reflexivity.
Qed.

Lemma C1_timeout_leaves_pending_entry_witness :
  callers waiting_system !! 0%nat = Some (CWaiting 0)
  /\ heap (completer waiting_system) !! 0%nat = Some DeferredResponse_init
  /\ _event DeferredResponse_init = false
  /\ _pending (completer waiting_system) !! KInt 0 = Some 0%nat
  /\ exists σ',
    step (LResult 0 true) waiting_system = Some σ'
    /\ callers σ' !! 0%nat = Some (CRaised (RuntimeError "Response Timeout"))
    /\ completer σ' = completer waiting_system
    /\ _pending (completer σ') !! KInt 0 = Some 0%nat
    /\ forall message,
         reply_id message = Some (KInt 0) ->
         exists self',
           dispatch message (completer σ') = LoopContinue self'
           /\ heap self' !! 0%nat = Some (resolve message DeferredResponse_init)
           /\ (exists dr', heap self' !! 0%nat = Some dr'
                           /\ _event dr' = true /\ _message dr' = message)
           /\ _pending self' !! KInt 0 = None.
Proof.
  assert (H1 : callers waiting_system !! 0%nat = Some (CWaiting 0))
    by (vm_compute; reflexivity).
  assert (H2 : heap (completer waiting_system) !! 0%nat
               = Some DeferredResponse_init) by (vm_compute; reflexivity).
  assert (H3 : _pending (completer waiting_system) !! KInt 0 = Some 0%nat)
    by (vm_compute; reflexivity).
  repeat (split; [first [exact H1 | exact H2 | exact H3 | reflexivity]|]).
  exact (C1_timeout_leaves_pending_entry waiting_system 0 0
           DeferredResponse_init (KInt 0) H1 H2 eq_refl H3).
Defined.

(** C4 fails on the code: a reply with an [error] field makes [_Invoke]
    return that reply, not fail; a reply with a [result] field makes it
    return the whole reply, not the field.  A caller that subscripts
    ['result'], as [ComputeCandidatesInner] does, gets a [KeyError] for the
    error reply. *)
Lemma C4_counterexample :
  exists σ1 σ2,
    run [LServerWrite (frame_of error_reply); LReader; LResult 0 false]
      waiting_system = Some σ1
    /\ callers σ1 !! 0%nat = Some (CReturned error_reply)
    /\ ComputeCandidatesInner_return error_reply = Err (KeyError (u "result"))
    /\ run [LServerWrite (frame_of late_reply); LReader; LResult 0 false]
         waiting_system = Some σ2
    /\ callers σ2 !! 0%nat = Some (CReturned late_reply)
    /\ getitem late_reply (u "result") = Ok (JDict [(u "capabilities", JDict [])])
    /\ late_reply <> JDict [(u "capabilities", JDict [])].
Proof.
  do 2 eexists.
  split; [vm_compute; reflexivity|].
  split; [vm_compute; reflexivity|].
  split; [vm_compute; reflexivity|].
  split; [vm_compute; reflexivity|].
  split; [vm_compute; reflexivity|].
  split; [vm_compute; reflexivity|].
  discriminate.
Qed.

(** C4, as the code has it.  When the reply for a pending id is read while
    its caller waits, [_Invoke] returns the whole reply message, whether it
    carries a [result] or an [error] field, and whether or not the deadline
    has passed in the meantime; it raises nothing. *)
Theorem C4_invoke_returns_whole_reply (σ : system) (i d : nat)
    (dr : DeferredResponse) (k : pykey) (message : json) :
  callers σ !! i = Some (CWaiting d) ->
  heap (completer σ) !! d = Some dr ->
  _pending (completer σ) !! k = Some d ->
  reply_id message = Some k ->
  exists self',
    dispatch message (completer σ) = LoopContinue self'
    /\ forall elapsed,
         _SendRequest_result d self' elapsed = Returned message tt
         /\ exists σ',
              step (LResult i elapsed) (set_completer self' σ) = Some σ'
              /\ callers σ' !! i = Some (CReturned message).
Proof.
  intros Hi Hd Hk Hm. eexists. split.
  { apply dispatch_resolves, resolves_lookup; eassumption. }
  intros elapsed.
  assert (Hr : forall el,
    _SendRequest_result d
      (set_pending (delete k (_pending (completer σ)))
         (alter (resolve message) d (heap (completer σ))) (completer σ)) el
    = Returned message tt).
  { intros el. apply (result_resolved _ _ _ dr). cbn [heap set_pending].
    now rewrite list_lookup_alter_eq, Hd. }
  split; [apply Hr|].
  eexists. split.
  - cbn [step set_completer callers completer]. rewrite Hi, Hr. reflexivity.
  - cbn [set_caller callers]. apply list_lookup_insert_eq.
    now apply lookup_lt_Some in Hi.
Qed.

Lemma C4_invoke_returns_whole_reply_witness :
  callers waiting_system !! 0%nat = Some (CWaiting 0)
  /\ heap (completer waiting_system) !! 0%nat = Some DeferredResponse_init
  /\ _pending (completer waiting_system) !! KInt 0 = Some 0%nat
  /\ reply_id error_reply = Some (KInt 0)
  /\ exists self',
    dispatch error_reply (completer waiting_system) = LoopContinue self'
    /\ forall elapsed,
         _SendRequest_result 0 self' elapsed = Returned error_reply tt
         /\ exists σ',
              step (LResult 0 elapsed) (set_completer self' waiting_system)
              = Some σ'
              /\ callers σ' !! 0%nat = Some (CReturned error_reply).
Proof.
  assert (H1 : callers waiting_system !! 0%nat = Some (CWaiting 0))
    by (vm_compute; reflexivity).
  assert (H2 : heap (completer waiting_system) !! 0%nat
               = Some DeferredResponse_init) by (vm_compute; reflexivity).
  assert (H3 : _pending (completer waiting_system) !! KInt 0 = Some 0%nat)
    by (vm_compute; reflexivity).
  assert (H4 : reply_id error_reply = Some (KInt 0))
    by (vm_compute; reflexivity).
  repeat (split; [first [exact H1 | exact H2 | exact H3 | exact H4]|]).
  exact (C4_invoke_returns_whole_reply waiting_system 0 0
           DeferredResponse_init (KInt 0) error_reply H1 H2 H3 H4).
Defined.

(** ** The facade and the gate *)

Lemma _BuildRequest_id method params self :
  getitem (fst (_BuildRequest method params true self)) (u "id")
  = Ok (JInt (_sequenceid self))
  /\ snd (_BuildRequest method params true self)
     = set_sequenceid (_sequenceid self + 1) self.
Proof. unfold _BuildRequest. destruct params; split; reflexivity. Qed.

Lemma _BuildRequest_notification method params self :
  snd (_BuildRequest method params false self) = self.
Proof. unfold _BuildRequest. destruct params; reflexivity. Qed.

(** C5, as the code has it.  [_Notify] and [_Invoke] never read the
    running gate.  On two objects that differ at most in the flag they do
    the same: the same error, or the same bytes written, the same deferred
    registered under the same id and the same wait on it; and they leave
    the flag as it was.  So with the flag clear they do what they do with
    it set, and do not fail fast.  Where the write does not raise,
    [_Notify] has then written its frame and returns, and [_Invoke] has
    registered its deferred and written its frame, is blocked before the
    deadline and fails with [RuntimeError( 'Response Timeout' )] at it. *)
Theorem C5_facade_ignores_gate (method params : json)
    (s1 s2 : ClangdCompleter) (d : nat) (elapsed : bool) :
  same_but_gate s1 s2 ->
  match _Notify method params s1, _Notify method params s2 with
  | Ok r1, Ok r2 =>
    same_but_gate r1 r2
    /\ _server_is_running r1 = _server_is_running s1
    /\ _server_is_running r2 = _server_is_running s2
  | Err e1, Err e2 => e1 = e2
  | _, _ => False
  end
  /\ match _Invoke_send method params s1, _Invoke_send method params s2 with
     | Ok (a1, r1), Ok (a2, r2) =>
       a1 = a2
       /\ same_but_gate r1 r2
       /\ _server_is_running r1 = _server_is_running s1
       /\ _server_is_running r2 = _server_is_running s2
     | Err e1, Err e2 => e1 = e2
     | _, _ => False
     end
  /\ _SendRequest_result d s1 elapsed = _SendRequest_result d s2 elapsed
  /\ (forall r,
        _server_is_running s1 = false ->
        _Notify method params s1 = Ok r ->
        _server_is_running r = false
        /\ exists frame, frame <> []
                         /\ _server_stdin r = _server_stdin s1 ++ frame)
  /\ (forall d' r,
        _server_is_running s1 = false ->
        _Invoke_send method params s1 = Ok (d', r) ->
        _server_is_running r = false
        /\ (exists frame, frame <> []
                          /\ _server_stdin r = _server_stdin s1 ++ frame)
        /\ _pending r !! KInt (_sequenceid s1) = Some d'
        /\ _SendRequest_result d' r false = Blocked
        /\ _SendRequest_result d' r true
           = Raised (RuntimeError "Response Timeout") tt).
Proof.
  intros Hs.
  assert (Hn : forall s, exists frame,
             frame <> []
             /\ _Notify method params s
                = Ok (set_stdin (_server_stdin s ++ frame) s)
             /\ frame = frame_of (fst (_BuildRequest method params false s))).
  { intros s. unfold _Notify.
    pose proof (_BuildRequest_notification method params s) as E.
    destruct (_BuildRequest method params false s) as [rq s'].
    cbn [fst snd] in *. subst s'.
    exists (frame_of rq). unfold _Write, frame_of.
    rewrite request_serialized_eq. cbn [bind].
    split; [discriminate|]. split; reflexivity. }
  assert (Hi : forall s, exists frame,
             frame <> []
             /\ _Invoke_send method params s
                = Ok (length (heap s),
                      set_stdin (_server_stdin s ++ frame)
                        (set_pending
                           (<[KInt (_sequenceid s) := length (heap s)]>
                              (_pending s))
                           (heap s ++ [DeferredResponse_init])
                           (set_sequenceid (_sequenceid s + 1) s)))
             /\ frame = frame_of (fst (_BuildRequest method params true s))).
  { intros s. unfold _Invoke_send.
    destruct (_BuildRequest_id method params s) as [Eid Es].
    destruct (_BuildRequest method params true s) as [rq s'].
    cbn [fst snd] in *. subst s'.
    exists (frame_of rq).
    unfold _SendRequest_send, _SendRequest_register, _Write, frame_of.
    rewrite Eid, request_serialized_eq. cbn [bind hash_key].
    split; [discriminate|]. split; reflexivity. }
  destruct Hs as (E1 & E2 & E3 & E4 & E5 & E6 & E7 & E8).
  assert (Hrq : forall b, fst (_BuildRequest method params b s1)
                          = fst (_BuildRequest method params b s2)).
  { intros b. unfold _BuildRequest.
    destruct b, params; cbn [fst]; rewrite ?E3; reflexivity. }
  split.
  { destruct (Hn s1) as (f1 & _ & -> & F1).
    destruct (Hn s2) as (f2 & _ & -> & F2).
    rewrite Hrq in F1. subst f1 f2.
    cbn [set_stdin _server_stdin _server_stdout _sequenceid _pending
         _diagnostics _has_diagnostics heap _logger _server_is_running].
    rewrite E1. repeat split; assumption. }
  split.
  { destruct (Hi s1) as (f1 & _ & -> & F1).
    destruct (Hi s2) as (f2 & _ & -> & F2).
    rewrite Hrq in F1. subst f1 f2.
    unfold same_but_gate.
    cbn [set_stdin set_pending set_sequenceid _server_stdin _server_stdout
         _sequenceid _pending _diagnostics _has_diagnostics heap _logger
         _server_is_running].
    rewrite E1, E3, E4, E7. repeat split; assumption. }
  split.
  { unfold _SendRequest_result. now rewrite E7. }
  split.
  { intros r Hoff. destruct (Hn s1) as (f1 & Hne & -> & _).
    intros [= <-]. cbn [set_stdin _server_is_running _server_stdin].
    split; [exact Hoff|]. now exists f1. }
  intros d' r Hoff. destruct (Hi s1) as (f1 & Hne & -> & _).
  intros [= <- <-].
  cbn [set_stdin set_pending set_sequenceid _server_is_running
       _server_stdin _pending _sequenceid].
  split; [exact Hoff|]. split; [now exists f1|].
  split; [apply lookup_insert_eq|].
  apply and_comm.
  apply (result_unresolved _ _ DeferredResponse_init); [|reflexivity].
  cbn [heap set_stdin set_pending set_sequenceid].
  now apply list_lookup_middle.
Qed.

(** The object of the start with the flag cleared, beside the object of
    the start: the two differ in the flag only, and both calls go through
    with the flag clear. *)
Lemma C5_facade_ignores_gate_witness :
  let method := JStr (u "textDocument/didOpen") in
  let s1 := set_running false init in
  same_but_gate s1 init
  /\ (exists r d' r',
        _server_is_running s1 = false
        /\ _Notify method JNull s1 = Ok r
        /\ _Invoke_send method JNull s1 = Ok (d', r'))
  /\ match _Notify method JNull s1, _Notify method JNull init with
     | Ok r1, Ok r2 =>
       same_but_gate r1 r2
       /\ _server_is_running r1 = _server_is_running s1
       /\ _server_is_running r2 = _server_is_running init
     | Err e1, Err e2 => e1 = e2
     | _, _ => False
     end
  /\ match _Invoke_send method JNull s1, _Invoke_send method JNull init with
     | Ok (a1, r1), Ok (a2, r2) =>
       a1 = a2
       /\ same_but_gate r1 r2
       /\ _server_is_running r1 = _server_is_running s1
       /\ _server_is_running r2 = _server_is_running init
     | Err e1, Err e2 => e1 = e2
     | _, _ => False
     end
  /\ _SendRequest_result 0 s1 true = _SendRequest_result 0 init true
  /\ (forall r,
        _server_is_running s1 = false ->
        _Notify method JNull s1 = Ok r ->
        _server_is_running r = false
        /\ exists frame, frame <> []
                         /\ _server_stdin r = _server_stdin s1 ++ frame)
  /\ (forall d' r,
        _server_is_running s1 = false ->
        _Invoke_send method JNull s1 = Ok (d', r) ->
        _server_is_running r = false
        /\ (exists frame, frame <> []
                          /\ _server_stdin r = _server_stdin s1 ++ frame)
        /\ _pending r !! KInt (_sequenceid s1) = Some d'
        /\ _SendRequest_result d' r false = Blocked
        /\ _SendRequest_result d' r true
           = Raised (RuntimeError "Response Timeout") tt).
Proof.
  intros method s1.
  assert (H : same_but_gate s1 init) by (repeat split).
  split; [exact H|]. split.
  { do 3 eexists. split; [reflexivity|].
    split; vm_compute; reflexivity. }
  exact (C5_facade_ignores_gate method JNull s1 init 0 true H).
Defined.

(** C5 fails on the code: the reader has cleared the gate after a malformed
    frame; a notification is then written to the server's stdin and the
    call returns, and an invoke is written too and its caller is left
    blocked on the deferred. *)
Lemma C5_counterexample :
  exists σ0 σ1 σ2,
    run [LReader] malformed_system = Some σ0
    /\ _server_is_running (completer σ0) = false
    /\ run [LNotify (JStr (u "textDocument/didOpen")) JNull] σ0 = Some σ1
    /\ _server_stdin (completer σ1)
       = frame_of (JDict [(u "jsonrpc", JStr (u "2.0"));
                          (u "method", JStr (u "textDocument/didOpen"))])
    /\ run invoke_labels σ0 = Some σ2
    /\ callers σ2 !! 0%nat = Some (CWaiting 0)
    /\ _server_stdin (completer σ2) <> []
    /\ step (LResult 0 false) σ2 = None.
Proof.
  do 3 eexists.
  split; [vm_compute; reflexivity|].
  split; [vm_compute; reflexivity|].
  split; [vm_compute; reflexivity|].
  split; [vm_compute; reflexivity|].
  split; [vm_compute; reflexivity|].
  split; [vm_compute; reflexivity|].
  split; [vm_compute; discriminate|].
  vm_compute; reflexivity.
Qed.

(** ** The diagnostics slot *)

(** C6, as the code has it.  [GetDiagnosticsForCurrentFile] waits for the
    unread flag without a timeout: while the flag is clear it is blocked,
    however much time has passed, and it never fails for lack of a
    document.  When the flag is set it reads and empties the slot and
    clears the flag in one step, then converts the document it read. *)
Theorem C6_take_blocks_without_timeout
    (cvt : ustring -> json -> result Z) (rd : request_data)
    (self : ClangdCompleter) (elapsed : bool) :
  match GetDiagnosticsForCurrentFile cvt rd self elapsed with
  | Blocked => _has_diagnostics self = false
  | Raised e self' =>
    _has_diagnostics self = true
    /\ self' = set_diagnostics JNull false self
    /\ _diagnostics self' = JNull /\ _has_diagnostics self' = false
    /\ convert_diagnostics cvt rd (_diagnostics self) = Err e
  | Returned res self' =>
    _has_diagnostics self = true
    /\ self' = set_diagnostics JNull false self
    /\ _diagnostics self' = JNull /\ _has_diagnostics self' = false
    /\ convert_diagnostics cvt rd (_diagnostics self) = Ok res
  end.
Proof.
  unfold GetDiagnosticsForCurrentFile, take_diagnostics, Event_wait.
  destruct (_has_diagnostics self); [|reflexivity].
  destruct (convert_diagnostics cvt rd (_diagnostics self)); repeat split.
Qed.

(** C6 fails on the code: with no diagnostics published the call is still
    blocked after any timeout has run out; it does not fail. *)
Lemma C6_counterexample :
  _has_diagnostics init = false
  /\ GetDiagnosticsForCurrentFile ascii_offset sample_request_data init true
     = Blocked
  /\ step (LTake true) init_system = None.
Proof. repeat split. Qed.

Lemma step_quiet_slot l σ σ' :
  step l σ = Some σ' -> slot_quiet l σ = true ->
  _diagnostics (completer σ') = _diagnostics (completer σ)
  /\ _has_diagnostics (completer σ') = _has_diagnostics (completer σ).
Proof.
  destruct l; cbn [step slot_quiet]; try discriminate.
  - unfold _BuildRequest.
    destruct params; intros [= <-] _; split; reflexivity.
  - destruct (callers σ !! i) as [[rq| | | |]|]; try discriminate.
    unfold _SendRequest_register.
    destruct (bind _ _); intros [= <-] _; split; reflexivity.
  - destruct (callers σ !! i) as [[|rq d| | |]|]; try discriminate.
    unfold _Write. destruct (request_serialized rq); cbn [bind];
      intros [= <-] _; split; reflexivity.
  - destruct (callers σ !! i) as [[| |d| |]|]; try discriminate.
    destruct (_SendRequest_result d (completer σ) elapsed);
      try discriminate; intros [= <-] _; split; reflexivity.
  - unfold _Notify, _BuildRequest, _Write.
    destruct params; cbn zeta;
      destruct (request_serialized _); cbn [bind];
      intros [= <-] _; split; reflexivity.
  - unfold decoded_by, _ReaderLoop_body.
    destruct (reader_died σ); [discriminate|].
    destruct (negb (_server_is_running (completer σ))); [discriminate|].
    destruct (_Read (_server_stdout (completer σ))) as [|e out|message out];
      [discriminate|intros [= <-] _; split; reflexivity|].
    unfold dispatch, is_publish.
    destruct (py_in (u "id") message) as [[]|].
    + destruct (bind _ _) as [k|].
      * cbn [_pending set_stdout].
        destruct (_pending (completer σ) !! k);
          intros [= <-] _; split; reflexivity.
      * intros [= <-] _; split; reflexivity.
    + destruct (getitem message (u "method")) as [method|].
      * destruct (is_str PUBLISH_DIAGNOSTICS method); [discriminate|].
        intros [= <-] _; split; reflexivity.
      * intros [= <-] _; split; reflexivity.
    + intros [= <-] _; split; reflexivity.
  - destruct (eof _); [discriminate|]. intros [= <-] _; split; reflexivity.
  - intros [= <-] _; split; reflexivity.
  - intros [= <-] _; split; reflexivity.
Qed.

Lemma run_quiet_slot ls : forall σ σ',
  run ls σ = Some σ' -> run_quiet ls σ = true ->
  _diagnostics (completer σ') = _diagnostics (completer σ)
  /\ _has_diagnostics (completer σ') = _has_diagnostics (completer σ).
Proof.
  induction ls as [|l ls IH]; intros σ σ'; cbn [run run_quiet].
  - intros [= <-] _. split; reflexivity.
  - destruct (step l σ) as [σ1|] eqn:E; [|discriminate].
    intros Hrun Hq. apply andb_true_iff in Hq as [Hq1 Hq2].
    destruct (step_quiet_slot l σ σ1 E Hq1) as [A B].
    destruct (IH σ1 σ' Hrun Hq2) as [A' B']. split; congruence.
Qed.

Lemma step_publish σ σ' m :
  decoded_by LReader σ = Some m -> is_publish m = true ->
  step LReader σ = Some σ' ->
  _diagnostics (completer σ') = m /\ _has_diagnostics (completer σ') = true.
Proof.
  unfold decoded_by, is_publish. cbn [step]. unfold _ReaderLoop_body.
  destruct (reader_died σ); [discriminate|].
  destruct (negb (_server_is_running (completer σ))); [discriminate|].
  destruct (_Read (_server_stdout (completer σ))) as [|e out|message out];
    try discriminate.
  intros [= ->]. unfold dispatch.
  destruct (py_in (u "id") m) as [[]|]; try discriminate.
  destruct (getitem m (u "method")) as [method|]; try discriminate.
  intros ->. intros [= <-]. split; reflexivity.
Qed.

(** C7.  When the reader loop publishes two diagnostics documents, first
    [m1] and later [m2], and no take and no further publish happens
    between them or after them, whatever else the callers, the reader and
    the server do, the next take returns exactly [m2] and leaves the slot
    empty: [m1] is observed by no consumer. *)
Theorem C7_take_returns_latest_publish
    (cvt : ustring -> json -> result Z) (rd : request_data)
    (σ0 σ1 σ1' σ2 σ3 : system) (m1 m2 : json) (ls1 ls2 : list label)
    (elapsed : bool) :
  decoded_by LReader σ0 = Some m1 -> is_publish m1 = true ->
  step LReader σ0 = Some σ1 ->
  run ls1 σ1 = Some σ1' -> run_quiet ls1 σ1 = true ->
  decoded_by LReader σ1' = Some m2 -> is_publish m2 = true ->
  step LReader σ1' = Some σ2 ->
  run ls2 σ2 = Some σ3 -> run_quiet ls2 σ2 = true ->
  take_diagnostics (completer σ3) elapsed
  = Returned m2 (set_diagnostics JNull false (completer σ3))
  /\ GetDiagnosticsForCurrentFile cvt rd (completer σ3) elapsed
     = match convert_diagnostics cvt rd m2 with
       | Ok res => Returned res (set_diagnostics JNull false (completer σ3))
       | Err e => Raised e (set_diagnostics JNull false (completer σ3))
       end
  /\ exists σ4,
       step (LTake elapsed) σ3 = Some σ4
       /\ _diagnostics (completer σ4) = JNull
       /\ _has_diagnostics (completer σ4) = false.
Proof.
  intros _ _ _ _ _ Hm2 Hp2 Hs2 Hrun Hq.
  destruct (step_publish _ _ _ Hm2 Hp2 Hs2) as [A B].
  destruct (run_quiet_slot _ _ _ Hrun Hq) as [A' B'].
  rewrite A in A'. rewrite B in B'.
  assert (Ht : take_diagnostics (completer σ3) elapsed
               = Returned m2 (set_diagnostics JNull false (completer σ3))).
  { unfold take_diagnostics, Event_wait. now rewrite B', A'. }
  split; [exact Ht|]. split.
  - unfold GetDiagnosticsForCurrentFile. now rewrite Ht.
  - eexists. split; [cbn [step]; rewrite Ht; reflexivity|].
    split; reflexivity.
Qed.

Lemma C7_take_returns_latest_publish_witness :
  let σ0 := published_system in
  let σ1 := after [LReader] σ0 in
  let ls1 := [LNotify (JStr (u "textDocument/didOpen")) JNull] in
  let σ1' := after ls1 σ1 in
  let σ2 := after [LReader] σ1' in
  let ls2 := invoke_labels in
  let σ3 := after ls2 σ2 in
  (decoded_by LReader σ0 = Some first_publish
   /\ is_publish first_publish = true
   /\ step LReader σ0 = Some σ1
   /\ run ls1 σ1 = Some σ1' /\ run_quiet ls1 σ1 = true
   /\ decoded_by LReader σ1' = Some second_publish
   /\ is_publish second_publish = true
   /\ step LReader σ1' = Some σ2
   /\ run ls2 σ2 = Some σ3 /\ run_quiet ls2 σ2 = true)
  /\ take_diagnostics (completer σ3) true
     = Returned second_publish (set_diagnostics JNull false (completer σ3))
  /\ GetDiagnosticsForCurrentFile ascii_offset sample_request_data
       (completer σ3) true
     = match convert_diagnostics ascii_offset sample_request_data
               second_publish with
       | Ok res => Returned res (set_diagnostics JNull false (completer σ3))
       | Err e => Raised e (set_diagnostics JNull false (completer σ3))
       end
  /\ exists σ4,
       step (LTake true) σ3 = Some σ4
       /\ _diagnostics (completer σ4) = JNull
       /\ _has_diagnostics (completer σ4) = false.
Proof.
  intros σ0 σ1 ls1 σ1' σ2 ls2 σ3.
  assert (H1 : decoded_by LReader σ0 = Some first_publish)
    by (vm_compute; reflexivity).
  assert (H2 : is_publish first_publish = true) by (vm_compute; reflexivity).
  assert (H3 : step LReader σ0 = Some σ1) by (vm_compute; reflexivity).
  assert (H4 : run ls1 σ1 = Some σ1') by (vm_compute; reflexivity).
  assert (H5 : run_quiet ls1 σ1 = true) by (vm_compute; reflexivity).
  assert (H6 : decoded_by LReader σ1' = Some second_publish)
    by (vm_compute; reflexivity).
  assert (H7 : is_publish second_publish = true) by (vm_compute; reflexivity).
  assert (H8 : step LReader σ1' = Some σ2) by (vm_compute; reflexivity).
  assert (H9 : run ls2 σ2 = Some σ3) by (vm_compute; reflexivity).
  assert (H10 : run_quiet ls2 σ2 = true) by (vm_compute; reflexivity).
  split.
  { exact (conj H1 (conj H2 (conj H3 (conj H4 (conj H5 (conj H6
             (conj H7 (conj H8 (conj H9 H10))))))))). }
  exact (C7_take_returns_latest_publish ascii_offset sample_request_data
           σ0 σ1 σ1' σ2 σ3 first_publish second_publish ls1 ls2 true
           H1 H2 H3 H4 H5 H6 H7 H8 H9 H10).
Defined.

(** ** Converted diagnostics *)

Lemma _LspToYcmdDiagnostic_kind cvt fp lv d r :
  _LspToYcmdDiagnostic cvt fp lv d = Ok r -> kind_ r = u "ERROR".
Proof.
  unfold _LspToYcmdDiagnostic.
  repeat match goal with
  | |- context [bind ?x _] => destruct x; cbn [bind]; try discriminate
  end.
  now intros [= <-].
Qed.

Lemma mapM_Forall {A B} (f : A -> result B) (P : B -> Prop) (l : list A) :
  (forall a b, f a = Ok b -> P b) ->
  forall res, mapM f l = Ok res -> Forall P res.
Proof.
  intros Hf. induction l as [|a l IH]; cbn [mapM]; intros res.
  - intros [= <-]. constructor.
  - destruct (f a) as [b|] eqn:E; cbn [bind]; [|discriminate].
    destruct (mapM f l) as [bs|]; cbn [bind]; [|discriminate].
    intros [= <-]. constructor; eauto.
Qed.

(** C10.  Every diagnostic in a list that [GetDiagnosticsForCurrentFile]
    returns has kind ['ERROR'], whatever the published LSP diagnostic
    says, its [severity] included. *)
Theorem C10_every_diagnostic_is_an_error
    (cvt : ustring -> json -> result Z) (rd : request_data)
    (self self' : ClangdCompleter) (elapsed : bool) (res : list Diagnostic) :
  GetDiagnosticsForCurrentFile cvt rd self elapsed = Returned res self' ->
  Forall (fun d => kind_ d = u "ERROR") res.
Proof.
  unfold GetDiagnosticsForCurrentFile.
  destruct (take_diagnostics self elapsed) as [| |doc s]; try discriminate.
  destruct (convert_diagnostics cvt rd doc) as [r|] eqn:E; try discriminate.
  intros [= <- _]. revert E. unfold convert_diagnostics.
  repeat match goal with
  | |- context [bind ?x _] =>
    match x with
    | mapM _ _ => fail 1
    | _ => destruct x; cbn [bind]; try discriminate
    end
  end.
  apply mapM_Forall. intros ? ?. apply _LspToYcmdDiagnostic_kind.
Qed.

Lemma C10_every_diagnostic_is_an_error_witness :
  let self := completer (after [LReader; LReader] published_system) in
  exists res self',
    GetDiagnosticsForCurrentFile ascii_offset sample_request_data self false
    = Returned res self'
    /\ length res = 2%nat
    /\ Forall (fun d => kind_ d = u "ERROR") res.
Proof.
  intros self.
  assert (H : exists res self',
    GetDiagnosticsForCurrentFile ascii_offset sample_request_data self false
    = Returned res self' /\ length res = 2%nat).
  { do 2 eexists. split; vm_compute; reflexivity. }
  destruct H as (res & self' & H & Hlen).
  exists res, self'. split; [exact H|]. split; [exact Hlen|].
  exact (C10_every_diagnostic_is_an_error ascii_offset sample_request_data
           self self' false res H).
Defined.

(** ** The pending table *)

Lemma pending_inv_init : pending_inv init_system [].
Proof.
  constructor; cbn.
  - intros k d H. now rewrite lookup_empty in H.
  - intros k1 k2 d H. now rewrite lookup_empty in H.
  - intros i rq H. destruct i; discriminate H.
  - intros i j ri rj z H. destruct i; discriminate H.
  - intros k d [].
  - constructor.
  - constructor.
Qed.

Lemma pending_inv_same_core σ σ' R :
  pending_inv σ R ->
  core_eq (completer σ') (completer σ) ->
  (forall i rq, callers σ' !! i = Some (CBuilt rq) ->
                callers σ !! i = Some (CBuilt rq)) ->
  pending_inv σ' R.
Proof.
  intros [I1 I2 I3 I4 I5 I6 I7] (Ep & Eh & Es) Hc.
  constructor; rewrite ?Ep, ?Eh, ?Es; eauto.
Qed.

Lemma insert_not_built (cs : list caller) i c j rq :
  (forall r, c <> CBuilt r) ->
  <[i := c]> cs !! j = Some (CBuilt rq) ->
  cs !! j = Some (CBuilt rq) /\ j <> i.
Proof.
  intros Hc H. destruct (decide (j = i)) as [->|Hne].
  - destruct (decide (i < length cs)%nat) as [Hlt|Hge].
    + rewrite list_lookup_insert_eq in H by exact Hlt.
      injection H as H. now apply Hc in H.
    + rewrite list_insert_ge in H by lia.
      apply lookup_lt_Some in H. lia.
  - rewrite list_lookup_insert_ne in H by congruence. auto.
Qed.

Lemma pending_inv_set_caller σ R i c self :
  pending_inv σ R -> (forall r, c <> CBuilt r) ->
  core_eq self (completer σ) ->
  pending_inv (set_caller i c self σ) R.
Proof.
  intros HI Hc He. apply (pending_inv_same_core σ); [exact HI|exact He|].
  cbn [set_caller callers]. intros j rq H.
  now apply insert_not_built in H.
Qed.

Lemma resolved_by_not_reader l σ : l <> LReader -> resolved_by l σ = [].
Proof. intros H. unfold resolved_by, decoded_by. now destruct l. Qed.

Lemma pending_inv_invoke σ σ' R method params :
  pending_inv σ R -> step (LInvoke method params) σ = Some σ' ->
  pending_inv σ' R.
Proof.
  intros [I1 I2 I3 I4 I5 I6 I7]. cbn [step].
  destruct (_BuildRequest_id method params (completer σ)) as [Eid Es].
  destruct (_BuildRequest method params true (completer σ)) as [rq s'].
  cbn [fst snd] in Eid, Es. subst s'. intros [= <-].
  assert (Hfresh : _pending (completer σ) !! KInt (_sequenceid (completer σ))
                   = None).
  { destruct (_pending (completer σ) !! KInt _) as [d|] eqn:E; [|reflexivity].
    destruct (I1 _ _ E) as [(z & [= <-] & Hz) _]. lia. }
  assert (Hnew : ~ In (KInt (_sequenceid (completer σ))) (List.map fst R)).
  { intros Hin. apply in_map_iff in Hin as ([k d] & Hk & Hin).
    cbn [fst] in Hk. subst k.
    destruct (I5 _ _ Hin) as (_ & _ & _ & z & [= <-] & Hz). lia. }
  constructor; cbn [completer callers _pending heap _sequenceid set_sequenceid].
  - intros k d H. destruct (I1 k d H) as [(z & -> & Hz) Hd].
    split; [exists z; split; [reflexivity|lia] | exact Hd].
  - exact I2.
  - intros i request H. apply lookup_app_Some in H as [H|[Hlen H]].
    + destruct (I3 i request H) as (z & E & Hz & Hp & Hr).
      exists z. repeat split; auto. lia.
    + destruct (i - length (callers σ))%nat; [|destruct n; discriminate H].
      injection H as <-. exists (_sequenceid (completer σ)).
      repeat split; auto. lia.
  - intros i j ri rj z Hi Hj Ei Ej.
    apply lookup_app_Some in Hi as [Hi|[Hli Hi]];
      apply lookup_app_Some in Hj as [Hj|[Hlj Hj]].
    + eauto.
    + exfalso. destruct (j - length (callers σ))%nat;
        [|destruct n; discriminate Hj].
      injection Hj as <-. rewrite Eid in Ej. injection Ej as <-.
      destruct (I3 i ri Hi) as (z' & E & Hz & _). rewrite Ei in E.
      injection E as <-. lia.
    + exfalso. destruct (i - length (callers σ))%nat;
        [|destruct n; discriminate Hi].
      injection Hi as <-. rewrite Eid in Ei. injection Ei as <-.
      destruct (I3 j rj Hj) as (z' & E & Hz & _). rewrite Ej in E.
      injection E as <-. lia.
    + assert (i - length (callers σ) = 0)%nat
        by (destruct (i - length (callers σ))%nat;
            [reflexivity|destruct n; discriminate Hi]).
      assert (j - length (callers σ) = 0)%nat
        by (destruct (j - length (callers σ))%nat;
            [reflexivity|destruct n; discriminate Hj]).
      lia.
  - intros k d H. destruct (I5 k d H) as (A & B & C & z & -> & Hz).
    repeat split; auto. exists z. split; [reflexivity|lia].
  - exact I6.
  - exact I7.
Qed.

Lemma pending_inv_register σ σ' R i :
  pending_inv σ R -> step (LRegister i) σ = Some σ' -> pending_inv σ' R.
Proof.
  intros [I1 I2 I3 I4 I5 I6 I7]. cbn [step].
  destruct (callers σ !! i) as [[rq| | | |]|] eqn:Hi; try discriminate.
  destruct (I3 i rq Hi) as (z & Eid & Hz & Hfree & Hnr).
  unfold _SendRequest_register. rewrite Eid. cbn [bind hash_key].
  intros [= <-].
  assert (Hold : forall k d, _pending (completer σ) !! k = Some d ->
                             (d < length (heap (completer σ)))%nat).
  { intros k d H. destruct (I1 k d H) as [_ (dr & Hd & _)].
    now apply lookup_lt_Some in Hd. }
  constructor;
    cbn [set_caller completer callers _pending heap _sequenceid set_pending].
  - intros k d H. apply lookup_insert_Some in H as [[<- <-]|[Hne H]].
    + split; [exists z; auto|]. exists DeferredResponse_init.
      split; [now apply list_lookup_middle | reflexivity].
    + destruct (I1 k d H) as [Hk (dr & Hd & He)]. split; [exact Hk|].
      exists dr. split; [|exact He]. rewrite lookup_app_l; [exact Hd|].
      now apply lookup_lt_Some in Hd.
  - intros k1 k2 d H1 H2.
    apply lookup_insert_Some in H1 as [[<- <-]|[Hne1 H1]];
      apply lookup_insert_Some in H2 as [[<- E2]|[Hne2 H2]]; auto.
    + apply Hold in H2. lia.
    + apply Hold in H1. lia.
    + eauto.
  - intros j request H.
    apply insert_not_built in H as [H Hne]; [|discriminate].
    destruct (I3 j request H) as (z' & E & Hz' & Hp & Hr).
    exists z'. repeat split; auto.
    rewrite lookup_insert_ne; [exact Hp|].
    intros [= ->]. apply Hne. symmetry. eapply I4; eauto.
  - intros j1 j2 r1 r2 z' H1 H2.
    apply insert_not_built in H1 as [H1 _]; [|discriminate].
    apply insert_not_built in H2 as [H2 _]; [|discriminate].
    eauto.
  - intros k d H. destruct (I5 k d H) as (A & B & (dr & Hd & He) & Hk).
    repeat split; auto.
    + rewrite lookup_insert_ne; [exact A|].
      intros <-. apply Hnr. apply in_map_iff. now exists (KInt z, d).
    + intros k' Hk'. apply lookup_insert_Some in Hk' as [[_ <-]|[_ Hk']].
      * apply lookup_lt_Some in Hd. lia.
      * now apply B in Hk'.
    + exists dr. split; [|exact He]. rewrite lookup_app_l; [exact Hd|].
      now apply lookup_lt_Some in Hd.
  - exact I6.
  - exact I7.
Qed.

Lemma dispatch_cases message self :
  match resolves message self with
  | Some (k, d) =>
    dispatch message self =
    LoopContinue
      (set_pending (delete k (_pending self))
         (alter (resolve message) d (heap self)) self)
  | None =>
    match dispatch message self with
    | LoopContinue self' => core_eq self' self
    | LoopDied _ self' => self' = self
    | LoopBlocked => False
    end
  end.
Proof.
  unfold resolves, reply_id, dispatch.
  destruct (py_in (u "id") message) as [[]|].
  - destruct (bind _ _) as [k|]; [|reflexivity].
    destruct (_pending self !! k); [reflexivity|]. repeat split.
  - destruct (getitem message (u "method")) as [method|]; [|reflexivity].
    destruct (is_str PUBLISH_DIAGNOSTICS method); repeat split.
  - reflexivity.
Qed.

Lemma pending_inv_resolve σ R k d message self :
  pending_inv σ R ->
  core_eq self (completer σ) ->
  _pending (completer σ) !! k = Some d ->
  pending_inv
    (set_completer
       (set_pending (delete k (_pending self))
          (alter (resolve message) d (heap self)) self) σ)
    (R ++ [(k, d)]).
Proof.
  intros [I1 I2 I3 I4 I5 I6 I7] (Ep & Eh & Es) Hk.
  destruct (I1 k d Hk) as [(z & -> & Hz) (dr & Hd & He)].
  constructor;
    cbn [set_completer completer callers _pending heap _sequenceid set_pending];
    rewrite ?Ep, ?Eh, ?Es.
  - intros k' d' H. apply lookup_delete_Some in H as [Hne H].
    destruct (I1 k' d' H) as [A (dr' & Hd' & He')]. split; [exact A|].
    exists dr'. split; [|exact He'].
    rewrite list_lookup_alter_ne; [exact Hd'|].
    intros <-. apply Hne. eapply I2; eauto.
  - intros k1 k2 d' H1 H2.
    apply lookup_delete_Some in H1 as [_ H1].
    apply lookup_delete_Some in H2 as [_ H2]. eauto.
  - intros i request H. destruct (I3 i request H) as (z' & E & Hz' & Hp & Hr).
    exists z'. repeat split; auto.
    + apply lookup_delete_None. now right.
    + rewrite List.map_app, in_app_iff. intros [Hin|[Hin|[]]]; [tauto|].
      simpl in Hin. injection Hin as <-. congruence.
  - exact I4.
  - intros k' d' H. apply in_app_iff in H as [H|[[= <- <-]|[]]].
    + destruct (I5 k' d' H) as (A & B & (dr' & Hd' & He') & C).
      repeat split; auto.
      * apply lookup_delete_None. now right.
      * intros k'' Hk''. apply lookup_delete_Some in Hk'' as [_ Hk''].
        now apply B in Hk''.
      * exists dr'. split; [|exact He'].
        rewrite list_lookup_alter_ne; [exact Hd'|].
        intros <-. now apply (B (KInt z)).
    + repeat split.
      * apply lookup_delete_eq.
      * intros k'' Hk''. apply lookup_delete_Some in Hk'' as [Hne Hk''].
        apply Hne. eapply I2; eauto.
      * exists (resolve message dr). split; [|reflexivity].
        now rewrite list_lookup_alter_eq, Hd.
      * exists z. auto.
  - rewrite List.map_app. apply NoDup_app. split; [exact I6|]. split.
    + intros k' Hin Hin2. apply list_elem_of_In in Hin2. simpl in Hin2.
      destruct Hin2 as [<-|[]].
      apply list_elem_of_In, in_map_iff in Hin as ([k0 d0] & Hk0 & Hin).
      cbn [fst] in Hk0. subst k0.
      destruct (I5 _ _ Hin) as (A & _). congruence.
    + repeat constructor. intros []%list_elem_of_In.
  - rewrite List.map_app. apply NoDup_app. split; [exact I7|]. split.
    + intros d' Hin Hin2. apply list_elem_of_In in Hin2. simpl in Hin2.
      destruct Hin2 as [<-|[]].
      apply list_elem_of_In, in_map_iff in Hin as ([k0 d0] & Hd0 & Hin).
      cbn [snd] in Hd0. subst d0.
      destruct (I5 _ _ Hin) as (_ & B & _). now apply (B (KInt z)).
    + repeat constructor. intros []%list_elem_of_In.
Qed.

Lemma pending_inv_reader σ σ' R :
  pending_inv σ R -> step LReader σ = Some σ' ->
  pending_inv σ' (R ++ resolved_by LReader σ).
Proof.
  intros HI. unfold resolved_by, decoded_by. cbn [step].
  unfold _ReaderLoop_body.
  destruct (reader_died σ); [discriminate|].
  destruct (negb (_server_is_running (completer σ))); [discriminate|].
  destruct (_Read (_server_stdout (completer σ))) as [|e out|message out].
  - discriminate.
  - intros [= <-]. rewrite List.app_nil_r.
    apply (pending_inv_same_core σ); [exact HI|repeat split|auto].
  - pose proof (dispatch_cases message (set_stdout out (completer σ))) as Hc.
    change (resolves message (set_stdout out (completer σ)))
      with (resolves message (completer σ)) in Hc.
    destruct (resolves message (completer σ)) as [[k d]|] eqn:Er.
    + rewrite Hc. intros [= <-].
      apply (pending_inv_resolve σ R k d message
               (set_stdout out (completer σ))); [exact HI|repeat split|].
      unfold resolves in Er. destruct (reply_id message); [|discriminate].
      destruct (_pending (completer σ) !! p) eqn:E; [|discriminate].
      now injection Er as -> ->.
    + rewrite List.app_nil_r.
      destruct (dispatch message (set_stdout out (completer σ)))
        as [|self'|e self']; [contradiction| |].
      * intros [= <-]. apply (pending_inv_same_core σ); [exact HI| |auto].
        destruct Hc as (A & B & C). repeat split; assumption.
      * intros [= <-]. subst self'.
        apply (pending_inv_same_core σ); [exact HI|repeat split|auto].
Qed.

(** Every step keeps the invariant. *)
Lemma pending_inv_step l σ σ' R :
  pending_inv σ R -> step l σ = Some σ' ->
  pending_inv σ' (R ++ resolved_by l σ).
Proof.
  intros HI. destruct l;
    try (rewrite resolved_by_not_reader by discriminate; rewrite List.app_nil_r).
  - now apply pending_inv_invoke.
  - now apply pending_inv_register.
  - cbn [step].
    destruct (callers σ !! i) as [[|rq d| | |]|]; try discriminate.
    unfold _Write. destruct (request_serialized rq); cbn [bind];
      intros [= <-]; apply pending_inv_set_caller;
      auto; try discriminate; repeat split.
  - cbn [step].
    destruct (callers σ !! i) as [[| |d| |]|]; try discriminate.
    destruct (_SendRequest_result d (completer σ) elapsed);
      try discriminate; intros [= <-]; apply pending_inv_set_caller;
      auto; try discriminate; repeat split.
  - cbn [step]. unfold _Notify.
    pose proof (_BuildRequest_notification method params (completer σ)) as E.
    destruct (_BuildRequest method params false (completer σ)) as [rq s'].
    cbn [snd] in E. subst s'. unfold _Write.
    destruct (request_serialized rq); cbn [bind]; intros [= <-];
      try exact HI.
    apply (pending_inv_same_core σ); [exact HI|repeat split|auto].
  - now apply pending_inv_reader.
  - cbn [step]. unfold take_diagnostics.
    destruct (Event_wait _ _ _); [|discriminate]. intros [= <-].
    apply (pending_inv_same_core σ); [exact HI|repeat split|auto].
  - cbn [step]. destruct (eof _); [discriminate|]. intros [= <-].
    apply (pending_inv_same_core σ); [exact HI|repeat split|auto].
  - cbn [step]. intros [= <-].
    apply (pending_inv_same_core σ); [exact HI|repeat split|auto].
  - cbn [step]. intros [= <-].
    apply (pending_inv_same_core σ); [exact HI|repeat split|auto].
Qed.

Lemma pending_inv_run ls : forall σ σ' R,
  pending_inv σ R -> run ls σ = Some σ' ->
  pending_inv σ' (R ++ resolved_trace ls σ).
Proof.
  induction ls as [|l ls IH]; intros σ σ' R HI; cbn [run resolved_trace].
  - intros [= <-]. now rewrite List.app_nil_r.
  - destruct (step l σ) as [σ1|] eqn:E; [|discriminate]. intros Hrun.
    rewrite app_assoc. apply (IH σ1); [|exact Hrun].
    now apply pending_inv_step.
Qed.

(** C9.  In every state that the system reaches from its start:
    a caller that is about to register its request holds an id for which
    the pending table has no entry, and no other such caller holds that id,
    so the table never gets a second entry for an id; no two entries share
    a waiter; and along the run no id and no waiter was resolved more than
    once, each resolution having removed the entry of its id. *)
Theorem C9_pending_table_invariant (ls : list label) (σ : system) :
  run ls init_system = Some σ ->
  let R := resolved_trace ls init_system in
  NoDup (List.map fst R)
  /\ NoDup (List.map snd R)
  /\ (forall k d, In (k, d) R ->
        _pending (completer σ) !! k = None
        /\ forall k', _pending (completer σ) !! k' <> Some d)
  /\ (forall i request, callers σ !! i = Some (CBuilt request) ->
        exists z, getitem request (u "id") = Ok (JInt z)
                  /\ _pending (completer σ) !! KInt z = None)
  /\ (forall i j ri rj z,
        callers σ !! i = Some (CBuilt ri) -> callers σ !! j = Some (CBuilt rj) ->
        getitem ri (u "id") = Ok (JInt z) -> getitem rj (u "id") = Ok (JInt z) ->
        i = j)
  /\ (forall k1 k2 d,
        _pending (completer σ) !! k1 = Some d ->
        _pending (completer σ) !! k2 = Some d -> k1 = k2).
Proof.
  intros Hrun R.
  pose proof (pending_inv_run ls init_system σ [] pending_inv_init Hrun)
    as [I1 I2 I3 I4 I5 I6 I7].
  cbn [app] in *. fold R in I3, I5, I6, I7.
  split; [exact I6|]. split; [exact I7|]. split.
  { intros k d H. destruct (I5 k d H) as (A & B & _). split; assumption. }
  split.
  { intros i request H. destruct (I3 i request H) as (z & E & _ & Hp & _).
    eauto. }
  split; [exact I4 | exact I2].
Qed.

Lemma C9_pending_table_invariant_witness :
  let σ := after two_invokes init_system in
  let R := resolved_trace two_invokes init_system in
  run two_invokes init_system = Some σ
  /\ R = [(KInt 1, 0%nat); (KInt 0, 1%nat)]
  /\ NoDup (List.map fst R)
  /\ NoDup (List.map snd R)
  /\ (forall k d, In (k, d) R ->
        _pending (completer σ) !! k = None
        /\ forall k', _pending (completer σ) !! k' <> Some d)
  /\ (forall i request, callers σ !! i = Some (CBuilt request) ->
        exists z, getitem request (u "id") = Ok (JInt z)
                  /\ _pending (completer σ) !! KInt z = None)
  /\ (forall i j ri rj z,
        callers σ !! i = Some (CBuilt ri) -> callers σ !! j = Some (CBuilt rj) ->
        getitem ri (u "id") = Ok (JInt z) -> getitem rj (u "id") = Ok (JInt z) ->
        i = j)
  /\ (forall k1 k2 d,
        _pending (completer σ) !! k1 = Some d ->
        _pending (completer σ) !! k2 = Some d -> k1 = k2).
Proof.
  intros σ R.
  assert (H : run two_invokes init_system = Some σ) by (vm_compute; reflexivity).
  split; [exact H|]. split; [vm_compute; reflexivity|].
  exact (C9_pending_table_invariant two_invokes σ H).
Defined.

(** * Further properties of the module *)

(** ** Callers, ids and replies *)

Lemma owns_core self self' k d :
  _pending self' = _pending self -> heap self' = heap self ->
  owns self k d -> owns self' k d.
Proof. unfold owns. intros -> ->. auto. Qed.

Lemma caller_ok_core self self' i c :
  _pending self' = _pending self -> heap self' = heap self ->
  caller_ok self i c -> caller_ok self' i c.
Proof.
  intros Ep Eh. destruct c; unfold caller_ok; auto.
  - intros [A B]. split; [exact A|]. now apply (owns_core self).
  - now apply owns_core.
Qed.

Lemma callers_inv_same σ σ' :
  callers_inv σ ->
  core_eq (completer σ') (completer σ) ->
  callers σ' = callers σ ->
  callers_inv σ'.
Proof.
  intros [A B] (Ep & Eh & Es) Ec. constructor.
  - now rewrite Es, Ec.
  - intros i c H. rewrite Ec in H. apply (caller_ok_core (completer σ)); auto.
Qed.

Lemma callers_inv_set_caller σ i c c' self :
  callers_inv σ -> core_eq self (completer σ) ->
  callers σ !! i = Some c ->
  caller_ok self i c' ->
  callers_inv (set_caller i c' self σ).
Proof.
  intros [A B] (Ep & Eh & Es) Hi Hc. constructor;
    cbn [set_caller completer callers].
  - now rewrite Es, length_insert.
  - intros j cj Hj. destruct (decide (j = i)) as [->|Hne].
    + rewrite list_lookup_insert_eq in Hj by now apply lookup_lt_Some in Hi.
      now injection Hj as <-.
    + rewrite list_lookup_insert_ne in Hj by congruence.
      apply (caller_ok_core (completer σ)); auto.
Qed.

Lemma owns_register self k k' d d' :
  k <> k' ->
  owns self k d ->
  owns (set_pending (<[k' := d']> (_pending self))
          (heap self ++ [DeferredResponse_init]) self) k d.
Proof.
  intros Hne [[Hp (dr & Hd & He)]|[Hp (m & dr & Hd & Hm)]]; [left|right];
    unfold owns; cbn [_pending heap set_pending];
    (split; [rewrite lookup_insert_ne by congruence; exact Hp|]).
  - exists dr. split; [|exact He]. rewrite lookup_app_l; [exact Hd|].
    now apply lookup_lt_Some in Hd.
  - exists m, dr. split; [|exact Hm]. rewrite lookup_app_l; [exact Hd|].
    now apply lookup_lt_Some in Hd.
Qed.

Lemma owns_resolve σ R self k d k' d' message :
  pending_inv σ R -> completer σ = self ->
  _pending self !! k' = Some d' -> reply_id message = Some k' ->
  owns self k d ->
  owns (set_pending (delete k' (_pending self))
          (alter (resolve message) d' (heap self)) self) k d.
Proof.
  intros [I1 I2 _ _ _ _ _] <- Hk' Hm.
  destruct (I1 _ _ Hk') as [_ (dr' & Hd' & He')].
  intros [[Hp (dr & Hd & He)]|[Hp (m & dr & Hd & Hmm)]];
    unfold owns; cbn [_pending heap set_pending].
  - destruct (decide (k = k')) as [->|Hne].
    + right. assert (d = d') by congruence. subst d'.
      split; [apply lookup_delete_eq|]. exists message, dr.
      split; [|exact Hm]. now rewrite list_lookup_alter_eq, Hd.
    + left. split; [now rewrite lookup_delete_ne by congruence|].
      exists dr. split; [|exact He].
      rewrite list_lookup_alter_ne; [exact Hd|].
      intros <-. apply Hne. symmetry. eapply I2; eauto.
  - right. split; [apply lookup_delete_None; now right|].
    exists m, dr. split; [|exact Hmm].
    rewrite list_lookup_alter_ne; [exact Hd|].
    intros <-. rewrite Hd in Hd'. injection Hd' as <-. discriminate He'.
Qed.

Lemma caller_ok_resolve σ R self k' d' message i c :
  pending_inv σ R -> completer σ = self ->
  _pending self !! k' = Some d' -> reply_id message = Some k' ->
  caller_ok self i c ->
  caller_ok (set_pending (delete k' (_pending self))
               (alter (resolve message) d' (heap self)) self) i c.
Proof.
  intros HI E Hk Hm. destruct c; unfold caller_ok; auto.
  - intros [A B]. split; [exact A|]. eapply owns_resolve; eauto.
  - eapply owns_resolve; eauto.
Qed.

Lemma resolves_reply_id message self k d :
  resolves message self = Some (k, d) ->
  reply_id message = Some k /\ _pending self !! k = Some d.
Proof.
  unfold resolves. destruct (reply_id message) as [k0|]; [|discriminate].
  destruct (_pending self !! k0) as [d0|] eqn:E; [|discriminate].
  now intros [= <- <-].
Qed.

Lemma callers_inv_step l σ σ' R :
  callers_inv σ -> pending_inv σ R -> step l σ = Some σ' -> callers_inv σ'.
Proof.
  intros HC HI. pose proof HC as [Cs Cc]. destruct l; cbn [step].
  - (* LInvoke *)
    destruct (_BuildRequest_id method params (completer σ)) as [Eid Es].
    destruct (_BuildRequest method params true (completer σ)) as [rq s'].
    cbn [fst snd] in Eid, Es. subst s'. intros [= <-].
    constructor; cbn [completer callers _sequenceid set_sequenceid].
    + rewrite length_app, Cs. cbn [length]. lia.
    + intros i c H. apply lookup_app_Some in H as [H|[Hlen H]].
      * apply (caller_ok_core (completer σ)); auto.
      * destruct (i - length (callers σ))%nat eqn:E;
          [|destruct n; discriminate H].
        injection H as <-. unfold caller_ok. rewrite Eid, Cs. do 2 f_equal. lia.
  - (* LRegister *)
    destruct (callers σ !! i) as [[rq| | | |]|] eqn:Hi; try discriminate.
    pose proof (Cc i _ Hi) as Hrq. unfold caller_ok in Hrq.
    unfold _SendRequest_register. rewrite Hrq. cbn [bind hash_key].
    intros [= <-]. constructor; cbn [set_caller completer callers].
    + cbn [_sequenceid set_pending]. now rewrite Cs, length_insert.
    + intros j cj Hj. destruct (decide (j = i)) as [->|Hne].
      * rewrite list_lookup_insert_eq in Hj by now apply lookup_lt_Some in Hi.
        injection Hj as <-. unfold caller_ok. split; [exact Hrq|]. left.
        split; [apply lookup_insert_eq|]. exists DeferredResponse_init.
        split; [now apply list_lookup_middle|reflexivity].
      * rewrite list_lookup_insert_ne in Hj by congruence.
        pose proof (Cc j cj Hj) as Hcj.
        assert (Hk : KInt (Z.of_nat j) <> KInt (Z.of_nat i))
          by (intros [= E]; apply Hne; lia).
        destruct cj; unfold caller_ok in *; auto.
        -- destruct Hcj as [A B]. split; [exact A|]. now apply owns_register.
        -- now apply owns_register.
  - (* LWrite *)
    destruct (callers σ !! i) as [[|rq d| | |]|] eqn:Hi; try discriminate.
    pose proof (Cc i _ Hi) as [_ Hown].
    unfold _Write. destruct (request_serialized rq); cbn [bind];
      intros [= <-].
    + eapply (callers_inv_set_caller σ i _ _ _ HC);
        [repeat split|exact Hi|].
      unfold caller_ok. now apply (owns_core (completer σ)).
    + eapply (callers_inv_set_caller σ i _ _ _ HC);
        [repeat split|exact Hi|exact I].
  - (* LResult *)
    destruct (callers σ !! i) as [[| |d| |]|] eqn:Hi; try discriminate.
    pose proof (Cc i _ Hi) as Hown. unfold caller_ok in Hown.
    unfold _SendRequest_result, DeferredResponse_result.
    destruct (heap (completer σ) !! d) as [dd|] eqn:Hd; [|discriminate].
    destruct (Event_wait _ _ _); [|discriminate].
    destruct (_event dd) eqn:Ev; cbn [negb]; intros [= <-];
      (eapply (callers_inv_set_caller σ i _ _ _ HC);
       [repeat split|exact Hi|]); [|exact I].
    unfold caller_ok.
    destruct Hown as [[_ (dr & Hd' & He)]|[_ (m & dr & Hd' & Hm)]].
    + rewrite Hd in Hd'. injection Hd' as <-. congruence.
    + rewrite Hd in Hd'. injection Hd' as ->. exact Hm.
  - (* LNotify *)
    unfold _Notify.
    pose proof (_BuildRequest_notification method params (completer σ)) as E.
    destruct (_BuildRequest method params false (completer σ)) as [rq s'].
    cbn [snd] in E. subst s'. unfold _Write.
    destruct (request_serialized rq); cbn [bind]; intros [= <-];
      [|exact HC].
    apply (callers_inv_same σ); [exact HC|repeat split|reflexivity].
  - (* LReader *)
    unfold _ReaderLoop_body.
    destruct (reader_died σ); [discriminate|].
    destruct (negb (_server_is_running (completer σ))); [discriminate|].
    destruct (_Read (_server_stdout (completer σ))) as [|e out|message out].
    + discriminate.
    + intros [= <-].
      apply (callers_inv_same σ); [exact HC|repeat split|reflexivity].
    + pose proof (dispatch_cases message (set_stdout out (completer σ))) as Hc.
      change (resolves message (set_stdout out (completer σ)))
        with (resolves message (completer σ)) in Hc.
      destruct (resolves message (completer σ)) as [[k d]|] eqn:Er.
      * rewrite Hc. intros [= <-].
        apply resolves_reply_id in Er as [Hm Hk].
        constructor; cbn [set_completer completer callers]; [exact Cs|].
        intros j cj Hj.
        apply (caller_ok_resolve σ R (completer σ) k d message j cj HI
                 eq_refl Hk Hm (Cc j cj Hj)).
      * destruct (dispatch message (set_stdout out (completer σ)))
          as [|self'|e self']; [contradiction| |].
        -- intros [= <-]. destruct Hc as (A & B & C).
           apply (callers_inv_same σ); [exact HC|repeat split; assumption|].
           reflexivity.
        -- intros [= <-]. subst self'.
           apply (callers_inv_same σ); [exact HC|repeat split|reflexivity].
  - (* LTake *)
    unfold take_diagnostics.
    destruct (Event_wait _ _ _); [|discriminate]. intros [= <-].
    apply (callers_inv_same σ); [exact HC|repeat split|reflexivity].
  - destruct (eof _); [discriminate|]. intros [= <-].
    apply (callers_inv_same σ); [exact HC|repeat split|reflexivity].
  - intros [= <-].
    apply (callers_inv_same σ); [exact HC|repeat split|reflexivity].
  - intros [= <-].
    apply (callers_inv_same σ); [exact HC|repeat split|reflexivity].
Qed.

Lemma callers_inv_init : callers_inv init_system.
Proof.
  constructor; [reflexivity|]. intros i c H. destruct i; discriminate H.
Qed.

Lemma callers_inv_run ls : forall σ σ' R,
  callers_inv σ -> pending_inv σ R -> run ls σ = Some σ' -> callers_inv σ'.
Proof.
  induction ls as [|l ls IH]; intros σ σ' R HC HI; cbn [run].
  - now intros [= <-].
  - destruct (step l σ) as [σ1|] eqn:E; [|discriminate].
    apply (IH σ1 σ' (R ++ resolved_by l σ)).
    + eapply callers_inv_step; eauto.
    + now apply pending_inv_step.
Qed.

Lemma reachable_invariants ls σ :
  run ls init_system = Some σ ->
  callers_inv σ /\ pending_inv σ (resolved_trace ls init_system).
Proof.
  intros H. split.
  - eapply callers_inv_run; eauto using callers_inv_init, pending_inv_init.
  - apply (pending_inv_run ls init_system σ [] pending_inv_init H).
Qed.

Lemma step_callers_length l σ σ' :
  step l σ = Some σ' ->
  length (callers σ') = (length (callers σ) + invokes [l])%nat.
Proof.
  destruct l; cbn [step invokes].
  - destruct (_BuildRequest _ _ _ _). intros [= <-]. cbn [callers].
    rewrite length_app. reflexivity.
  - destruct (callers σ !! i) as [[rq| | | |]|]; try discriminate.
    destruct (_SendRequest_register _ _) as [[d s]|]; intros [= <-];
      cbn [set_caller callers]; rewrite length_insert; lia.
  - destruct (callers σ !! i) as [[|rq d| | |]|]; try discriminate.
    destruct (_Write _ _); intros [= <-];
      cbn [set_caller callers]; rewrite length_insert; lia.
  - destruct (callers σ !! i) as [[| |d| |]|]; try discriminate.
    destruct (_SendRequest_result _ _ _); try discriminate; intros [= <-];
      cbn [set_caller callers]; rewrite length_insert; lia.
  - destruct (_Notify _ _ _); intros [= <-]; cbn [set_completer callers]; lia.
  - destruct (reader_died σ); [discriminate|].
    destruct (_ReaderLoop_body _); try discriminate; intros [= <-];
      cbn [set_completer callers]; lia.
  - destruct (take_diagnostics _ _); try discriminate; intros [= <-];
      cbn [set_completer callers]; lia.
  - destruct (eof _); [discriminate|]. intros [= <-].
    cbn [set_completer callers]. lia.
  - intros [= <-]. cbn [set_completer callers]. lia.
  - intros [= <-]. cbn [set_completer callers]. lia.
Qed.

Lemma invokes_cons l ls : invokes (l :: ls) = (invokes [l] + invokes ls)%nat.
Proof. destruct l; reflexivity. Qed.

Lemma run_callers_length ls : forall σ σ',
  run ls σ = Some σ' ->
  length (callers σ') = (length (callers σ) + invokes ls)%nat.
Proof.
  induction ls as [|l ls IH]; intros σ σ'; cbn [run].
  - intros [= <-]. cbn. lia.
  - destruct (step l σ) as [σ1|] eqn:E; [|discriminate]. intros H.
    rewrite (IH _ _ H), (step_callers_length _ _ _ E), (invokes_cons l ls).
    lia.
Qed.

(** X1.  The sequence generator hands out 0, 1, 2, ... in the order of the
    calls, whatever else runs in between (notifications, restarts, the
    reader): after any run the counter is the number of [_Invoke] calls
    started, and the request of the [i]-th call carries the id [i] until
    its frame is written.  So no two requests ever share an id. *)
Theorem X1_invoke_ids_are_sequence_numbers (ls : list label) (σ : system) :
  run ls init_system = Some σ ->
  length (callers σ) = invokes ls
  /\ _sequenceid (completer σ) = Z.of_nat (invokes ls)
  /\ forall i rq,
       (callers σ !! i = Some (CBuilt rq)
        \/ exists d, callers σ !! i = Some (CRegistered rq d)) ->
       getitem rq (u "id") = Ok (JInt (Z.of_nat i)).
Proof.
  intros H. destruct (reachable_invariants ls σ H) as [[Cs Cc] _].
  pose proof (run_callers_length ls _ _ H) as Hlen. cbn in Hlen.
  split; [exact Hlen|]. split; [now rewrite Cs, Hlen|].
  intros i rq [Hi|[d Hi]]; apply Cc in Hi; unfold caller_ok in Hi.
  - exact Hi.
  - now destruct Hi.
Qed.

Lemma X1_invoke_ids_are_sequence_numbers_witness :
  let σ := after two_built init_system in
  run two_built init_system = Some σ
  /\ length (callers σ) = 2%nat
  /\ _sequenceid (completer σ) = 2%Z
  /\ forall i rq,
       (callers σ !! i = Some (CBuilt rq)
        \/ exists d, callers σ !! i = Some (CRegistered rq d)) ->
       getitem rq (u "id") = Ok (JInt (Z.of_nat i)).
Proof.
  intros σ.
  assert (H : run two_built init_system = Some σ) by (vm_compute; reflexivity).
  split; [exact H|].
  exact (X1_invoke_ids_are_sequence_numbers two_built σ H).
Defined.

(** X2.  A caller of [_Invoke] only ever returns a reply to its own
    request: in every state that the system reaches, whatever the order in
    which requests were registered and replies arrived, the message that
    the [i]-th call returned carries the id [i]. *)
Theorem X2_caller_returns_reply_to_own_request (ls : list label) (σ : system)
    (i : nat) (m : json) :
  run ls init_system = Some σ ->
  callers σ !! i = Some (CReturned m) ->
  reply_id m = Some (KInt (Z.of_nat i)).
Proof.
  intros H Hi. destruct (reachable_invariants ls σ H) as [[_ Cc] _].
  exact (Cc i _ Hi).
Qed.

Lemma X2_caller_returns_reply_to_own_request_witness :
  let σ := after two_invokes init_system in
  run two_invokes init_system = Some σ
  /\ callers σ !! 0%nat = Some (CReturned late_reply)
  /\ reply_id late_reply = Some (KInt (Z.of_nat 0)).
Proof.
  intros σ.
  assert (H : run two_invokes init_system = Some σ) by (vm_compute; reflexivity).
  assert (H0 : callers σ !! 0%nat = Some (CReturned late_reply))
    by (vm_compute; reflexivity).
  split; [exact H|]. split; [exact H0|].
  exact (X2_caller_returns_reply_to_own_request two_invokes σ 0 late_reply H H0).
Defined.

(** X3.  The wait of [_Invoke] is bounded: in every reachable state, a
    caller that waits can leave once the timeout has run out.  It then
    either fails with ['Response Timeout'], its entry still in the pending
    table, or returns the reply to its own request. *)
Theorem X3_waiting_caller_leaves_at_deadline (ls : list label) (σ : system)
    (i d : nat) :
  run ls init_system = Some σ ->
  callers σ !! i = Some (CWaiting d) ->
  exists σ',
    step (LResult i true) σ = Some σ'
    /\ ((callers σ' !! i = Some (CRaised (RuntimeError "Response Timeout"))
         /\ _pending (completer σ') !! KInt (Z.of_nat i) = Some d)
        \/ exists m, callers σ' !! i = Some (CReturned m)
                     /\ reply_id m = Some (KInt (Z.of_nat i))).
Proof.
  intros H Hi. destruct (reachable_invariants ls σ H) as [[_ Cc] _].
  pose proof (Cc i _ Hi) as Hown. unfold caller_ok in Hown.
  assert (Hlt : (i < length (callers σ))%nat) by now apply lookup_lt_Some in Hi.
  destruct Hown as [[Hp (dr & Hd & He)]|[Hp (m & dr & Hd & Hm)]].
  - destruct (result_unresolved d (completer σ) dr Hd He) as [Ht _].
    eexists. split; [cbn [step]; rewrite Hi, Ht; reflexivity|].
    left. cbn [set_caller callers completer].
    split; [now apply list_lookup_insert_eq | exact Hp].
  - eexists. split.
    + cbn [step]. rewrite Hi, (result_resolved d _ m dr true Hd). reflexivity.
    + right. exists m. cbn [set_caller callers].
      split; [now apply list_lookup_insert_eq | exact Hm].
Qed.

Lemma X3_waiting_caller_leaves_at_deadline_witness :
  run invoke_labels init_system = Some waiting_system
  /\ callers waiting_system !! 0%nat = Some (CWaiting 0)
  /\ exists σ',
    step (LResult 0 true) waiting_system = Some σ'
    /\ ((callers σ' !! 0%nat = Some (CRaised (RuntimeError "Response Timeout"))
         /\ _pending (completer σ') !! KInt (Z.of_nat 0) = Some 0%nat)
        \/ exists m, callers σ' !! 0%nat = Some (CReturned m)
                     /\ reply_id m = Some (KInt (Z.of_nat 0))).
Proof.
  assert (H : run invoke_labels init_system = Some waiting_system)
    by (vm_compute; reflexivity).
  assert (H0 : callers waiting_system !! 0%nat = Some (CWaiting 0))
    by (vm_compute; reflexivity).
  split; [exact H|]. split; [exact H0|].
  exact (X3_waiting_caller_leaves_at_deadline invoke_labels waiting_system
           0 0 H H0).
Defined.

Lemma step_keeps_resolved l σ σ' R d dr :
  pending_inv σ R ->
  heap (completer σ) !! d = Some dr -> _event dr = true ->
  step l σ = Some σ' ->
  heap (completer σ') !! d = Some dr.
Proof.
  intros [I1 _ _ _ _ _ _] Hd He. destruct l; cbn [step].
  - destruct (_BuildRequest_id method params (completer σ)) as [_ Es].
    destruct (_BuildRequest method params true (completer σ)) as [rq s'].
    cbn [snd] in Es. subst s'. now intros [= <-].
  - destruct (callers σ !! i) as [[rq| | | |]|]; try discriminate.
    unfold _SendRequest_register. destruct (bind _ _); intros [= <-];
      cbn [set_caller completer heap set_pending]; [|exact Hd].
    rewrite lookup_app_l; [exact Hd|]. now apply lookup_lt_Some in Hd.
  - destruct (callers σ !! i) as [[|rq d0| | |]|]; try discriminate.
    unfold _Write. destruct (request_serialized rq); cbn [bind];
      now intros [= <-].
  - destruct (callers σ !! i) as [[| |d0| |]|]; try discriminate.
    destruct (_SendRequest_result _ _ _); try discriminate; now intros [= <-].
  - unfold _Notify.
    pose proof (_BuildRequest_notification method params (completer σ)) as E.
    destruct (_BuildRequest method params false (completer σ)) as [rq s'].
    cbn [snd] in E. subst s'. unfold _Write.
    destruct (request_serialized rq); cbn [bind]; now intros [= <-].
  - unfold _ReaderLoop_body.
    destruct (reader_died σ); [discriminate|].
    destruct (negb (_server_is_running (completer σ))); [discriminate|].
    destruct (_Read (_server_stdout (completer σ))) as [|e out|message out];
      [discriminate|now intros [= <-]|].
    pose proof (dispatch_cases message (set_stdout out (completer σ))) as Hc.
    change (resolves message (set_stdout out (completer σ)))
      with (resolves message (completer σ)) in Hc.
    destruct (resolves message (completer σ)) as [[k d']|] eqn:Er.
    + rewrite Hc. intros [= <-]. cbn [set_completer completer heap set_pending
                                       set_stdout].
      apply resolves_reply_id in Er as [_ Hk].
      destruct (I1 _ _ Hk) as [_ (dr' & Hd' & He')].
      rewrite list_lookup_alter_ne; [exact Hd|].
      intros <-. rewrite Hd in Hd'. injection Hd' as <-. congruence.
    + destruct (dispatch message (set_stdout out (completer σ)))
        as [|self'|e self']; [contradiction| |].
      * intros [= <-]. destruct Hc as (_ & B & _).
        cbn [set_completer completer]. rewrite B. exact Hd.
      * intros [= <-]. subst self'. exact Hd.
  - unfold take_diagnostics.
    destruct (Event_wait _ _ _); [|discriminate]. now intros [= <-].
  - destruct (eof _); [discriminate|]. now intros [= <-].
  - now intros [= <-].
  - now intros [= <-].
Qed.

(** X4.  A [DeferredResponse] is assigned once: in every reachable state,
    a deferred that has been resolved keeps its message through whatever
    happens afterwards. *)
Theorem X4_resolved_deferred_keeps_its_message (ls1 ls2 : list label)
    (σ1 σ2 : system) (d : nat) (dr : DeferredResponse) :
  run ls1 init_system = Some σ1 ->
  heap (completer σ1) !! d = Some dr -> _event dr = true ->
  run ls2 σ1 = Some σ2 ->
  heap (completer σ2) !! d = Some dr.
Proof.
  intros H1 Hd He. destruct (reachable_invariants ls1 σ1 H1) as [_ HI].
  revert HI Hd. generalize (resolved_trace ls1 init_system) as R.
  clear H1. revert σ1. induction ls2 as [|l ls IH]; intros σ1 R HI Hd; cbn [run].
  - now intros [= <-].
  - destruct (step l σ1) as [σ'|] eqn:E; [|discriminate].
    apply (IH σ' (R ++ resolved_by l σ1)).
    + now apply pending_inv_step.
    + eapply step_keeps_resolved; eauto.
Qed.

Lemma X4_resolved_deferred_keeps_its_message_witness :
  let σ1 := after first_reply_read init_system in
  let σ2 := after (skipn 8 two_invokes) σ1 in
  let dr := resolve (JDict [(u "id", JInt 1); (u "result", JList [])])
              DeferredResponse_init in
  run first_reply_read init_system = Some σ1
  /\ heap (completer σ1) !! 0%nat = Some dr
  /\ _event dr = true
  /\ run (skipn 8 two_invokes) σ1 = Some σ2
  /\ heap (completer σ2) !! 0%nat = Some dr.
Proof.
  intros σ1 σ2 dr.
  assert (H1 : run first_reply_read init_system = Some σ1)
    by (vm_compute; reflexivity).
  assert (H2 : heap (completer σ1) !! 0%nat = Some dr)
    by (vm_compute; reflexivity).
  assert (H3 : run (skipn 8 two_invokes) σ1 = Some σ2)
    by (vm_compute; reflexivity).
  split; [exact H1|]. split; [exact H2|]. split; [reflexivity|].
  split; [exact H3|].
  exact (X4_resolved_deferred_keeps_its_message first_reply_read
           (skipn 8 two_invokes) σ1 σ2 0 dr H1 H2 eq_refl H3).
Defined.

(** ** What the reader loop does with a decoded message *)

Lemma dispatch_survivable m self :
  match dispatch m self with
  | LoopDied e self' =>
    survivable m = false /\ self' = self
    /\ ((exists msg, e = TypeError msg) \/ e = KeyError (u "method"))
  | LoopContinue _ => survivable m = true
  | LoopBlocked => False
  end.
Proof.
  unfold dispatch, survivable.
  destruct m as [| b | z | s | l | d]; cbn [py_in getitem];
    try (repeat split; left; eexists; reflexivity).
  - destruct (is_infix _ s); cbn [bind]; repeat split; left; eexists;
      reflexivity.
  - destruct (existsb _ l); cbn [bind]; repeat split; left; eexists;
      reflexivity.
  - destruct (dict_get (u "id") d) as [v|]; cbn [bind].
    + destruct v; cbn [hash_key];
        try (destruct (_pending self !! _); reflexivity);
        repeat split; left; eexists; reflexivity.
    + destruct (dict_get (u "method") d) as [method|].
      * destruct (is_str PUBLISH_DIAGNOSTICS method); reflexivity.
      * repeat split. now right.
Qed.

(** X5.  When the reader loop has decoded a message [m], its round ends
    the reader thread exactly when [m] is not a dict, or has an ['id'] that
    is a list or a dict, or has neither ['id'] nor ['method'].  The thread
    then ends with a [TypeError] or with [KeyError( 'method' )] that
    nothing catches: nothing is logged and the running flag stays set. *)
Theorem X5_reader_thread_ends_on_unexpected_message (σ : system) (m : json) :
  decoded_by LReader σ = Some m ->
  exists σ',
    step LReader σ = Some σ'
    /\ if survivable m then reader_died σ' = None
       else exists e,
           reader_died σ' = Some e
           /\ ((exists msg, e = TypeError msg) \/ e = KeyError (u "method"))
           /\ _server_is_running (completer σ') = true
           /\ _logger (completer σ') = _logger (completer σ)
           /\ _pending (completer σ') = _pending (completer σ)
           /\ heap (completer σ') = heap (completer σ).
Proof.
  unfold decoded_by. cbn [step]. unfold _ReaderLoop_body.
  destruct (reader_died σ) eqn:Ed; [discriminate|].
  destruct (_server_is_running (completer σ)) eqn:Er; [|discriminate].
  cbn [negb].
  destruct (_Read (_server_stdout (completer σ))) as [|e out|message out];
    try discriminate.
  intros [= ->].
  pose proof (dispatch_survivable m (set_stdout out (completer σ))) as H.
  destruct (dispatch m (set_stdout out (completer σ))) as [|self'|e self'].
  - contradiction.
  - eexists. split; [reflexivity|]. rewrite H. exact Ed.
  - destruct H as (-> & -> & He). eexists. split; [reflexivity|].
    exists e. cbn. repeat split; auto.
Qed.

Lemma X5_reader_thread_ends_on_unexpected_message_witness :
  decoded_by LReader array_sent = Some (JList [])
  /\ survivable (JList []) = false
  /\ exists σ',
    step LReader array_sent = Some σ'
    /\ if survivable (JList []) then reader_died σ' = None
       else exists e,
           reader_died σ' = Some e
           /\ ((exists msg, e = TypeError msg) \/ e = KeyError (u "method"))
           /\ _server_is_running (completer σ') = true
           /\ _logger (completer σ') = _logger (completer array_sent)
           /\ _pending (completer σ') = _pending (completer array_sent)
           /\ heap (completer σ') = heap (completer array_sent).
Proof.
  assert (H : decoded_by LReader array_sent = Some (JList []))
    by (vm_compute; reflexivity).
  split; [exact H|]. split; [reflexivity|].
  exact (X5_reader_thread_ends_on_unexpected_message array_sent (JList []) H).
Defined.

Lemma step_reader_dead l σ σ' e :
  reader_died σ = Some e -> step l σ = Some σ' ->
  reader_died σ' = Some e
  /\ resolved_by l σ = []
  /\ _logger (completer σ') = _logger (completer σ)
  /\ (forall d dr, heap (completer σ) !! d = Some dr ->
                   heap (completer σ') !! d = Some dr)
  /\ (_has_diagnostics (completer σ) = false ->
      _has_diagnostics (completer σ') = false).
Proof.
  intros Hd.
  assert (Hr : resolved_by l σ = []).
  { unfold resolved_by, decoded_by. rewrite Hd. now destruct l. }
  destruct l; cbn [step].
  - destruct (_BuildRequest_id method params (completer σ)) as [_ Es].
    destruct (_BuildRequest method params true (completer σ)) as [rq s'].
    cbn [snd] in Es. subst s'. intros [= <-]. cbn. auto.
  - destruct (callers σ !! i) as [[rq| | | |]|]; try discriminate.
    unfold _SendRequest_register. destruct (bind _ _); intros [= <-];
      cbn [set_caller completer heap set_pending reader_died _logger
           _has_diagnostics]; repeat split; auto.
    intros d dr H. rewrite lookup_app_l; [exact H|].
    now apply lookup_lt_Some in H.
  - destruct (callers σ !! i) as [[|rq d0| | |]|]; try discriminate.
    unfold _Write. destruct (request_serialized rq); cbn [bind];
      intros [= <-]; cbn; auto.
  - destruct (callers σ !! i) as [[| |d0| |]|]; try discriminate.
    destruct (_SendRequest_result _ _ _); try discriminate;
      intros [= <-]; cbn; auto.
  - unfold _Notify.
    pose proof (_BuildRequest_notification method params (completer σ)) as E.
    destruct (_BuildRequest method params false (completer σ)) as [rq s'].
    cbn [snd] in E. subst s'. unfold _Write.
    destruct (request_serialized rq); cbn [bind]; intros [= <-]; cbn; auto.
  - rewrite Hd. discriminate.
  - unfold take_diagnostics.
    destruct (Event_wait _ _ _); [|discriminate]. intros [= <-]. cbn. auto.
  - destruct (eof _); [discriminate|]. intros [= <-]. cbn. auto.
  - intros [= <-]. cbn. auto.
  - intros [= <-]. cbn. auto.
Qed.

(** X6.  The end of the reader thread is final.  Whatever runs afterwards,
    a restart by [_StartServer] included, the thread stays dead: no deferred
    is resolved any more, so no [_Invoke] gets a reply; no diagnostics
    arrive, so an empty slot stays empty; and nothing is logged. *)
Theorem X6_dead_reader_is_never_restarted (σ σ' : system) (e : exn)
    (ls : list label) :
  reader_died σ = Some e ->
  run ls σ = Some σ' ->
  reader_died σ' = Some e
  /\ step LReader σ' = None
  /\ resolved_trace ls σ = []
  /\ _logger (completer σ') = _logger (completer σ)
  /\ (forall d dr, heap (completer σ) !! d = Some dr ->
                   heap (completer σ') !! d = Some dr)
  /\ (_has_diagnostics (completer σ) = false ->
      _has_diagnostics (completer σ') = false).
Proof.
  intros Hd Hrun.
  assert (H : reader_died σ' = Some e
    /\ resolved_trace ls σ = []
    /\ _logger (completer σ') = _logger (completer σ)
    /\ (forall d dr, heap (completer σ) !! d = Some dr ->
                     heap (completer σ') !! d = Some dr)
    /\ (_has_diagnostics (completer σ) = false ->
        _has_diagnostics (completer σ') = false)).
  { revert σ Hd Hrun. induction ls as [|l ls IH]; intros σ Hd;
      cbn [run resolved_trace].
    - intros [= <-]. auto.
    - destruct (step l σ) as [σ1|] eqn:E; [|discriminate]. intros Hrun.
      destruct (step_reader_dead l σ σ1 e Hd E) as (A & B & C & D & F).
      destruct (IH σ1 A Hrun) as (A' & B' & C' & D' & F').
      rewrite B, B'. repeat split; auto; congruence. }
  destruct H as (A & B & C & D & F). repeat split; auto.
  cbn [step]. now rewrite A.
Qed.

Lemma X6_dead_reader_is_never_restarted_witness :
  let σ := after [LReader] array_sent in
  let ls := LStartServer :: invoke_labels
            ++ [LServerWrite (frame_of late_reply); LResult 0 true] in
  let σ' := after ls σ in
  reader_died σ = Some (TypeError "list indices must be integers")
  /\ run ls σ = Some σ'
  /\ reader_died σ' = Some (TypeError "list indices must be integers")
  /\ step LReader σ' = None
  /\ resolved_trace ls σ = []
  /\ _logger (completer σ') = _logger (completer σ)
  /\ (forall d dr, heap (completer σ) !! d = Some dr ->
                   heap (completer σ') !! d = Some dr)
  /\ (_has_diagnostics (completer σ) = false ->
      _has_diagnostics (completer σ') = false).
Proof.
  intros σ ls σ'.
  assert (H1 : reader_died σ = Some (TypeError "list indices must be integers"))
    by (vm_compute; reflexivity).
  assert (H2 : run ls σ = Some σ') by (vm_compute; reflexivity).
  split; [exact H1|]. split; [exact H2|].
  exact (X6_dead_reader_is_never_restarted σ σ' _ ls H1 H2).
Defined.

(** X7.  The running flag is cleared by nothing but a failed read: if a
    step finds the flag set and leaves it clear, the step is a round of the
    reader loop in which [_Read] raised, and the exception was logged. *)
Theorem X7_only_a_failed_read_clears_the_gate (l : label) (σ σ' : system) :
  step l σ = Some σ' ->
  _server_is_running (completer σ) = true ->
  _server_is_running (completer σ') = false ->
  l = LReader
  /\ reader_died σ' = None
  /\ exists e out,
       _Read (_server_stdout (completer σ)) = Raised e out
       /\ _server_stdout (completer σ') = out
       /\ _logger (completer σ')
          = _logger (completer σ) ++ [(SERVER_NOT_RUNNING_MESSAGE, e)].
Proof.
  intros Hstep Hon Hoff. destruct l; cbn [step] in Hstep.
  - pose proof (_BuildRequest_running method params true (completer σ)) as E.
    destruct (_BuildRequest method params true (completer σ)) as [rq s'].
    injection Hstep as <-. cbn in *. congruence.
  - destruct (callers σ !! i) as [[rq| | | |]|]; try discriminate.
    unfold _SendRequest_register in Hstep.
    destruct (bind _ _); injection Hstep as <-; cbn in *; congruence.
  - destruct (callers σ !! i) as [[|rq d| | |]|]; try discriminate.
    destruct (_Write rq (completer σ)) eqn:E; injection Hstep as <-;
      cbn in *; [|congruence].
    apply _Write_running in E. congruence.
  - destruct (callers σ !! i) as [[| |d| |]|]; try discriminate.
    destruct (_SendRequest_result _ _ _); try discriminate;
      injection Hstep as <-; cbn in *; congruence.
  - unfold _Notify in Hstep.
    pose proof (_BuildRequest_running method params false (completer σ)) as E.
    destruct (_BuildRequest method params false (completer σ)) as [rq s'].
    cbn [snd] in E.
    destruct (_Write rq s') eqn:W; injection Hstep as <-; cbn in *;
      [|congruence].
    apply _Write_running in W. congruence.
  - split; [reflexivity|]. unfold _ReaderLoop_body in Hstep.
    destruct (reader_died σ) eqn:Ed; [discriminate|].
    rewrite Hon in Hstep. cbn [negb] in Hstep.
    destruct (_Read (_server_stdout (completer σ))) as [|e out|message out].
    + discriminate.
    + injection Hstep as <-. cbn. split; [exact Ed|].
      exists e, out. repeat split.
    + exfalso.
      pose proof (dispatch_cases message (set_stdout out (completer σ))) as Hc.
      destruct (resolves message (set_stdout out (completer σ))) as [[k d]|].
      * rewrite Hc in Hstep. injection Hstep as <-. cbn in Hoff. congruence.
      * assert (Hrun : forall s, dispatch message (set_stdout out (completer σ))
                                 = LoopContinue s ->
                                 _server_is_running s = true).
        { unfold dispatch. intros s.
          destruct (py_in _ _) as [[]|]; try discriminate.
          - destruct (bind _ _); try discriminate.
            destruct (_pending _ !! _); intros [= <-]; exact Hon.
          - destruct (getitem _ _); try discriminate.
            destruct (is_str _ _); intros [= <-]; exact Hon. }
        destruct (dispatch message (set_stdout out (completer σ)))
          as [|self'|e self']; [contradiction| |].
        -- injection Hstep as <-. cbn in Hoff.
           rewrite (Hrun self' eq_refl) in Hoff. discriminate.
        -- subst self'. injection Hstep as <-. cbn in Hoff. congruence.
  - unfold take_diagnostics in Hstep.
    destruct (Event_wait _ _ _); [|discriminate].
    injection Hstep as <-. cbn in *. congruence.
  - destruct (eof _); [discriminate|]. injection Hstep as <-.
    cbn in *. congruence.
  - injection Hstep as <-. cbn in *. congruence.
  - injection Hstep as <-. cbn in *. congruence.
Qed.

Lemma X7_only_a_failed_read_clears_the_gate_witness :
  let σ' := after [LReader] malformed_system in
  step LReader malformed_system = Some σ'
  /\ _server_is_running (completer malformed_system) = true
  /\ _server_is_running (completer σ') = false
  /\ LReader = LReader
  /\ reader_died σ' = None
  /\ exists e out,
       _Read (_server_stdout (completer malformed_system)) = Raised e out
       /\ _server_stdout (completer σ') = out
       /\ _logger (completer σ')
          = _logger (completer malformed_system)
            ++ [(SERVER_NOT_RUNNING_MESSAGE, e)].
Proof.
  intros σ'.
  assert (H1 : step LReader malformed_system = Some σ')
    by (vm_compute; reflexivity).
  assert (H2 : _server_is_running (completer malformed_system) = true)
    by reflexivity.
  assert (H3 : _server_is_running (completer σ') = false)
    by (vm_compute; reflexivity).
  split; [exact H1|]. split; [exact H2|]. split; [exact H3|].
  exact (X7_only_a_failed_read_clears_the_gate LReader malformed_system σ'
           H1 H2 H3).
Defined.

(** ** Requests and notifications on the wire *)

Lemma _BuildRequest_shape method params b self :
  fst (_BuildRequest method params b self)
  = JDict ([(u "jsonrpc", JStr (u "2.0"))]
           ++ (if b then [(u "id", JInt (_sequenceid self))] else [])
           ++ [(u "method", method)]
           ++ match params with
              | JNull => []
              | _ => [(u "params", params)]
              end).
Proof. unfold _BuildRequest. destruct b, params; reflexivity. Qed.

Lemma _BuildRequest_valid method params b self :
  valid_json method = true -> valid_json params = true ->
  valid_json (fst (_BuildRequest method params b self)) = true.
Proof.
  intros Hm Hp. rewrite _BuildRequest_shape.
  assert (K1 : bool_decide (NoDup [u "jsonrpc"; u "id"; u "method"; u "params"])
               = true) by (vm_compute; reflexivity).
  assert (K2 : bool_decide (NoDup [u "jsonrpc"; u "id"; u "method"]) = true)
    by (vm_compute; reflexivity).
  assert (K3 : bool_decide (NoDup [u "jsonrpc"; u "method"; u "params"]) = true)
    by (vm_compute; reflexivity).
  assert (K4 : bool_decide (NoDup [u "jsonrpc"; u "method"]) = true)
    by (vm_compute; reflexivity).
  assert (S1 : valid_str (u "jsonrpc") = true) by (vm_compute; reflexivity).
  assert (S2 : valid_str (u "id") = true) by (vm_compute; reflexivity).
  assert (S3 : valid_str (u "method") = true) by (vm_compute; reflexivity).
  assert (S4 : valid_str (u "params") = true) by (vm_compute; reflexivity).
  assert (S5 : valid_str (u "2.0") = true) by (vm_compute; reflexivity).
  destruct b;
    destruct params;
    cbn [valid_json app List.map fst snd forallb] in *;
    rewrite ?K1, ?K2, ?K3, ?K4, ?S1, ?S2, ?S3, ?S4, ?S5, ?Hm, ?Hp;
    reflexivity.
Qed.

Lemma _BuildRequest_fields method params b self :
  let request := fst (_BuildRequest method params b self) in
  py_in (u "id") request = Ok b
  /\ getitem request (u "jsonrpc") = Ok (JStr (u "2.0"))
  /\ getitem request (u "method") = Ok method
  /\ match params with
     | JNull => py_in (u "params") request = Ok false
     | _ => getitem request (u "params") = Ok params
     end.
Proof. unfold _BuildRequest. destruct b, params; repeat split. Qed.

Lemma _Write_frame request self :
  _Write request self
  = Ok (set_stdin (_server_stdin self ++ frame_of request) self)
  /\ frame_of request <> [].
Proof.
  unfold _Write, frame_of. rewrite request_serialized_eq. cbn [bind].
  split; [reflexivity|discriminate].
Qed.

Lemma _Read_frame_of_app m rest e :
  valid_json m = true ->
  _Read {| buf := frame_of m ++ rest; eof := e |}
  = Returned m {| buf := rest; eof := e |}.
Proof.
  intros Hm. unfold frame_of. rewrite request_serialized_eq.
  now apply _Read_frame.
Qed.

Lemma _Notify_sent (method params : json)
    (self : ClangdCompleter) (rest : bytes) (e : bool) :
  valid_json method = true ->
  valid_json params = true ->
  exists (request : json) (frame : bytes) (self' : ClangdCompleter),
    _Notify method params self = Ok self'
    /\ wrote frame self self'
    /\ frame <> []
    /\ _Read {| buf := frame ++ rest; eof := e |}
       = Returned request {| buf := rest; eof := e |}
    /\ py_in (u "id") request = Ok false
    /\ getitem request (u "jsonrpc") = Ok (JStr (u "2.0"))
    /\ getitem request (u "method") = Ok method
    /\ match params with
       | JNull => py_in (u "params") request = Ok false
       | _ => getitem request (u "params") = Ok params
       end.
Proof.
  intros Hm Hp.
  pose proof (_BuildRequest_valid method params false self Hm Hp) as Hv.
  pose proof (_BuildRequest_fields method params false self) as Hf.
  pose proof (_BuildRequest_notification method params self) as Hs.
  unfold _Notify.
  destruct (_BuildRequest method params false self) as [request s'].
  cbn [fst snd] in *. subst s'.
  destruct (_Write_frame request self) as [Hw Hne].
  exists request, (frame_of request). eexists. split; [exact Hw|].
  split; [repeat split|]. split; [exact Hne|].
  split; [now apply _Read_frame_of_app|exact Hf].
Qed.

(** X8.  [_Notify] appends one frame to the server's stdin and changes
    nothing else of the object: no id is used up and nothing is registered.
    A reader of that frame gets a message without ['id'], with
    ['jsonrpc'] 2.0 and the method given; ['params'] is there exactly when
    the params are not [None]. *)
Theorem X8_notify_sends_request_without_id (method params : json)
    (self : ClangdCompleter) (rest : bytes) (e : bool) :
  valid_json method = true ->
  valid_json params = true ->
  exists (request : json) (frame : bytes) (self' : ClangdCompleter),
    _Notify method params self = Ok self'
    /\ wrote frame self self'
    /\ frame <> []
    /\ _Read {| buf := frame ++ rest; eof := e |}
       = Returned request {| buf := rest; eof := e |}
    /\ py_in (u "id") request = Ok false
    /\ getitem request (u "jsonrpc") = Ok (JStr (u "2.0"))
    /\ getitem request (u "method") = Ok method
    /\ match params with
       | JNull => py_in (u "params") request = Ok false
       | _ => getitem request (u "params") = Ok params
       end.
Proof. exact (_Notify_sent method params self rest e). Qed.

Lemma X8_notify_sends_request_without_id_witness :
  valid_json (JStr (u "exit")) = true
  /\ valid_json JNull = true
  /\ exists (request : json) (frame : bytes) (self' : ClangdCompleter),
    _Notify (JStr (u "exit")) JNull init = Ok self'
    /\ wrote frame init self'
    /\ frame <> []
    /\ _Read {| buf := frame ++ [7]; eof := true |}
       = Returned request {| buf := [7]; eof := true |}
    /\ py_in (u "id") request = Ok false
    /\ getitem request (u "jsonrpc") = Ok (JStr (u "2.0"))
    /\ getitem request (u "method") = Ok (JStr (u "exit"))
    /\ py_in (u "params") request = Ok false.
Proof.
  assert (H1 : valid_json (JStr (u "exit")) = true) by (vm_compute; reflexivity).
  assert (H2 : valid_json JNull = true) by reflexivity.
  split; [exact H1|]. split; [exact H2|].
  exact (X8_notify_sends_request_without_id (JStr (u "exit")) JNull init
           [7] true H1 H2).
Defined.

Lemma _Invoke_send_round_trip (method params : json)
    (self : ClangdCompleter) (rest : bytes) (e : bool) :
  valid_json method = true ->
  valid_json params = true ->
  exists (request : json) (frame : bytes),
    _Invoke_send method params self
    = Ok (length (heap self),
          set_stdin (_server_stdin self ++ frame)
            (set_pending
               (<[KInt (_sequenceid self) := length (heap self)]>
                  (_pending self))
               (heap self ++ [DeferredResponse_init])
               (set_sequenceid (_sequenceid self + 1) self)))
    /\ _Read {| buf := frame ++ rest; eof := e |}
       = Returned request {| buf := rest; eof := e |}
    /\ getitem request (u "id") = Ok (JInt (_sequenceid self))
    /\ getitem request (u "jsonrpc") = Ok (JStr (u "2.0"))
    /\ getitem request (u "method") = Ok method
    /\ match params with
       | JNull => py_in (u "params") request = Ok false
       | _ => getitem request (u "params") = Ok params
       end.
Proof.
  intros Hm Hp.
  pose proof (_BuildRequest_valid method params true self Hm Hp) as Hv.
  pose proof (_BuildRequest_fields method params true self) as Hf.
  pose proof (_BuildRequest_id method params self) as [Hid Hs].
  unfold _Invoke_send.
  destruct (_BuildRequest method params true self) as [request s'].
  cbn [fst snd] in *. subst s'.
  exists request. eexists. split; [|split; [|split; [exact Hid|apply Hf]]].
  - unfold _SendRequest_send, _SendRequest_register. rewrite Hid.
    cbn [bind hash_key]. unfold _Write. rewrite request_serialized_eq.
    reflexivity.
  - now apply _Read_frame.
Qed.

(** X9.  [_Invoke], up to its wait, takes the current value of the
    counter as the id, advances the counter by one, registers a new
    unresolved deferred (no message, timeout of ten seconds) under that id
    and appends one frame to the server's stdin; nothing else of the object
    changes.  A reader of that frame gets a message with that ['id'], with
    ['jsonrpc'] 2.0 and the method given; ['params'] is there exactly when
    the params are not [None]. *)
Theorem X9_invoke_sends_numbered_request (method params : json)
    (self : ClangdCompleter) (rest : bytes) (e : bool) :
  valid_json method = true ->
  valid_json params = true ->
  exists (request : json) (frame : bytes) (self' : ClangdCompleter)
         (deferred : DeferredResponse),
    _Invoke_send method params self = Ok (length (heap self), self')
    /\ _server_stdin self' = _server_stdin self ++ frame
    /\ frame <> []
    /\ _sequenceid self' = (_sequenceid self + 1)%Z
    /\ _pending self'
       = <[KInt (_sequenceid self) := length (heap self)]> (_pending self)
    /\ heap self' = heap self ++ [deferred]
    /\ _event deferred = false
    /\ _message deferred = JNull
    /\ _timeout deferred = 10%Z
    /\ _server_stdout self' = _server_stdout self
    /\ _server_is_running self' = _server_is_running self
    /\ _diagnostics self' = _diagnostics self
    /\ _has_diagnostics self' = _has_diagnostics self
    /\ _logger self' = _logger self
    /\ _Read {| buf := frame ++ rest; eof := e |}
       = Returned request {| buf := rest; eof := e |}
    /\ getitem request (u "id") = Ok (JInt (_sequenceid self))
    /\ getitem request (u "jsonrpc") = Ok (JStr (u "2.0"))
    /\ getitem request (u "method") = Ok method
    /\ match params with
       | JNull => py_in (u "params") request = Ok false
       | _ => getitem request (u "params") = Ok params
       end.
Proof.
  intros Hm Hp.
  pose proof (_BuildRequest_valid method params true self Hm Hp) as Hv.
  pose proof (_BuildRequest_fields method params true self) as Hf.
  pose proof (_BuildRequest_id method params self) as [Hid Hs].
  unfold _Invoke_send.
  destruct (_BuildRequest method params true self) as [request s'].
  cbn [fst snd] in *. subst s'.
  exists request. do 3 eexists. split.
  { unfold _SendRequest_send, _SendRequest_register. rewrite Hid.
    cbn [bind hash_key]. unfold _Write. rewrite request_serialized_eq.
    cbn [bind]. reflexivity. }
  cbn [set_stdin set_pending set_sequenceid _server_stdin _server_stdout
       _server_is_running _sequenceid _pending heap _diagnostics
       _has_diagnostics _logger].
  split; [reflexivity|]. split; [discriminate|].
  repeat (split; [reflexivity|]).
  split; [now apply _Read_frame|]. split; [exact Hid|apply Hf].
Qed.

Lemma X9_invoke_sends_numbered_request_witness :
  let method := JStr (u "textDocument/completion") in
  let params := completion_params sample_request_data in
  valid_json method = true
  /\ valid_json params = true
  /\ exists (request : json) (frame : bytes) (self' : ClangdCompleter)
            (deferred : DeferredResponse),
    _Invoke_send method params init = Ok (length (heap init), self')
    /\ _server_stdin self' = _server_stdin init ++ frame
    /\ frame <> []
    /\ _sequenceid self' = (_sequenceid init + 1)%Z
    /\ _pending self'
       = <[KInt (_sequenceid init) := length (heap init)]> (_pending init)
    /\ heap self' = heap init ++ [deferred]
    /\ _event deferred = false
    /\ _message deferred = JNull
    /\ _timeout deferred = 10%Z
    /\ _server_stdout self' = _server_stdout init
    /\ _server_is_running self' = _server_is_running init
    /\ _diagnostics self' = _diagnostics init
    /\ _has_diagnostics self' = _has_diagnostics init
    /\ _logger self' = _logger init
    /\ _Read {| buf := frame ++ []; eof := false |}
       = Returned request {| buf := []; eof := false |}
    /\ getitem request (u "id") = Ok (JInt (_sequenceid init))
    /\ getitem request (u "jsonrpc") = Ok (JStr (u "2.0"))
    /\ getitem request (u "method") = Ok method
    /\ getitem request (u "params") = Ok params.
Proof.
  intros method params.
  assert (H1 : valid_json method = true) by (vm_compute; reflexivity).
  assert (H2 : valid_json params = true) by (vm_compute; reflexivity).
  split; [exact H1|]. split; [exact H2|].
  exact (X9_invoke_sends_numbered_request method params init [] false H1 H2).
Defined.

Lemma insert_last {A} (l : list A) (x y : A) :
  <[length l := y]> (l ++ [x]) = l ++ [y].
Proof.
  rewrite insert_app_r_alt by reflexivity. now rewrite Nat.sub_diag.
Qed.

Lemma run_cons l ls σ σ1 r :
  step l σ = Some σ1 -> run ls σ1 = r -> run (l :: ls) σ = r.
Proof. intros H1 H2. cbn [run]. now rewrite H1. Qed.

Lemma _Read_frame_of m e :
  valid_message m = true ->
  _Read {| buf := frame_of m; eof := e |} = Returned m {| buf := []; eof := e |}.
Proof.
  intros Hm.
  assert (Hv : valid_json m = true) by (destruct m; try discriminate; exact Hm).
  unfold frame_of. rewrite request_serialized_eq.
  pose proof (_Read_frame m [] e Hv) as H.
  now rewrite List.app_nil_r in H.
Qed.

(** X10.  A whole call of [_Invoke], against a server that answers.  The
    server was started once and not started again, so the reader thread
    reads from the pipe of the one server there is; the thread is alive,
    the running flag is set and the server's stdout is open and drained.
    The caller builds, registers and writes its request; the server writes
    a message that carries the request's id; the reader loop reads it.
    Then [_Invoke] returns that message, before the deadline or at it, the
    id has left the pending table and the counter has advanced by one. *)
Theorem X10_answered_invoke_returns_the_reply (ls : list label) (σ : system)
    (method params reply : json) (elapsed : bool) :
  run ls init_system = Some σ ->
  started_once ls = true ->
  reader_died σ = None ->
  _server_is_running (completer σ) = true ->
  _server_stdout (completer σ) = {| buf := []; eof := false |} ->
  valid_message reply = true ->
  reply_id reply = Some (KInt (_sequenceid (completer σ))) ->
  let i := length (callers σ) in
  exists σ',
    run [LInvoke method params; LRegister i; LWrite i;
         LServerWrite (frame_of reply); LReader; LResult i elapsed] σ
    = Some σ'
    /\ callers σ' !! i = Some (CReturned reply)
    /\ _pending (completer σ')
       = delete (KInt (_sequenceid (completer σ))) (_pending (completer σ))
    /\ _sequenceid (completer σ') = (_sequenceid (completer σ) + 1)%Z
    /\ reader_died σ' = None.
Proof.
  intros _ _ Hd Hrun Hout Hreply Hid i.
  destruct σ as [self cs rd]. cbn [completer callers reader_died] in *.
  subst rd. subst i.
  pose proof (_BuildRequest_id method params self) as [Hrq Hs].
  destruct (_BuildRequest method params true self) as [rq s1] eqn:Eb.
  cbn [fst snd] in Hrq, Hs. subst s1.
  eexists. split.
  { eapply run_cons.
    { cbn [step completer callers reader_died]. rewrite Eb. reflexivity. }
    eapply run_cons.
    { cbn [step completer callers reader_died].
      rewrite list_lookup_middle by reflexivity.
      unfold _SendRequest_register. rewrite Hrq. cbn [bind hash_key].
      unfold set_caller. cbn [completer callers reader_died].
      rewrite insert_last. cbn [set_sequenceid heap _pending]. reflexivity. }
    eapply run_cons.
    { cbn [step completer callers reader_died].
      rewrite list_lookup_middle by reflexivity.
      unfold _Write. rewrite request_serialized_eq. cbn [bind].
      unfold set_caller. cbn [completer callers reader_died].
      rewrite insert_last. reflexivity. }
    eapply run_cons.
    { cbn [step completer callers reader_died set_stdin set_pending
           _server_stdout set_sequenceid].
      rewrite Hout. cbn [eof buf app]. unfold set_completer.
      cbn [completer callers reader_died]. reflexivity. }
    eapply run_cons.
    { cbn [step completer callers reader_died]. unfold _ReaderLoop_body.
      cbn [set_stdout set_stdin set_pending set_sequenceid _server_is_running
           _server_stdout].
      rewrite Hrun.
      cbn [negb]. rewrite (_Read_frame_of reply false Hreply).
      erewrite dispatch_resolves.
      2:{ unfold resolves. rewrite Hid.
          cbn [_pending set_stdout set_stdin set_pending set_sequenceid].
          rewrite lookup_insert_eq. reflexivity. }
      unfold set_completer. cbn [completer callers reader_died]. reflexivity. }
    eapply run_cons; [|reflexivity].
    cbn [step completer callers reader_died].
    rewrite list_lookup_middle by reflexivity.
    erewrite result_resolved.
    2:{ cbn [set_pending set_stdout set_stdin set_sequenceid heap].
        rewrite list_lookup_alter_eq.
        rewrite list_lookup_middle by reflexivity. reflexivity. }
    unfold set_caller. cbn [completer callers reader_died].
    rewrite insert_last. reflexivity. }
  cbn [completer callers reader_died].
  rewrite list_lookup_middle by reflexivity.
  cbn [set_pending set_stdout set_stdin set_sequenceid _pending _sequenceid].
  rewrite delete_insert_eq. repeat split.
Qed.

Lemma X10_answered_invoke_returns_the_reply_witness :
  let method := JStr (u "textDocument/completion") in
  let params := completion_params sample_request_data in
  let ls := [LNotify (JStr (u "textDocument/didOpen")) JNull] in
  let σ := after ls init_system in
  run ls init_system = Some σ
  /\ started_once ls = true
  /\ reader_died σ = None
  /\ _server_is_running (completer σ) = true
  /\ _server_stdout (completer σ) = {| buf := []; eof := false |}
  /\ valid_message late_reply = true
  /\ reply_id late_reply = Some (KInt (_sequenceid (completer σ)))
  /\ exists σ',
    run [LInvoke method params; LRegister 0; LWrite 0;
         LServerWrite (frame_of late_reply); LReader; LResult 0 false] σ
    = Some σ'
    /\ callers σ' !! 0%nat = Some (CReturned late_reply)
    /\ _pending (completer σ')
       = delete (KInt (_sequenceid (completer σ))) (_pending (completer σ))
    /\ _sequenceid (completer σ') = (_sequenceid (completer σ) + 1)%Z
    /\ reader_died σ' = None.
Proof.
  intros method params ls σ.
  assert (H1 : run ls init_system = Some σ) by (vm_compute; reflexivity).
  assert (H2 : started_once ls = true) by reflexivity.
  assert (H3 : reader_died σ = None) by (vm_compute; reflexivity).
  assert (H4 : _server_is_running (completer σ) = true)
    by (vm_compute; reflexivity).
  assert (H5 : _server_stdout (completer σ) = {| buf := []; eof := false |})
    by (vm_compute; reflexivity).
  assert (H6 : valid_message late_reply = true) by (vm_compute; reflexivity).
  assert (H7 : reply_id late_reply = Some (KInt (_sequenceid (completer σ))))
    by (vm_compute; reflexivity).
  split; [exact H1|]. split; [exact H2|]. split; [exact H3|].
  split; [exact H4|]. split; [exact H5|]. split; [exact H6|].
  split; [exact H7|].
  exact (X10_answered_invoke_returns_the_reply ls σ method params late_reply
           false H1 H2 H3 H4 H5 H6 H7).
Defined.

(** ** Completion items and diagnostics, one by one *)

Lemma mapM_lookup {A B} (f : A -> result B) (l : list A) (out : list B) :
  mapM f l = Ok out ->
  length out = length l
  /\ forall i a, l !! i = Some a -> exists b, out !! i = Some b /\ f a = Ok b.
Proof.
  revert out. induction l as [|a r IH]; intros out; cbn [mapM].
  - intros [= <-]. split; [reflexivity|]. intros i a H. discriminate.
  - destruct (f a) as [b|e] eqn:Ea; cbn [bind]; [|discriminate].
    destruct (mapM f r) as [bs|e]; cbn [bind]; [|discriminate].
    intros [= <-]. destruct (IH bs eq_refl) as [Hl Hi].
    split; [cbn; now rewrite Hl|].
    intros [|i] a'; cbn.
    + intros [= <-]. now exists b.
    + apply Hi.
Qed.

Lemma mapM_Err {A B} (f : A -> result B) (l : list A) (e : exn) :
  Forall (fun a => forall e', f a = Err e' -> e' = e) l ->
  Exists (fun a => exists e', f a = Err e') l ->
  mapM f l = Err e.
Proof.
  induction l as [|a r IH]; intros Hall Hex.
  - inversion Hex.
  - apply Forall_cons in Hall as [Ha Hall]. cbn [mapM].
    destruct (f a) as [b|e'] eqn:Ea; cbn [bind].
    + rewrite IH; [reflexivity|exact Hall|].
      apply Exists_cons in Hex as [[e' He]|Hex]; [congruence|exact Hex].
    + now rewrite (Ha e' eq_refl).
Qed.

(** X11.  What [ComputeCandidatesInner] returns for the reply [res] has
    one entry for each element of [res[ 'result' ]], in the same order; the
    entry's insertion text is the element's ['label'] and its kind is the
    element's ['kind'], or [None] when the element has none.  Nothing is
    filtered, sorted or merged. *)
Theorem X11_completions_follow_the_reply (res : json)
    (out : list CompletionData) :
  ComputeCandidatesInner_return res = Ok out ->
  exists (result : json) (items : list json),
    getitem res (u "result") = Ok result
    /\ py_iter result = Ok items
    /\ length out = length items
    /\ forall i item,
        items !! i = Some item ->
        exists c,
          out !! i = Some c
          /\ getitem item (u "label") = Ok (insertion_text c)
          /\ dict_get_default item (u "kind") = Ok (kind c).
Proof.
  unfold ComputeCandidatesInner_return.
  destruct (getitem res (u "result")) as [result|] eqn:E1; cbn [bind];
    [|discriminate].
  destruct (py_iter result) as [items|] eqn:E2; cbn [bind]; [|discriminate].
  intros H. exists result, items. split; [reflexivity|]. split; [exact E2|].
  destruct (mapM_lookup _ _ _ H) as [Hl Hi]. split; [exact Hl|].
  intros i item Hitem. destruct (Hi i item Hitem) as (c & Hc & Hf).
  exists c. split; [exact Hc|]. revert Hf.
  unfold _LSPCompletionItemToCompletionData.
  destruct (getitem item (u "label")) as [label|]; cbn [bind]; [|discriminate].
  destruct (dict_get_default item (u "kind")) as [k|]; cbn [bind];
    [|discriminate].
  intros [= <-]. split; reflexivity.
Qed.

Lemma X11_completions_follow_the_reply_witness :
  let out := [ {| insertion_text := JStr (u "push_back"); kind := JInt 2 |};
               {| insertion_text := JStr (u "pop_back"); kind := JNull |} ] in
  ComputeCandidatesInner_return completion_reply = Ok out
  /\ exists (result : json) (items : list json),
    getitem completion_reply (u "result") = Ok result
    /\ py_iter result = Ok items
    /\ length out = length items
    /\ forall i item,
        items !! i = Some item ->
        exists c,
          out !! i = Some c
          /\ getitem item (u "label") = Ok (insertion_text c)
          /\ dict_get_default item (u "kind") = Ok (kind c).
Proof.
  intros out.
  assert (H : ComputeCandidatesInner_return completion_reply = Ok out)
    by (vm_compute; reflexivity).
  split; [exact H|].
  exact (X11_completions_follow_the_reply completion_reply out H).
Defined.

(** X12.  One bad item spoils the completion.  When the reply's
    ['result'] is a list of dicts and one of them has no ['label'],
    [ComputeCandidatesInner] raises [KeyError( 'label' )]: the items that do
    have a label are not returned. *)
Theorem X12_item_without_label_fails_the_completion (res : json)
    (items : list (list (ustring * json))) :
  getitem res (u "result") = Ok (JList (List.map JDict items)) ->
  Exists (fun d => dict_get (u "label") d = None) items ->
  ComputeCandidatesInner_return res = Err (KeyError (u "label")).
Proof.
  intros Hres Hex. unfold ComputeCandidatesInner_return.
  rewrite Hres. cbn [bind py_iter]. apply mapM_Err.
  - apply List.Forall_forall. intros a Ha. apply in_map_iff in Ha as (d & <- & _).
    unfold _LSPCompletionItemToCompletionData. cbn [getitem dict_get_default].
    destruct (dict_get (u "label") d); cbn [bind]; intros e' [=]. now subst.
  - apply List.Exists_exists in Hex as (d & Hd & Hnone).
    apply List.Exists_exists. exists (JDict d). split; [now apply in_map|].
    unfold _LSPCompletionItemToCompletionData. cbn [getitem].
    rewrite Hnone. cbn [bind]. now eexists.
Qed.

Lemma X12_item_without_label_fails_the_completion_witness :
  let res := JDict [(u "id", JInt 1);
                    (u "result", JList (List.map JDict unlabelled_items))] in
  getitem res (u "result") = Ok (JList (List.map JDict unlabelled_items))
  /\ Exists (fun d => dict_get (u "label") d = None) unlabelled_items
  /\ ComputeCandidatesInner_return res = Err (KeyError (u "label")).
Proof.
  intros res.
  assert (H1 : getitem res (u "result")
               = Ok (JList (List.map JDict unlabelled_items)))
    by (vm_compute; reflexivity).
  assert (H2 : Exists (fun d => dict_get (u "label") d = None) unlabelled_items)
    by (apply List.Exists_cons_tl, List.Exists_cons_hd; vm_compute; reflexivity).
  split; [exact H1|]. split; [exact H2|].
  exact (X12_item_without_label_fails_the_completion res unlabelled_items H1 H2).
Defined.

Lemma _LspToYcmdDiagnostic_inv cvt fp lv d dg :
  _LspToYcmdDiagnostic cvt fp lv d = Ok dg ->
  exists range first last c1 c2,
    getitem d (u "range") = Ok range
    /\ getitem range (u "start") = Ok first
    /\ getitem range (u "end") = Ok last
    /\ getitem first (u "character") = Ok c1
    /\ getitem last (u "character") = Ok c2
    /\ cvt lv c1 = Ok (column_number_ (location_ dg))
    /\ cvt lv c2 = Ok (column_number_ (end_ (location_extent_ dg)))
    /\ getitem first (u "line") = Ok (line_number_ (location_ dg))
    /\ getitem last (u "line") = Ok (line_number_ (end_ (location_extent_ dg)))
    /\ getitem d (u "message") = Ok (text_ dg)
    /\ filename_ (location_ dg) = fp
    /\ filename_ (end_ (location_extent_ dg)) = fp
    /\ start_ (location_extent_ dg) = location_ dg
    /\ ranges_ dg = [location_extent_ dg].
Proof.
  unfold _LspToYcmdDiagnostic.
  destruct (getitem d (u "range")) as [range|] eqn:E1; cbn [bind];
    [|discriminate].
  destruct (getitem range (u "start")) as [first|] eqn:E2; cbn [bind];
    [|discriminate].
  destruct (getitem range (u "end")) as [last|] eqn:E3; cbn [bind];
    [|discriminate].
  destruct (getitem first (u "character")) as [c1|] eqn:E4; cbn [bind];
    [|discriminate].
  destruct (cvt lv c1) as [o1|] eqn:E5; cbn [bind]; [|discriminate].
  destruct (getitem last (u "character")) as [c2|] eqn:E6; cbn [bind];
    [|discriminate].
  destruct (cvt lv c2) as [o2|] eqn:E7; cbn [bind]; [|discriminate].
  destruct (getitem first (u "line")) as [l1|] eqn:E8; cbn [bind];
    [|discriminate].
  destruct (getitem last (u "line")) as [l2|] eqn:E9; cbn [bind];
    [|discriminate].
  destruct (getitem d (u "message")) as [msg|] eqn:E10; cbn [bind];
    [|discriminate].
  intros [= <-]. exists range, first, last, c1, c2. cbn.
  repeat split; assumption.
Qed.

(** X13.  What [GetDiagnosticsForCurrentFile] returns follows the document
    in the slot entry by entry: one diagnostic for each element of
    [params.diagnostics], in the same order.  Each one is placed in the file
    of the request, whatever ['uri'] the document names; its line numbers
    are the LSP line numbers, unchanged; its columns are the LSP characters
    converted on the line of the request ([line_value]), whatever line the
    diagnostic is on; its only range is its extent, which starts at its
    location. *)
Theorem X13_diagnostics_follow_the_document
    (cvt : ustring -> json -> result Z) (rd : request_data)
    (self self' : ClangdCompleter) (elapsed : bool) (out : list Diagnostic) :
  GetDiagnosticsForCurrentFile cvt rd self elapsed = Returned out self' ->
  exists (params ds : json) (items : list json),
    getitem (_diagnostics self) (u "params") = Ok params
    /\ getitem params (u "diagnostics") = Ok ds
    /\ py_iter ds = Ok items
    /\ length out = length items
    /\ forall i item,
        items !! i = Some item ->
        exists dg range first last c1 c2,
          out !! i = Some dg
          /\ getitem item (u "range") = Ok range
          /\ getitem range (u "start") = Ok first
          /\ getitem range (u "end") = Ok last
          /\ getitem first (u "character") = Ok c1
          /\ getitem last (u "character") = Ok c2
          /\ cvt (line_value rd) c1 = Ok (column_number_ (location_ dg))
          /\ cvt (line_value rd) c2
             = Ok (column_number_ (end_ (location_extent_ dg)))
          /\ getitem first (u "line") = Ok (line_number_ (location_ dg))
          /\ getitem last (u "line")
             = Ok (line_number_ (end_ (location_extent_ dg)))
          /\ getitem item (u "message") = Ok (text_ dg)
          /\ filename_ (location_ dg) = filepath rd
          /\ filename_ (end_ (location_extent_ dg)) = filepath rd
          /\ start_ (location_extent_ dg) = location_ dg
          /\ ranges_ dg = [location_extent_ dg].
Proof.
  unfold GetDiagnosticsForCurrentFile, take_diagnostics.
  destruct (Event_wait _ _ _); [|discriminate].
  destruct (convert_diagnostics cvt rd (_diagnostics self)) as [r|] eqn:E;
    [|discriminate].
  intros [= <- _]. revert E. unfold convert_diagnostics.
  destruct (getitem (_diagnostics self) (u "params")) as [params|] eqn:E1;
    cbn [bind]; [|discriminate].
  destruct (getitem params (u "diagnostics")) as [ds|] eqn:E2; cbn [bind];
    [|discriminate].
  destruct (py_iter ds) as [items|] eqn:E3; cbn [bind]; [|discriminate].
  intros H. exists params, ds, items.
  split; [reflexivity|]. split; [exact E2|]. split; [exact E3|].
  destruct (mapM_lookup _ _ _ H) as [Hl Hi]. split; [exact Hl|].
  intros i item Hitem. destruct (Hi i item Hitem) as (dg & Hdg & Hf).
  destruct (_LspToYcmdDiagnostic_inv _ _ _ _ _ Hf)
    as (range & first & last & c1 & c2 & Hrest).
  exists dg, range, first, last, c1, c2. split; [exact Hdg|exact Hrest].
Qed.

Lemma X13_diagnostics_follow_the_document_witness :
  let self := set_diagnostics foreign_document true init in
  let self' := set_diagnostics JNull false self in
  let first := {| line_number_ := JInt 41; column_number_ := 2;
                  filename_ := u "test.cpp" |} in
  let extent := {| start_ := first;
                   end_ := {| line_number_ := JInt 42; column_number_ := 0;
                              filename_ := u "test.cpp" |} |} in
  let out := [ {| ranges_ := [extent]; location_ := first;
                  location_extent_ := extent;
                  text_ := JStr (u "expected ';'"); kind_ := u "ERROR" |} ] in
  GetDiagnosticsForCurrentFile ascii_offset sample_request_data self false
  = Returned out self'
  /\ exists (params ds : json) (items : list json),
    getitem (_diagnostics self) (u "params") = Ok params
    /\ getitem params (u "diagnostics") = Ok ds
    /\ py_iter ds = Ok items
    /\ length out = length items
    /\ forall i item,
        items !! i = Some item ->
        exists dg range first last c1 c2,
          out !! i = Some dg
          /\ getitem item (u "range") = Ok range
          /\ getitem range (u "start") = Ok first
          /\ getitem range (u "end") = Ok last
          /\ getitem first (u "character") = Ok c1
          /\ getitem last (u "character") = Ok c2
          /\ ascii_offset (line_value sample_request_data) c1
             = Ok (column_number_ (location_ dg))
          /\ ascii_offset (line_value sample_request_data) c2
             = Ok (column_number_ (end_ (location_extent_ dg)))
          /\ getitem first (u "line") = Ok (line_number_ (location_ dg))
          /\ getitem last (u "line")
             = Ok (line_number_ (end_ (location_extent_ dg)))
          /\ getitem item (u "message") = Ok (text_ dg)
          /\ filename_ (location_ dg) = filepath sample_request_data
          /\ filename_ (end_ (location_extent_ dg))
             = filepath sample_request_data
          /\ start_ (location_extent_ dg) = location_ dg
          /\ ranges_ dg = [location_extent_ dg].
Proof.
  intros self self' first extent out.
  assert (H : GetDiagnosticsForCurrentFile ascii_offset sample_request_data
                self false = Returned out self') by (vm_compute; reflexivity).
  split; [exact H|].
  exact (X13_diagnostics_follow_the_document ascii_offset sample_request_data
           self self' false out H).
Defined.

(** ** A frame that has not arrived in full *)

Lemma split_line_none b : Forall (fun c => c <> 10) b -> split_line b = None.
Proof.
  induction 1 as [|c r Hc _ IH]; [reflexivity|].
  cbn [split_line]. apply N.eqb_neq in Hc. now rewrite Hc, IH.
Qed.

Lemma read_headers_blocked fuel h b :
  Forall (fun c => c <> 10) b ->
  read_headers fuel h {| buf := b; eof := false |} = Blocked.
Proof.
  intros Hb. destruct fuel; [reflexivity|]. cbn [read_headers].
  unfold readline. cbn [buf eof]. now rewrite split_line_none.
Qed.

Lemma _Read_no_newline b :
  Forall (fun c => c <> 10) b -> _Read {| buf := b; eof := false |} = Blocked.
Proof.
  intros Hb. unfold _Read. cbn [buf]. now rewrite read_headers_blocked.
Qed.

Lemma read_headers_first fuel n t e :
  read_headers (S fuel) [] {| buf := header_line n ++ 13 :: 10 :: t; eof := e |}
  = read_headers fuel [(u "Content-Length", repr_int (Z.of_nat n))]
      {| buf := t; eof := e |}.
Proof.
  cbn [read_headers]. unfold readline. cbn [buf eof].
  change (header_line n ++ 13 :: 10 :: t)
    with (header_line n ++ [13] ++ 10 :: t).
  rewrite app_assoc, split_line_app by apply header_line_no_lf.
  rewrite <- app_assoc. change ([13] ++ [10]) with [13; 10].
  rewrite header_line_strip.
  assert (Hc : exists tl, header_line n = 67 :: tl) by (eexists; reflexivity).
  destruct Hc as [tl Hc]. rewrite Hc. cbn iota. rewrite <- Hc.
  rewrite (ToUnicode_ascii _ (header_line_ascii n)).
  rewrite header_line_split, header_key_strip, header_value_strip.
  reflexivity.
Qed.

Lemma Forall_firstn {A} (P : A -> Prop) n (l : list A) :
  Forall P l -> Forall P (firstn n l).
Proof.
  intros H. revert n. induction H as [|x r Hx _ IH]; intros [|n]; cbn;
    constructor; auto.
Qed.

Lemma _Read_short_body n (body : bytes) j :
  (j < n)%nat ->
  _Read {| buf := header_line n ++ CRLF ++ CRLF ++ firstn j body; eof := false |}
  = Blocked.
Proof.
  intros Hj. unfold _Read. cbn [buf].
  destruct (length (header_line n ++ CRLF ++ CRLF ++ firstn j body))
    as [|fuel] eqn:E.
  { apply (f_equal (fun n => n =? 0)%nat) in E. discriminate E. }
  rewrite read_headers_frame, dict_get_head, py_int_repr_nat.
  unfold read. cbn [buf eof].
  replace (Z.of_nat n <? -1)%Z with false by (symmetry; apply Z.ltb_ge; lia).
  replace (Z.of_nat n =? -1)%Z with false by (symmetry; apply Z.eqb_neq; lia).
  rewrite Nat2Z.id.
  replace (n <=? length (firstn j body))%nat with false; [reflexivity|].
  symmetry. apply Nat.leb_gt. rewrite length_firstn. lia.
Qed.

(** X14.  [_Read] never acts on part of a frame.  While the server's
    stdout is open and holds only the first [n] bytes of the frame of a
    message, with [n] less than the frame's length, [_Read] blocks, wherever
    the cut falls: in the header line, in the blank line or in the body.
    So the reader thread waits for the rest; it neither raises nor returns
    a truncated message. *)
Theorem X14_read_blocks_on_partial_frame (m : json) (n : nat) :
  (n < length (frame_of m))%nat ->
  _Read {| buf := firstn n (frame_of m); eof := false |} = Blocked.
Proof.
  unfold frame_of. rewrite request_serialized_eq.
  set (k := length (json_dumps m)). set (body := json_dumps m).
  rewrite !length_app. change (length CRLF) with 2%nat. fold k. intros Hn.
  rewrite firstn_app.
  destruct (Nat.le_gt_cases n (length (header_line k))) as [Hle|Hgt].
  { replace (n - length (header_line k))%nat with 0%nat by lia.
    cbn [firstn]. rewrite List.app_nil_r. apply _Read_no_newline.
    apply Forall_firstn.
    pose proof (header_line_no_lf k) as H.
    apply Forall_app in H as [H _]. exact H. }
  rewrite firstn_all2 by lia.
  destruct (n - length (header_line k))%nat as [|[|j]] eqn:Ej; [lia| |].
  { (* the cut is between CR and LF of the header line *)
    cbn [firstn CRLF app]. apply _Read_no_newline, header_line_no_lf. }
  change (firstn (S (S j)) (CRLF ++ CRLF ++ body))
    with (13 :: 10 :: firstn j (CRLF ++ body)).
  destruct j as [|[|j]].
  - (* the header line has arrived, the blank line has not *)
    unfold _Read. cbn [buf firstn]. rewrite read_headers_first.
    rewrite read_headers_blocked by constructor. reflexivity.
  - unfold _Read. cbn [buf firstn CRLF app]. rewrite read_headers_first.
    rewrite read_headers_blocked by (repeat constructor; discriminate).
    reflexivity.
  - change (firstn (S (S j)) (CRLF ++ body)) with (13 :: 10 :: firstn j body).
    apply (_Read_short_body k body j). unfold k, body in *. lia.
Qed.

Lemma X14_read_blocks_on_partial_frame_witness :
  (30 < length (frame_of sample_message))%nat
  /\ _Read {| buf := firstn 30 (frame_of sample_message); eof := false |}
     = Blocked.
Proof.
  assert (H : (30 < length (frame_of sample_message))%nat)
    by (vm_compute; lia).
  split; [exact H|].
  exact (X14_read_blocks_on_partial_frame sample_message 30 H).
Defined.

(** X15.  How the completer notices that the server is gone.  When the
    server's stdout is closed and drained, the next round of the reader
    loop does not block: [_Read] raises
    [RuntimeError( "Missing 'Content-Length' header" )], the loop logs it
    and clears the running flag, and the thread stays alive, waiting for the
    flag.  Nothing else of the object changes. *)
Theorem X15_closed_stdout_stops_the_reader (σ : system) :
  reader_died σ = None ->
  _server_is_running (completer σ) = true ->
  _server_stdout (completer σ) = {| buf := []; eof := true |} ->
  exists σ',
    step LReader σ = Some σ'
    /\ completer σ'
       = set_running false
           (log_exception SERVER_NOT_RUNNING_MESSAGE
              (RuntimeError "Missing 'Content-Length' header") (completer σ))
    /\ callers σ' = callers σ
    /\ reader_died σ' = None
    /\ step LReader σ' = None.
Proof.
  intros Hd Hrun Hout. destruct σ as [self cs rd].
  cbn [completer callers reader_died] in *. subst rd.
  assert (Hread : _Read (_server_stdout self)
                  = Raised (RuntimeError "Missing 'Content-Length' header")
                      {| buf := []; eof := true |})
    by (rewrite Hout; reflexivity).
  eexists. split.
  { cbn [step completer reader_died]. unfold _ReaderLoop_body.
    rewrite Hrun, Hread. cbn [negb]. reflexivity. }
  cbn [completer callers reader_died set_completer].
  split.
  { destruct self. cbn in *. now subst. }
  split; [reflexivity|]. split; [reflexivity|].
  cbn [step completer reader_died set_completer]. unfold _ReaderLoop_body.
  reflexivity.
Qed.

Lemma X15_closed_stdout_stops_the_reader_witness :
  let σ := after [LServerClose] init_system in
  reader_died σ = None
  /\ _server_is_running (completer σ) = true
  /\ _server_stdout (completer σ) = {| buf := []; eof := true |}
  /\ exists σ',
    step LReader σ = Some σ'
    /\ completer σ'
       = set_running false
           (log_exception SERVER_NOT_RUNNING_MESSAGE
              (RuntimeError "Missing 'Content-Length' header") (completer σ))
    /\ callers σ' = callers σ
    /\ reader_died σ' = None
    /\ step LReader σ' = None.
Proof.
  intros σ.
  assert (H1 : reader_died σ = None) by reflexivity.
  assert (H2 : _server_is_running (completer σ) = true) by reflexivity.
  assert (H3 : _server_stdout (completer σ) = {| buf := []; eof := true |})
    by reflexivity.
  split; [exact H1|]. split; [exact H2|]. split; [exact H3|].
  exact (X15_closed_stdout_stops_the_reader σ H1 H2 H3).
Defined.

(** ** Editor events *)

Lemma _Notify_ok method params self :
  exists frame,
    frame <> []
    /\ _Notify method params self
       = Ok (set_stdin (_server_stdin self ++ frame) self).
Proof.
  unfold _Notify.
  pose proof (_BuildRequest_notification method params self) as E.
  destruct (_BuildRequest method params false self) as [rq s'].
  cbn [snd] in E. subst s'.
  eexists. split; [|unfold _Write; rewrite request_serialized_eq; reflexivity].
  discriminate.
Qed.

(** X16.  [OnBufferVisit] for a file whose contents the request carries
    appends one frame to the server's stdin and changes nothing else.  A
    reader of the frame gets a [textDocument/didOpen] notification, without
    ['id'], whose [textDocument] has the file path as ['uri'], the contents
    as ['text'], ['languageId'] [cpp] and ['version'] 1, whatever the
    file's type and however often the buffer was visited before. *)
Theorem X16_buffer_visit_sends_didOpen (rd : request_data)
    (file_data entry contents : json) (self : ClangdCompleter)
    (rest : bytes) (e : bool) :
  getitem file_data (filepath rd) = Ok entry ->
  getitem entry (u "contents") = Ok contents ->
  valid_str (filepath rd) = true ->
  valid_json contents = true ->
  exists (request params document : json) (frame : bytes)
         (self' : ClangdCompleter),
    OnBufferVisit rd file_data self = Ok self'
    /\ wrote frame self self'
    /\ frame <> []
    /\ _Read {| buf := frame ++ rest; eof := e |}
       = Returned request {| buf := rest; eof := e |}
    /\ py_in (u "id") request = Ok false
    /\ getitem request (u "method") = Ok (JStr (u "textDocument/didOpen"))
    /\ getitem request (u "params") = Ok params
    /\ getitem params (u "textDocument") = Ok document
    /\ getitem document (u "uri") = Ok (JStr (filepath rd))
    /\ getitem document (u "languageId") = Ok (JStr (u "cpp"))
    /\ getitem document (u "version") = Ok (JInt 1)
    /\ getitem document (u "text") = Ok contents.
Proof.
  intros He Hc Hf Hv. unfold OnBufferVisit. rewrite He. cbn [bind].
  rewrite Hc. cbn [bind].
  assert (Hm : valid_json (JStr (u "textDocument/didOpen")) = true)
    by (vm_compute; reflexivity).
  assert (Hp : valid_json (didOpen_params (JStr (filepath rd)) contents) = true).
  { assert (K1 : bool_decide (NoDup [u "textDocument"]) = true)
      by (vm_compute; reflexivity).
    assert (K2 : bool_decide (NoDup [u "uri"; u "languageId"; u "version";
                                     u "text"]) = true)
      by (vm_compute; reflexivity).
    assert (S1 : valid_str (u "textDocument") = true)
      by (vm_compute; reflexivity).
    assert (S2 : valid_str (u "uri") = true) by (vm_compute; reflexivity).
    assert (S3 : valid_str (u "languageId") = true) by (vm_compute; reflexivity).
    assert (S4 : valid_str (u "version") = true) by (vm_compute; reflexivity).
    assert (S5 : valid_str (u "text") = true) by (vm_compute; reflexivity).
    assert (S6 : valid_str (u "cpp") = true) by (vm_compute; reflexivity).
    unfold didOpen_params. cbn [valid_json List.map fst snd forallb].
    now rewrite K1, K2, S1, S2, S3, S4, S5, S6, Hf, Hv. }
  destruct (_Notify_sent (JStr (u "textDocument/didOpen"))
              (didOpen_params (JStr (filepath rd)) contents) self rest e Hm Hp)
    as (request & frame & self' & H1 & Hw & Hne & H2 & H3 & _ & H5 & H6).
  exists request, (didOpen_params (JStr (filepath rd)) contents),
    (JDict [(u "uri", JStr (filepath rd)); (u "languageId", JStr (u "cpp"));
            (u "version", JInt 1); (u "text", contents)]), frame, self'.
  split; [exact H1|]. split; [exact Hw|]. split; [exact Hne|].
  split; [exact H2|]. split; [exact H3|].
  split; [exact H5|]. split; [exact H6|]. repeat split.
Qed.

Lemma X16_buffer_visit_sends_didOpen_witness :
  getitem sample_file_data (filepath sample_request_data) = Ok sample_file_entry
  /\ getitem sample_file_entry (u "contents") = Ok (JStr (u "int x"))
  /\ valid_str (filepath sample_request_data) = true
  /\ valid_json (JStr (u "int x")) = true
  /\ exists (request params document : json) (frame : bytes)
            (self' : ClangdCompleter),
    OnBufferVisit sample_request_data sample_file_data init = Ok self'
    /\ wrote frame init self'
    /\ frame <> []
    /\ _Read {| buf := frame ++ []; eof := false |}
       = Returned request {| buf := []; eof := false |}
    /\ py_in (u "id") request = Ok false
    /\ getitem request (u "method") = Ok (JStr (u "textDocument/didOpen"))
    /\ getitem request (u "params") = Ok params
    /\ getitem params (u "textDocument") = Ok document
    /\ getitem document (u "uri") = Ok (JStr (filepath sample_request_data))
    /\ getitem document (u "languageId") = Ok (JStr (u "cpp"))
    /\ getitem document (u "version") = Ok (JInt 1)
    /\ getitem document (u "text") = Ok (JStr (u "int x")).
Proof.
  assert (H1 : getitem sample_file_data (filepath sample_request_data)
               = Ok sample_file_entry) by (vm_compute; reflexivity).
  assert (H2 : getitem sample_file_entry (u "contents") = Ok (JStr (u "int x")))
    by (vm_compute; reflexivity).
  assert (H3 : valid_str (filepath sample_request_data) = true)
    by (vm_compute; reflexivity).
  assert (H4 : valid_json (JStr (u "int x")) = true)
    by (vm_compute; reflexivity).
  split; [exact H1|]. split; [exact H2|]. split; [exact H3|].
  split; [exact H4|].
  exact (X16_buffer_visit_sends_didOpen sample_request_data sample_file_data
           sample_file_entry (JStr (u "int x")) init [] false H1 H2 H3 H4).
Defined.

(** X17.  [OnFileReadyToParse] does not wait for the server's answer to
    its own notification.  When the slot holds a document as the call
    starts, and nothing takes the slot or publishes anew between the write
    of the notification and the take, whatever else runs in between, the
    call does not block: it returns the diagnostics converted from that
    earlier document, or raises the error of converting it, and leaves the
    slot empty. *)
Theorem X17_file_ready_takes_earlier_diagnostics
    (cvt : ustring -> json -> result Z) (rd : request_data)
    (file_data : json) (σ σ2 : system) (self1 : ClangdCompleter)
    (ls : list label) (elapsed : bool) :
  _has_diagnostics (completer σ) = true ->
  OnFileReadyToParse_notify rd file_data (completer σ) = Ok self1 ->
  run ls (set_completer self1 σ) = Some σ2 ->
  run_quiet ls (set_completer self1 σ) = true ->
  (exists frame, frame <> [] /\ wrote frame (completer σ) self1)
  /\ match GetDiagnosticsForCurrentFile cvt rd (completer σ2) elapsed with
     | Blocked => False
     | Returned res self' =>
       convert_diagnostics cvt rd (_diagnostics (completer σ)) = Ok res
       /\ _has_diagnostics self' = false /\ _diagnostics self' = JNull
     | Raised err self' =>
       convert_diagnostics cvt rd (_diagnostics (completer σ)) = Err err
       /\ _has_diagnostics self' = false /\ _diagnostics self' = JNull
     end.
Proof.
  intros Hfull Hn Hrun Hq.
  assert (Hw : exists frame, frame <> [] /\ wrote frame (completer σ) self1).
  { revert Hn. unfold OnFileReadyToParse_notify.
    destruct (getitem file_data (filepath rd)) as [entry|]; cbn [bind];
      [|discriminate].
    destruct (getitem entry (u "contents")) as [contents|]; cbn [bind];
      [|discriminate].
    destruct (_Notify_ok (JStr (u "textDocument/didOpen"))
                (didOpen_params (JStr (filepath rd)) contents) (completer σ))
      as (frame & Hne & ->).
    intros [= <-]. exists frame. split; [exact Hne|]. repeat split. }
  split; [exact Hw|].
  destruct Hw as (frame & _ & _ & _ & _ & _ & _ & Hd & Hh & _).
  destruct (run_quiet_slot ls _ _ Hrun Hq) as [A B].
  cbn [set_completer completer] in A, B.
  unfold GetDiagnosticsForCurrentFile, take_diagnostics, Event_wait.
  rewrite B, Hh, Hfull, A, Hd.
  destruct (convert_diagnostics cvt rd (_diagnostics (completer σ)));
    repeat split.
Qed.

Lemma X17_file_ready_takes_earlier_diagnostics_witness :
  let σ := after [LServerWrite (frame_of foreign_document); LReader]
             init_system in
  let self1 := match OnFileReadyToParse_notify sample_request_data
                       sample_file_data (completer σ) with
               | Ok s => s
               | Err _ => completer σ
               end in
  let ls := [LInvoke (JStr (u "initialize")) JNull; LRegister 0; LWrite 0;
             LServerWrite (frame_of late_reply); LReader; LResult 0 false] in
  let σ2 := after ls (set_completer self1 σ) in
  _has_diagnostics (completer σ) = true
  /\ OnFileReadyToParse_notify sample_request_data sample_file_data
       (completer σ) = Ok self1
  /\ run ls (set_completer self1 σ) = Some σ2
  /\ run_quiet ls (set_completer self1 σ) = true
  /\ (exists frame, frame <> [] /\ wrote frame (completer σ) self1)
  /\ match GetDiagnosticsForCurrentFile ascii_offset sample_request_data
             (completer σ2) false with
     | Blocked => False
     | Returned res self' =>
       convert_diagnostics ascii_offset sample_request_data
         (_diagnostics (completer σ)) = Ok res
       /\ _has_diagnostics self' = false /\ _diagnostics self' = JNull
     | Raised err self' =>
       convert_diagnostics ascii_offset sample_request_data
         (_diagnostics (completer σ)) = Err err
       /\ _has_diagnostics self' = false /\ _diagnostics self' = JNull
     end.
Proof.
  intros σ self1 ls σ2.
  assert (H1 : _has_diagnostics (completer σ) = true)
    by (vm_compute; reflexivity).
  assert (H2 : OnFileReadyToParse_notify sample_request_data sample_file_data
                 (completer σ) = Ok self1) by (vm_compute; reflexivity).
  assert (H3 : run ls (set_completer self1 σ) = Some σ2)
    by (vm_compute; reflexivity).
  assert (H4 : run_quiet ls (set_completer self1 σ) = true)
    by (vm_compute; reflexivity).
  split; [exact H1|]. split; [exact H2|]. split; [exact H3|].
  split; [exact H4|].
  exact (X17_file_ready_takes_earlier_diagnostics ascii_offset
           sample_request_data sample_file_data σ σ2 self1 ls false
           H1 H2 H3 H4).
Defined.

(** ** Starting the server again *)

(** X18.  [_StartServer], up to the wait of its [_Invoke], gives the
    completer fresh pipes and sets the running flag; the first and only
    frame on the new stdin is the [initialize] request with the
    capabilities given.  The call does not start from scratch: the id
    counter goes on from its old value, the entries of the pending table
    stay, and so does the diagnostics slot. *)
Theorem X18_start_server_keeps_ids_and_waiters (capabilities : json)
    (self : ClangdCompleter) (rest : bytes) (e : bool) :
  valid_json capabilities = true ->
  exists (request : json) (frame : bytes) (self' : ClangdCompleter),
    _StartServer_send capabilities self = Ok (length (heap self), self')
    /\ _server_stdin self' = frame
    /\ _server_stdout self' = {| buf := []; eof := false |}
    /\ _server_is_running self' = true
    /\ _sequenceid self' = (_sequenceid self + 1)%Z
    /\ _pending self'
       = <[KInt (_sequenceid self) := length (heap self)]> (_pending self)
    /\ heap self' = heap self ++ [DeferredResponse_init]
    /\ _diagnostics self' = _diagnostics self
    /\ _has_diagnostics self' = _has_diagnostics self
    /\ _Read {| buf := frame ++ rest; eof := e |}
       = Returned request {| buf := rest; eof := e |}
    /\ getitem request (u "id") = Ok (JInt (_sequenceid self))
    /\ getitem request (u "method") = Ok (JStr (u "initialize"))
    /\ getitem request (u "params")
       = Ok (JDict [(u "capabilities", capabilities)]).
Proof.
  intros Hv. unfold _StartServer_send.
  assert (Hm : valid_json (JStr (u "initialize")) = true)
    by (vm_compute; reflexivity).
  assert (Hp : valid_json (JDict [(u "capabilities", capabilities)]) = true).
  { assert (K : bool_decide (NoDup [u "capabilities"]) = true)
      by (vm_compute; reflexivity).
    assert (S1 : valid_str (u "capabilities") = true)
      by (vm_compute; reflexivity).
    cbn [valid_json List.map fst snd forallb]. now rewrite K, S1, Hv. }
  destruct (_Invoke_send_round_trip (JStr (u "initialize"))
              (JDict [(u "capabilities", capabilities)])
              (_StartServer_spawn self) rest e Hm Hp)
    as (request & frame & H1 & H2 & H3 & _ & H5 & H6).
  exists request, frame. eexists. split; [exact H1|].
  cbn [_StartServer_spawn set_running set_stdout set_stdin set_pending
       set_sequenceid _server_stdin _server_stdout _server_is_running
       _sequenceid _pending heap _diagnostics _has_diagnostics app].
  repeat (split; [reflexivity|]).
  split; [exact H2|]. split; [exact H3|]. split; [exact H5|exact H6].
Qed.

Lemma X18_start_server_keeps_ids_and_waiters_witness :
  let self := completer waiting_system in
  valid_json (JDict []) = true
  /\ exists (request : json) (frame : bytes) (self' : ClangdCompleter),
    _StartServer_send (JDict []) self = Ok (length (heap self), self')
    /\ _server_stdin self' = frame
    /\ _server_stdout self' = {| buf := []; eof := false |}
    /\ _server_is_running self' = true
    /\ _sequenceid self' = (_sequenceid self + 1)%Z
    /\ _pending self'
       = <[KInt (_sequenceid self) := length (heap self)]> (_pending self)
    /\ heap self' = heap self ++ [DeferredResponse_init]
    /\ _diagnostics self' = _diagnostics self
    /\ _has_diagnostics self' = _has_diagnostics self
    /\ _Read {| buf := frame ++ []; eof := false |}
       = Returned request {| buf := []; eof := false |}
    /\ getitem request (u "id") = Ok (JInt (_sequenceid self))
    /\ getitem request (u "method") = Ok (JStr (u "initialize"))
    /\ getitem request (u "params") = Ok (JDict [(u "capabilities", JDict [])]).
Proof.
  intros self.
  assert (H : valid_json (JDict []) = true) by (vm_compute; reflexivity).
  split; [exact H|].
  exact (X18_start_server_keeps_ids_and_waiters (JDict []) self [] false H).
Defined.

(** ** Messages that nobody waits for *)

Lemma dispatch_dropped m self :
  survivable m = true -> is_publish m = false -> resolves m self = None ->
  dispatch m self = LoopContinue self.
Proof.
  intros Hs Hp Hr. pose proof (dispatch_survivable m self) as Hd.
  revert Hp Hr Hd. unfold is_publish, resolves, reply_id, dispatch.
  destruct (py_in (u "id") m) as [[]|].
  - destruct (bind _ _) as [k|].
    + destruct (_pending self !! k); [discriminate|reflexivity].
    + intros _ _ [H _]. congruence.
  - destruct (getitem m (u "method")) as [method|].
    + now intros ->.
    + intros _ _ [H _]. congruence.
  - intros _ _ [H _]. congruence.
Qed.

(** X19.  A message that the reader loop can handle but that nobody
    waits for is dropped without a trace: a reply, or a request of the
    server, whose ['id'] is not in the pending table, and a notification
    other than [textDocument/publishDiagnostics].  The round consumes the
    frame from the server's stdout and changes nothing else: nothing is
    logged, no deferred is resolved, the slot and the callers stay as they
    are. *)
Theorem X19_unmatched_message_is_dropped (σ : system) (m : json) :
  decoded_by LReader σ = Some m ->
  survivable m = true ->
  is_publish m = false ->
  resolves m (completer σ) = None ->
  exists out : stream,
    _Read (_server_stdout (completer σ)) = Returned m out
    /\ step LReader σ = Some (set_completer (set_stdout out (completer σ)) σ).
Proof.
  unfold decoded_by. cbn [step]. unfold _ReaderLoop_body.
  destruct (reader_died σ); [discriminate|].
  destruct (negb (_server_is_running (completer σ))); [discriminate|].
  destruct (_Read (_server_stdout (completer σ))) as [|e out|message out];
    try discriminate.
  intros [= ->] Hs Hp Hr. exists out. split; [reflexivity|].
  now rewrite (dispatch_dropped m (set_stdout out (completer σ)) Hs Hp Hr).
Qed.

Lemma X19_unmatched_message_is_dropped_witness :
  let σ := after (invoke_labels ++ [LServerWrite (frame_of server_request)])
             init_system in
  decoded_by LReader σ = Some server_request
  /\ survivable server_request = true
  /\ is_publish server_request = false
  /\ resolves server_request (completer σ) = None
  /\ exists out : stream,
    _Read (_server_stdout (completer σ)) = Returned server_request out
    /\ step LReader σ = Some (set_completer (set_stdout out (completer σ)) σ).
Proof.
  intros σ.
  assert (H1 : decoded_by LReader σ = Some server_request)
    by (vm_compute; reflexivity).
  assert (H2 : survivable server_request = true) by (vm_compute; reflexivity).
  assert (H3 : is_publish server_request = false) by (vm_compute; reflexivity).
  assert (H4 : resolves server_request (completer σ) = None)
    by (vm_compute; reflexivity).
  split; [exact H1|]. split; [exact H2|]. split; [exact H3|].
  split; [exact H4|].
  exact (X19_unmatched_message_is_dropped σ server_request H1 H2 H3 H4).
Defined.

(** ** Enabling the completer *)

(** X20.  [ShouldEnableClangdCompleter] enables the completer exactly when
    ycmd was built without libclang support and a clangd binary was found.
    Built-in libclang support wins silently: nothing is logged then.
    Otherwise exactly one record is logged, a warning when no binary was
    found and an info record when the completer is enabled. *)
Theorem X20_clangd_enabled_only_without_libclang (HasClangSupport : bool)
    (PATH_TO_CLANGD : option string) :
  let found :=
    match PATH_TO_CLANGD with
    | Some (String _ _) => true
    | _ => false
    end in
  let '(enabled, log) :=
    ShouldEnableClangdCompleter HasClangSupport PATH_TO_CLANGD in
  enabled = negb HasClangSupport && found
  /\ List.map fst log
     = if HasClangSupport then []
       else if found then [INFO] else [WARNING].
Proof.
  destruct HasClangSupport, PATH_TO_CLANGD as [[|c s]|]; split; reflexivity.
Qed.

(** ** The completion request *)

(** X21.  [ComputeCandidatesInner], up to the wait of its [_Invoke],
    sends one [textDocument/completion] request under the next id.  A
    reader of the frame finds the file path of the request as the
    document's ['uri'], the line number less one as the position's
    ['line'], and the start codepoint, as it is, as the position's
    ['character']. *)
Theorem X21_completion_request_position (rd : request_data)
    (self : ClangdCompleter) (rest : bytes) (e : bool) :
  valid_str (filepath rd) = true ->
  exists (request params document position : json) (frame : bytes)
         (self' : ClangdCompleter),
    ComputeCandidatesInner_send rd self = Ok (length (heap self), self')
    /\ _server_stdin self' = _server_stdin self ++ frame
    /\ _sequenceid self' = (_sequenceid self + 1)%Z
    /\ _Read {| buf := frame ++ rest; eof := e |}
       = Returned request {| buf := rest; eof := e |}
    /\ getitem request (u "id") = Ok (JInt (_sequenceid self))
    /\ getitem request (u "method") = Ok (JStr (u "textDocument/completion"))
    /\ getitem request (u "params") = Ok params
    /\ getitem params (u "textDocument") = Ok document
    /\ getitem document (u "uri") = Ok (JStr (filepath rd))
    /\ getitem params (u "position") = Ok position
    /\ getitem position (u "line") = Ok (JInt (line_num rd - 1))
    /\ getitem position (u "character") = Ok (JInt (start_codepoint rd)).
Proof.
  intros Hf. unfold ComputeCandidatesInner_send.
  assert (Hm : valid_json (JStr (u "textDocument/completion")) = true)
    by (vm_compute; reflexivity).
  assert (Hp : valid_json (completion_params rd) = true).
  { assert (K1 : bool_decide (NoDup [u "textDocument"; u "position"]) = true)
      by (vm_compute; reflexivity).
    assert (K2 : bool_decide (NoDup [u "uri"]) = true)
      by (vm_compute; reflexivity).
    assert (K3 : bool_decide (NoDup [u "line"; u "character"]) = true)
      by (vm_compute; reflexivity).
    assert (S1 : valid_str (u "textDocument") = true)
      by (vm_compute; reflexivity).
    assert (S2 : valid_str (u "position") = true) by (vm_compute; reflexivity).
    assert (S3 : valid_str (u "uri") = true) by (vm_compute; reflexivity).
    assert (S4 : valid_str (u "line") = true) by (vm_compute; reflexivity).
    assert (S5 : valid_str (u "character") = true) by (vm_compute; reflexivity).
    unfold completion_params. cbn [valid_json List.map fst snd forallb].
    now rewrite K1, K2, K3, S1, S2, S3, S4, S5, Hf. }
  destruct (_Invoke_send_round_trip (JStr (u "textDocument/completion"))
              (completion_params rd) self rest e Hm Hp)
    as (request & frame & H1 & H2 & H3 & _ & H5 & H6).
  exists request, (completion_params rd),
    (JDict [(u "uri", JStr (filepath rd))]),
    (JDict [(u "line", JInt (line_num rd - 1));
            (u "character", JInt (start_codepoint rd))]), frame.
  eexists. split; [exact H1|].
  cbn [set_stdin set_pending set_sequenceid _server_stdin _sequenceid].
  split; [reflexivity|]. split; [reflexivity|].
  split; [exact H2|]. split; [exact H3|]. split; [exact H5|].
  split; [exact H6|]. repeat split.
Qed.

Lemma X21_completion_request_position_witness :
  valid_str (filepath sample_request_data) = true
  /\ exists (request params document position : json) (frame : bytes)
            (self' : ClangdCompleter),
    ComputeCandidatesInner_send sample_request_data init
    = Ok (length (heap init), self')
    /\ _server_stdin self' = _server_stdin init ++ frame
    /\ _sequenceid self' = (_sequenceid init + 1)%Z
    /\ _Read {| buf := frame ++ []; eof := false |}
       = Returned request {| buf := []; eof := false |}
    /\ getitem request (u "id") = Ok (JInt (_sequenceid init))
    /\ getitem request (u "method") = Ok (JStr (u "textDocument/completion"))
    /\ getitem request (u "params") = Ok params
    /\ getitem params (u "textDocument") = Ok document
    /\ getitem document (u "uri") = Ok (JStr (filepath sample_request_data))
    /\ getitem params (u "position") = Ok position
    /\ getitem position (u "line") = Ok (JInt (line_num sample_request_data - 1))
    /\ getitem position (u "character")
       = Ok (JInt (start_codepoint sample_request_data)).
Proof.
  assert (H : valid_str (filepath sample_request_data) = true)
    by (vm_compute; reflexivity).
  split; [exact H|].
  exact (X21_completion_request_position sample_request_data init [] false H).
Defined.
